(** * update_permission.py: switching Lake Formation to IAM-only access control

    A shallow embedding of
    [utilities/use_only_IAM_access_controls/update_permission.py] and the
    properties of its run.

    The script is a straight line of remote calls (STS, Lake Formation, Glue)
    made through boto3, guarded by one confirmation prompt.  Everything the
    script does not own (the services, the terminal, the interpreter's
    stack) is the environment: a [World] with one transition function
    answering each call, the lines typed, and the number of nested calls of
    [prompt] the interpreter allows.  The script
    itself is a computation in a small monad that threads the world and the
    pending terminal input, can raise Python exceptions, and emits the
    chronological list of what it did (prints, prompts, calls with their
    answers). *)

From Stdlib Require Import String Ascii List ZArith Bool Lia PeanoNat Sorted.
Import ListNotations.
Local Open Scope string_scope.
Local Open Scope list_scope.

Set Implicit Arguments.
Set Warnings "-register-all".

(** ** Python values

    The data handled by the script is what boto3 hands back: nested
    dictionaries, lists, strings, numbers, booleans and [None].  A dictionary
    keeps its insertion order (the order in which [keys()] enumerates it), so
    it is an association list; boto3 never produces a key twice. *)

Inductive value : Type :=
| VNone
| VBool (b : bool)
| VInt (z : Z)
| VStr (s : string)
| VList (l : list value)
| VDict (d : list (string * value)).

Definition dict := list (string * value).

Definition is_dict (v : value) : bool :=
  match v with VDict _ => true | _ => false end.

(** [d.get(k)] on the entries of a dictionary. *)
Fixpoint dict_get (d : dict) (k : string) : option value :=
  match d with
  | [] => None
  | (k', v) :: rest => if String.eqb k' k then Some v else dict_get rest k
  end.

(** [k in d]. *)
Definition has_key (d : dict) (k : string) : bool :=
  match dict_get d k with Some _ => true | None => false end.

(** [d[k] = v]: an existing key keeps its position, a new one goes last. *)
Fixpoint dict_set (d : dict) (k : string) (v : value) : dict :=
  match d with
  | [] => [(k, v)]
  | (k', v') :: rest =>
      if String.eqb k' k then (k', v) :: rest else (k', v') :: dict_set rest k v
  end.

(** [d.get(k, default)]. *)
Definition dict_get_default (d : dict) (k : string) (default : value) : value :=
  match dict_get d k with Some v => v | None => default end.

Definition keys (d : dict) : list string := map fst d.

(** *** Equality

    Python's [==] on these values: numbers and booleans compare by number
    ([True == 1]), lists element by element, dictionaries as unordered maps,
    and values of different kinds are unequal. *)

Definition num_of (v : value) : option Z :=
  match v with
  | VBool b => Some (if b then 1 else 0)%Z
  | VInt z => Some z
  | _ => None
  end.

Fixpoint py_eq (a b : value) {struct a} : bool :=
  match a with
  | VNone => match b with VNone => true | _ => false end
  | VBool _ | VInt _ =>
      match num_of a, num_of b with
      | Some x, Some y => Z.eqb x y
      | _, _ => false
      end
  | VStr s => match b with VStr s' => String.eqb s s' | _ => false end
  | VList l =>
      match b with
      | VList l' =>
          (fix all2 (xs : list value) (ys : list value) {struct xs} : bool :=
             match xs, ys with
             | [], [] => true
             | x :: xs', y :: ys' => py_eq x y && all2 xs' ys'
             | _, _ => false
             end) l l'
      | _ => false
      end
  | VDict d =>
      match b with
      | VDict d' =>
          Nat.eqb (length d) (length d') &&
          (fix sub (xs : dict) {struct xs} : bool :=
             match xs with
             | [] => true
             | (k, x) :: xs' =>
                 match dict_get d' k with
                 | Some y => py_eq x y && sub xs'
                 | None => false
                 end
             end) d
      | _ => false
      end
  end.

(** What [if v:] takes for true: everything but [None], [False], zero and
    the empty string, list and dictionary. *)
Definition truthy (v : value) : bool :=
  match v with
  | VNone => false
  | VBool b => b
  | VInt z => negb (Z.eqb z 0)
  | VStr s => negb (String.eqb s "")
  | VList l => match l with [] => false | _ => true end
  | VDict d => match d with [] => false | _ => true end
  end.

(** *** Strings

    [str.lower()] on the ASCII letters.  The prompt compares the lowered
    answer with "n", "no", "y" and "yes" only, and no non-ASCII character
    lowers to one of the letters n, o, y, e, s. *)

Definition lower_ascii (c : ascii) : ascii :=
  let n := nat_of_ascii c in
  if andb (Nat.leb 65 n) (Nat.leb n 90) then ascii_of_nat (n + 32) else c.

Fixpoint lower (s : string) : string :=
  match s with
  | EmptyString => EmptyString
  | String c rest => String (lower_ascii c) (lower rest)
  end.

(** [x in [a, b, ...]] for a list of string literals. *)
Definition str_in (x : string) (l : list string) : bool :=
  existsb (String.eqb x) l.

(** [needle in s] on strings is the substring test. *)
Definition is_substring (needle s : string) : bool :=
  match String.index 0 needle s with Some _ => true | None => false end.

(** The characters of a string, as Python yields them when iterating it. *)
Fixpoint chars (s : string) : list value :=
  match s with
  | EmptyString => []
  | String c rest => VStr (String c EmptyString) :: chars rest
  end.

(** ** Exceptions and outcomes *)

Inductive exn : Type :=
| KeyError (k : string)
| TypeError
| AttributeError
| EOFError
| RecursionError
| PaginationError
| SystemExit (code : Z)
| RemoteError (info : value).

(** [except Exception] catches every exception above but [SystemExit], which
    derives from [BaseException] only.  [RecursionError] is the
    interpreter's, [PaginationError] is botocore's. *)
Definition is_Exception (e : exn) : bool :=
  match e with SystemExit _ => false | _ => true end.

(** A computation returns, raises, or is cut off by the bound put on the
    number of pages a listing may have ([NoFuel]). *)
Inductive outcome (A : Type) : Type :=
| Ret (a : A)
| Exc (e : exn)
| NoFuel.

Arguments Exc {A} e.
Arguments NoFuel {A}.

(** [v[k]] for a string key: only a dictionary accepts it. *)
Definition subscript (v : value) (k : string) : outcome value :=
  match v with
  | VDict d =>
      match dict_get d k with
      | Some x => Ret x
      | None => Exc (KeyError k)
      end
  | _ => Exc TypeError
  end.

(** [v.get(k)] and [v.get(k, default)]: only a dictionary has [get]. *)
Definition get_method (v : value) (k : string) (default : value) : outcome value :=
  match v with
  | VDict d => Ret (dict_get_default d k default)
  | _ => Exc AttributeError
  end.

(** [v[k] = x]. *)
Definition setitem (v : value) (k : string) (x : value) : outcome value :=
  match v with
  | VDict d => Ret (VDict (dict_set d k x))
  | _ => Exc TypeError
  end.

(** [k in v] for a string [k]. *)
Definition py_contains (k : string) (v : value) : outcome bool :=
  match v with
  | VDict d => Ret (has_key d k)
  | VList l => Ret (existsb (fun x => py_eq x (VStr k)) l)
  | VStr s => Ret (is_substring k s)
  | _ => Exc TypeError
  end.

(** What [for x in v] and [list.extend(v)] enumerate. *)
Definition py_iter (v : value) : outcome (list value) :=
  match v with
  | VList l => Ret l
  | VDict d => Ret (map VStr (keys d))
  | VStr s => Ret (chars s)
  | _ => Exc TypeError
  end.

(** ** [get_catalog_id]

    <<
    def get_catalog_id(resource):
        for key in resource.keys():
            if isinstance(resource[key], dict):
                return get_catalog_id(resource[key])
            elif 'CatalogId' == key:
                return resource[key]
    >>
    The loop returns at the first key that holds a dictionary (with whatever
    the recursive call found there, [None] included) or, failing that, at a
    key named [CatalogId]; falling off the loop returns [None].  Applied to
    anything but a dictionary, [resource.keys()] raises. *)

Fixpoint get_catalog_id_dict (resource : value) : value :=
  match resource with
  | VDict d =>
      (fix scan (items : dict) : value :=
         match items with
         | [] => VNone
         | (key, v) :: rest =>
             match v with
             | VDict _ => get_catalog_id_dict v
             | _ => if String.eqb "CatalogId" key then v else scan rest
             end
         end) d
  | _ => VNone
  end.

Definition get_catalog_id (resource : value) : outcome value :=
  match resource with
  | VDict _ => Ret (get_catalog_id_dict resource)
  | _ => Exc AttributeError
  end.

(** ** The environment: remote calls, the terminal, the record of a run *)

(** The boto3 operations the script performs, with their keyword arguments.
    [NextToken] is absent on the first request of a listing. *)
Inductive call : Type :=
| Session (session_args : value)
| Client (service : string)
| GetCallerIdentity
| GetDataLakeSettings
| PutDataLakeSettings (DataLakeSettings : value)
| ListResources (NextToken : option value)
| DeregisterResource (ResourceArn : value)
| GrantPermissions (Principal Resource Permissions PermissionsWithGrantOption : value)
| GetDatabases (NextToken : option value)
| UpdateDatabase (Name DatabaseInput : value)
| GetTables (DatabaseName : value) (NextToken : option value)
| ListPermissions (NextToken : option value)
| RevokePermissions (Principal Resource Permissions PermissionsWithGrantOption : value).

(** The calls that change something on the remote side. *)
Definition mutating (c : call) : bool :=
  match c with
  | PutDataLakeSettings _ | DeregisterResource _ | GrantPermissions _ _ _ _
  | UpdateDatabase _ _ | RevokePermissions _ _ _ _ => true
  | _ => false
  end.

Definition is_revoke (c : call) : bool :=
  match c with RevokePermissions _ _ _ _ => true | _ => false end.

Definition is_grant (c : call) : bool :=
  match c with GrantPermissions _ _ _ _ => true | _ => false end.

(** A call answers with a value or fails with an error raised by boto3. *)
Inductive response : Type :=
| Ok (v : value)
| Err (info : value).

(** A piece of an f-string: literal text, or an interpolated value. *)
Inductive fragment : Type :=
| Lit (s : string)
| Fmt (v : value)
| FmtOpt (v : option string)
| FmtExn (e : exn).

(** What a run does, in the order it does it. *)
Inductive event : Type :=
| EPrint (line : list fragment)
| EInput (message : string) (answer : option string)
| ECall (c : call) (r : response).

Definition trace := list event.

(** The calls of a trace. *)
Fixpoint calls (tr : trace) : list call :=
  match tr with
  | [] => []
  | ECall c _ :: rest => c :: calls rest
  | _ :: rest => calls rest
  end.

(** Command-line arguments after [argparse]. *)
Record arguments : Type := { profile : option string; region : option string }.

Section Script.

Variable World : Type.
Variable remote : call -> World -> response * World.

(** The state a run threads: the remote world and the lines still to be typed
    at the terminal. *)
Record state : Type := { world : World; stdin : list string }.

Definition M (A : Type) : Type := state -> outcome A * state * trace.

Definition ret {A} (a : A) : M A := fun s => (Ret a, s, []).

Definition bind {A B} (m : M A) (f : A -> M B) : M B := fun s =>
  match m s with
  | (Ret a, s1, t1) => let '(o, s2, t2) := f a s1 in (o, s2, t1 ++ t2)
  | (Exc e, s1, t1) => (Exc e, s1, t1)
  | (NoFuel, s1, t1) => (NoFuel, s1, t1)
  end.

Local Notation "x <- m ;; k" := (bind m (fun x => k))
  (at level 61, m at next level, right associativity).
Local Notation "m ;; k" := (bind m (fun _ => k))
  (at level 61, right associativity).

Definition raise {A} (e : exn) : M A := fun s => (Exc e, s, []).

Definition out_of_fuel {A} : M A := fun s => (NoFuel, s, []).

(** A pure Python expression that may raise. *)
Definition eval {A} (o : outcome A) : M A := fun s => (o, s, []).

Definition print (line : list fragment) : M unit :=
  fun s => (Ret tt, s, [EPrint line]).

(** [input(message)]: shows the message and reads one line; at the end of the
    input it raises [EOFError]. *)
Definition input (message : string) : M string := fun s =>
  match stdin s with
  | [] => (Exc EOFError, s, [EInput message None])
  | answer :: rest =>
      (Ret answer, {| world := world s; stdin := rest |},
       [EInput message (Some answer)])
  end.

(** A boto3 call: the environment answers and moves on. *)
Definition invoke (c : call) : M value := fun s =>
  match remote c (world s) with
  | (Ok v, w) => (Ret v, {| world := w; stdin := stdin s |}, [ECall c (Ok v)])
  | (Err info, w) =>
      (Exc (RemoteError info), {| world := w; stdin := stdin s |},
       [ECall c (Err info)])
  end.

(** [try: m  except Exception as e: handler e]. *)
Definition try_except (m : M unit) (handler : exn -> M unit) : M unit := fun s =>
  match m s with
  | (Exc e, s1, t1) =>
      if is_Exception e
      then let '(o, s2, t2) := handler e s1 in (o, s2, t1 ++ t2)
      else (Exc e, s1, t1)
  | r => r
  end.

(** [for x in l: body x], where [continue] ends the body. *)
Fixpoint for_each {A} (l : list A) (body : A -> M unit) : M unit :=
  match l with
  | [] => ret tt
  | x :: rest => body x ;; for_each rest body
  end.

(** *** 0. Credentials and parameters *)

Definition configure (args : arguments) : M value :=
  let session_args : dict := [] in
  session_args <-
    match profile args with
    | Some p =>
        print [Lit "boto3 Session uses "; FmtOpt (Some p);
               Lit " profile based on the argument."] ;;
        ret (dict_set session_args "profile_name" (VStr p))
    | None => ret session_args
    end ;;
  session_args <-
    match region args with
    | Some r =>
        print [Lit "boto3 Session uses "; FmtOpt (Some r);
               Lit " region based on the argument."] ;;
        ret (dict_set session_args "region_name" (VStr r))
    | None => ret session_args
    end ;;
  session <- invoke (Session (VDict session_args)) ;;
  invoke (Client "sts") ;;
  identity <- invoke GetCallerIdentity ;;
  account_id <- eval (get_method identity "Account" VNone) ;;
  profile_name <- eval (get_method session "profile_name" VNone) ;;
  region_name <- eval (get_method session "region_name" VNone) ;;
  print [Lit "- Account: "; Fmt account_id; Lit "\n- Profile: ";
         Fmt profile_name; Lit "\n- Region: "; Fmt region_name] ;;
  ret account_id.

(** *** The confirmation prompt

    <<
    def prompt(message):
        answer = input(message)
        if answer.lower() in ["n","no"]:
            sys.exit(0)
        elif answer.lower() not in ["y","yes"]:
            prompt(message)
    >>
    An answer that is neither a yes nor a no makes [prompt] call itself, one
    frame deeper each time, and the interpreter bounds the depth of the
    stack: [recursion_limit] is the number of nested calls of [prompt] it
    allows (with CPython's default limit of 1000, a little under 1000).  The
    call that would exceed it raises [RecursionError] before it reads
    anything.  [prompt_rec depth] is [prompt] with [depth] calls still
    allowed. *)

Variable recursion_limit : nat.

Fixpoint prompt_rec (depth : nat) (message : string) : M unit :=
  match depth with
  | O => raise RecursionError
  | S depth' =>
      answer <- input message ;;
      if str_in (lower answer) ["n"; "no"] then raise (SystemExit 0)
      else if negb (str_in (lower answer) ["y"; "yes"])
           then prompt_rec depth' message
           else ret tt
  end.

Definition prompt (message : string) : M unit :=
  prompt_rec recursion_limit message.

Definition confirmation : string :=
  "Are you sure to make modifications on Lake Formation permissions to use only IAM access control? (y/n): ".

Definition iam_allowed_principal : value :=
  VDict [("DataLakePrincipalIdentifier", VStr "IAM_ALLOWED_PRINCIPALS")].

(** [[{'Principal': iam_allowed_principal, 'Permissions': ['ALL']}]] *)
Definition all_to_iam_allowed : value :=
  VList [VDict [("Principal", iam_allowed_principal);
                ("Permissions", VList [VStr "ALL"])]].

(** *** 1. Data lake settings *)

Definition modify_data_lake_settings : M unit :=
  print [Lit "1. Modifying Data Lake Settings to use IAM Controls only..."] ;;
  res <- invoke GetDataLakeSettings ;;
  data_lake_setting <- eval (subscript res "DataLakeSettings") ;;
  data_lake_setting <-
    eval (setitem data_lake_setting "CreateDatabaseDefaultPermissions"
                  all_to_iam_allowed) ;;
  data_lake_setting <-
    eval (setitem data_lake_setting "CreateTableDefaultPermissions"
                  all_to_iam_allowed) ;;
  invoke (PutDataLakeSettings data_lake_setting) ;;
  ret tt.

(** *** Listings that follow [NextToken] by hand

    <<
    res = op()
    items = res[key]
    while 'NextToken' in res:
        res = op(NextToken=res['NextToken'])
        items.extend(res[key])
    >>
    The script has this loop twice, for [list_resources] and for
    [list_permissions].  [items] is whatever the first answer holds under
    [key]; [extend] exists on lists only, and its argument may be anything
    iterable.  [fuel] bounds the number of further pages. *)

Definition extend_list (l : list value) (more : outcome value)
    : outcome (list value) :=
  match more with
  | Ret v =>
      match py_iter v with
      | Ret l' => Ret (l ++ l')
      | Exc e => Exc e
      | NoFuel => NoFuel
      end
  | Exc e => Exc e
  | NoFuel => NoFuel
  end.

Definition extend (items : value) (more : outcome value) : outcome value :=
  match items with
  | VList l =>
      match extend_list l more with
      | Ret l' => Ret (VList l')
      | Exc e => Exc e
      | NoFuel => NoFuel
      end
  | _ => Exc AttributeError
  end.

Fixpoint follow_tokens (fuel : nat) (op : option value -> call) (key : string)
    (res items : value) : M value :=
  more <- eval (py_contains "NextToken" res) ;;
  if more : bool then
    match fuel with
    | O => out_of_fuel
    | S fuel' =>
        token <- eval (subscript res "NextToken") ;;
        res <- invoke (op (Some token)) ;;
        items <- eval (extend items (subscript res key)) ;;
        follow_tokens fuel' op key res items
    end
  else ret items.

Definition list_all (fuel : nat) (op : option value -> call) (key : string)
    : M value :=
  res <- invoke (op None) ;;
  items <- eval (subscript res key) ;;
  follow_tokens fuel op key res items.

(** *** Listings through a boto3 paginator

    <<
    items = []
    for page in paginator.paginate():
        items.extend(page[key])
    >>
    The paginator is botocore's [PageIterator]: it issues the operation and
    yields the page; then it reads the page's [NextToken], taking a token
    that is false in Python (none, empty, zero) for no token, and stops
    when there is none; it raises [PaginationError] when the token is the
    one the request was made with; otherwise it issues the operation again
    with that token.  The script extends its list with each page as it is
    yielded, so before the paginator looks at the token. *)

Definition next_token (page : value) : option value :=
  match page with
  | VDict d =>
      match dict_get d "NextToken" with
      | Some token => if truthy token then Some token else None
      | None => None
      end
  | _ => None
  end.

(** [previous_next_token is not None and previous_next_token == next_token] *)
Definition repeated (previous : option value) (token : value) : bool :=
  match previous with
  | Some p => py_eq p token
  | None => false
  end.

Fixpoint paginate_more (fuel : nat) (op : option value -> call) (key : string)
    (previous : option value) (page : value) (items : list value)
    : M (list value) :=
  match next_token page with
  | None => ret items
  | Some token =>
      if repeated previous token then raise PaginationError
      else
        match fuel with
        | O => out_of_fuel
        | S fuel' =>
            page <- invoke (op (Some token)) ;;
            items <- eval (extend_list items (subscript page key)) ;;
            paginate_more fuel' op key (Some token) page items
        end
  end.

Definition paginate_all (fuel : nat) (op : option value -> call) (key : string)
    : M (list value) :=
  page <- invoke (op None) ;;
  items <- eval (extend_list [] (subscript page key)) ;;
  paginate_more fuel op key None page items.

(** *** 2. Data lake locations *)

Definition deregister (r : value) : M unit :=
  arn <- eval (subscript r "ResourceArn") ;;
  print [Lit "... Deregistering "; Fmt arn; Lit " ..."] ;;
  invoke (DeregisterResource arn) ;;
  ret tt.

Definition deregister_locations (fuel : nat) : M unit :=
  print [Lit "2. De-registering all the data lake locations..."] ;;
  resources <- list_all fuel ListResources "ResourceInfoList" ;;
  resources <- eval (py_iter resources) ;;
  for_each resources deregister.

(** *** 3. The catalog *)

Definition catalog_resource : value := VDict [("Catalog", VDict [])].

Definition grant_catalog : M unit :=
  print [Lit "3. Granting CREATE_DATABASE to IAM_ALLOWED_PRINCIPALS for catalog..."] ;;
  invoke (GrantPermissions iam_allowed_principal catalog_resource
            (VList [VStr "CREATE_DATABASE"]) (VList [])) ;;
  ret tt.

(** *** 4. Databases and tables *)

Definition database_resource (name : value) : value :=
  VDict [("Database", VDict [("Name", name)])].

Definition table_resource (database_name name : value) : value :=
  VDict [("Table", VDict [("DatabaseName", database_name); ("Name", name)])].

(** The [DatabaseInput] of 4.2, for a database [d] (a dictionary) named
    [name]. *)
Definition database_input (d : dict) (name : value) : value :=
  let location_uri := dict_get_default d "LocationUri" VNone in
  if negb (py_eq location_uri VNone) && negb (py_eq location_uri (VStr ""))
  then VDict [("Name", name);
              ("Description", dict_get_default d "Description" (VStr ""));
              ("LocationUri", location_uri);
              ("Parameters", dict_get_default d "Parameters" (VDict []));
              ("CreateTableDefaultPermissions", all_to_iam_allowed)]
  else VDict [("Name", name);
              ("Description", dict_get_default d "Description" (VStr ""));
              ("Parameters", dict_get_default d "Parameters" (VDict []));
              ("CreateTableDefaultPermissions", all_to_iam_allowed)].

Definition grant_table (database_name t : value) : M unit :=
  print [Lit "... Granting permissions on table "; Fmt database_name; Lit " ..."] ;;
  link <- eval (py_contains "TargetTable" t) ;;
  if link : bool then
    print [Lit "Table "; Fmt database_name;
           Lit " is skipped since it is a resource link."]
  else
    name <- eval (subscript t "Name") ;;
    invoke (GrantPermissions iam_allowed_principal
              (table_resource database_name name)
              (VList [VStr "ALL"]) (VList [])) ;;
    ret tt.

Definition grant_database (fuel : nat) (d : value) : M unit :=
  name <- eval (subscript d "Name") ;;
  print [Lit "... Granting permissions on database "; Fmt name; Lit " ..."] ;;
  link <- eval (py_contains "TargetDatabase" d) ;;
  if link : bool then
    print [Lit "Database "; Fmt name;
           Lit " is skipped since it is a resource link."]
  else
    invoke (GrantPermissions iam_allowed_principal (database_resource name)
              (VList [VStr "ALL"]) (VList [])) ;;
    input_ <- eval (match d with
                    | VDict entries => Ret (database_input entries name)
                    | _ => Exc AttributeError
                    end) ;;
    invoke (UpdateDatabase name input_) ;;
    tables <- paginate_all fuel (GetTables name) "TableList" ;;
    for_each tables (grant_table name).

Definition grant_databases (fuel : nat) : M unit :=
  print [Lit "4. Granting ALL to IAM_ALLOWED_PRINCIPALS for existing databases and tables..."] ;;
  databases <- paginate_all fuel GetDatabases "DatabaseList" ;;
  for_each databases (grant_database fuel).

(** *** 5. Revoking *)

Definition revoking_line (identifier resource : value) : list fragment :=
  [Lit "... Revoking permissions of "; Fmt identifier;
   Lit " on resource "; Fmt resource; Lit " ..."].

Definition skipped_line (resource account_id : value) : list fragment :=
  [Lit "The resource '"; Fmt resource;
   Lit "' is skipped since it is not owned by the account ";
   Fmt account_id; Lit "."].

Definition revoke (account_id p : value) : M unit :=
  principal <- eval (subscript p "Principal") ;;
  identifier <- eval (subscript principal "DataLakePrincipalIdentifier") ;;
  if negb (py_eq identifier (VStr "IAM_ALLOWED_PRINCIPALS")) then
    resource <- eval (subscript p "Resource") ;;
    print (revoking_line identifier resource) ;;
    catalog_id <- eval (get_catalog_id resource) ;;
    if negb (py_eq catalog_id account_id) then
      print (skipped_line resource account_id)
    else
      try_except
        (permissions <- eval (subscript p "Permissions") ;;
         with_grant <- eval (subscript p "PermissionsWithGrantOption") ;;
         invoke (RevokePermissions principal resource permissions with_grant) ;;
         ret tt)
        (fun e => print [FmtExn e])
  else ret tt.

Definition revoke_permissions (fuel : nat) (account_id : value) : M unit :=
  print [Lit "5. Revoking all the permissions except IAM_ALLOWED_PRINCIPALS..."] ;;
  permissions <- list_all fuel ListPermissions "PrincipalResourcePermissions" ;;
  permissions <- eval (py_iter permissions) ;;
  for_each permissions (revoke account_id).

(** *** The whole script *)

Definition main (fuel : nat) (args : arguments) : M unit :=
  account_id <- configure args ;;
  prompt confirmation ;;
  invoke (Client "glue") ;;
  invoke (Client "lakeformation") ;;
  modify_data_lake_settings ;;
  deregister_locations fuel ;;
  grant_catalog ;;
  grant_databases fuel ;;
  revoke_permissions fuel account_id ;;
  print [Lit "Completed!"].

End Script.

Arguments ret {World A} a.
Arguments raise {World A} e.
Arguments eval {World A} o.
Arguments out_of_fuel {World A}.
Arguments print {World} line.
Arguments input {World} message.
Arguments prompt {World} recursion_limit message.
Arguments prompt_rec {World} depth message.

(** ** An in-memory account

    A small executable stand-in for the three services, used to run the
    script on concrete accounts.  Listings are cut into pages of [page_size]
    records, the token being the offset of the next page; revoking from one
    of the [refused] principals fails, as a revoke does when the service
    rejects the request. *)

Module Lake.

Record lake : Type := {
  identity : value;
  settings : value;
  locations : list value;
  databases : list value;
  tables : list (string * list value);
  grants : list value;
  page_size : nat;
  refused : list value
}.

Definition error (code : string) : response := Err (VStr code).

Definition done : response := Ok (VDict []).

Definition offset_of (token : option value) : option nat :=
  match token with
  | None => Some O
  | Some (VInt z) => Some (Z.to_nat z)
  | Some _ => None
  end.

(** One page of [records] under [key], with a token when records remain. *)
Definition page (size : nat) (key : string) (records : list value)
    (token : option value) : response :=
  match offset_of token with
  | None => error "InvalidInputException"
  | Some offset =>
      let items := firstn size (skipn offset records) in
      if Nat.ltb (offset + size) (length records)
      then Ok (VDict [(key, VList items);
                      ("NextToken", VInt (Z.of_nat (offset + size)))])
      else Ok (VDict [(key, VList items)])
  end.

Definition field_is (k : string) (x : value) (record : value) : bool :=
  match subscript record k with
  | Ret y => py_eq y x
  | _ => false
  end.

Definition tables_of (l : lake) (database_name : value) : option (list value) :=
  match database_name with
  | VStr n =>
      match find (fun entry => String.eqb (fst entry) n) (tables l) with
      | Some entry => Some (snd entry)
      | None => None
      end
  | _ => None
  end.

Definition merge (d : value) (input : value) : value :=
  match d, input with
  | VDict entries, VDict changes =>
      VDict (fold_left (fun acc kv => dict_set acc (fst kv) (snd kv))
                       changes entries)
  | _, _ => d
  end.

Definition serve (c : call) (l : lake) : response * lake :=
  match c with
  | Session session_args =>
      (Ok (VDict [("profile_name",
                   match get_method session_args "profile_name" (VStr "default")
                   with Ret v => v | _ => VNone end);
                  ("region_name",
                   match get_method session_args "region_name" VNone
                   with Ret v => v | _ => VNone end)]), l)
  | Client _ => (Ok VNone, l)
  | GetCallerIdentity => (Ok (identity l), l)
  | GetDataLakeSettings => (Ok (VDict [("DataLakeSettings", settings l)]), l)
  | PutDataLakeSettings s =>
      (done, {| identity := identity l; settings := s;
                locations := locations l; databases := databases l;
                tables := tables l; grants := grants l;
                page_size := page_size l; refused := refused l |})
  | ListResources token =>
      (page (page_size l) "ResourceInfoList" (locations l) token, l)
  | DeregisterResource arn =>
      if existsb (field_is "ResourceArn" arn) (locations l)
      then (done, {| identity := identity l; settings := settings l;
                     locations :=
                       filter (fun r => negb (field_is "ResourceArn" arn r))
                              (locations l);
                     databases := databases l; tables := tables l;
                     grants := grants l; page_size := page_size l;
                     refused := refused l |})
      else (error "EntityNotFoundException", l)
  | GrantPermissions principal resource permissions with_grant =>
      (done, {| identity := identity l; settings := settings l;
                locations := locations l; databases := databases l;
                tables := tables l;
                grants := grants l ++
                  [VDict [("Principal", principal); ("Resource", resource);
                          ("Permissions", permissions);
                          ("PermissionsWithGrantOption", with_grant)]];
                page_size := page_size l; refused := refused l |})
  | GetDatabases token =>
      (page (page_size l) "DatabaseList" (databases l) token, l)
  | UpdateDatabase name input =>
      if existsb (field_is "Name" name) (databases l)
      then (done, {| identity := identity l; settings := settings l;
                     locations := locations l;
                     databases :=
                       map (fun d => if field_is "Name" name d
                                     then merge d input else d)
                           (databases l);
                     tables := tables l; grants := grants l;
                     page_size := page_size l; refused := refused l |})
      else (error "EntityNotFoundException", l)
  | GetTables database_name token =>
      match tables_of l database_name with
      | Some records => (page (page_size l) "TableList" records token, l)
      | None => (error "EntityNotFoundException", l)
      end
  | ListPermissions token =>
      (page (page_size l) "PrincipalResourcePermissions" (grants l) token, l)
  | RevokePermissions principal resource _ _ =>
      if existsb (py_eq principal) (refused l)
      then (error "AccessDeniedException", l)
      else (done, {| identity := identity l; settings := settings l;
                     locations := locations l; databases := databases l;
                     tables := tables l;
                     grants :=
                       filter (fun g => negb (field_is "Principal" principal g
                                              && field_is "Resource" resource g))
                              (grants l);
                     page_size := page_size l; refused := refused l |})
  end.

(** The nested calls of [prompt] the script is given when run on an
    account. *)
Definition frames : nat := 1000.

(** Running the script on an account, with the lines typed at the prompt. *)
Definition run (fuel : nat) (args : arguments) (l : lake) (typed : list string)
    : outcome unit * state lake * trace :=
  main serve frames fuel args {| world := l; stdin := typed |}.

End Lake.

(** ** Sample accounts *)

Module Sample.

Import Lake.

Definition account : string := "123456789012".

Definition principal (name : string) : value :=
  VDict [("DataLakePrincipalIdentifier", VStr name)].

Definition permission (who resource : value) : value :=
  VDict [("Principal", who); ("Resource", resource);
         ("Permissions", VList [VStr "SELECT"]);
         ("PermissionsWithGrantOption", VList [])].

Definition table_of (catalog database name : string) : value :=
  VDict [("Table", VDict [("CatalogId", VStr catalog);
                          ("DatabaseName", VStr database);
                          ("Name", VStr name)])].

Definition alice : value := principal "arn:aws:iam::123456789012:user/alice".
Definition bob : value := principal "arn:aws:iam::123456789012:user/bob".

Definition sales : value :=
  VDict [("Name", VStr "sales"); ("LocationUri", VStr "s3://lake/sales")].

Definition shared : value :=
  VDict [("Name", VStr "shared");
         ("TargetDatabase", VDict [("CatalogId", VStr "999999999999");
                                   ("DatabaseName", VStr "theirs")])].

Definition orders : value := VDict [("Name", VStr "orders")].

Definition orders_link : value :=
  VDict [("Name", VStr "orders_link");
         ("TargetTable", VDict [("CatalogId", VStr "999999999999");
                                ("DatabaseName", VStr "theirs");
                                ("Name", VStr "orders")])].

(** An account with three registered locations, a database and a database
    link, a table and a table link, and grants to alice (on an owned table),
    to bob (on a table of another account) and to the sentinel. *)
Definition acme : lake := {|
  identity := VDict [("UserId", VStr "AIDAEXAMPLE"); ("Account", VStr account)];
  settings := VDict [("DataLakeAdmins", VList [alice]);
                     ("CreateDatabaseDefaultPermissions", VList []);
                     ("CreateTableDefaultPermissions", VList [])];
  locations := [VDict [("ResourceArn", VStr "arn:aws:s3:::lake/sales")];
                VDict [("ResourceArn", VStr "arn:aws:s3:::lake/raw")];
                VDict [("ResourceArn", VStr "arn:aws:s3:::lake/tmp")]];
  databases := [sales; shared];
  tables := [("sales", [orders; orders_link])];
  grants := [permission alice (table_of account "sales" "orders");
             permission bob (table_of "999999999999" "theirs" "orders");
             permission iam_allowed_principal (table_of account "sales" "orders")];
  page_size := 2;
  refused := []
|}.

(** The same account, where the service refuses to revoke from alice. *)
Definition acme_refusing : lake := {|
  identity := identity acme; settings := settings acme;
  locations := locations acme; databases := databases acme;
  tables := tables acme; grants := grants acme;
  page_size := page_size acme;
  refused := [alice]
|}.

(** The same account, with a database whose tables the service cannot
    list. *)
Definition acme_stale : lake := {|
  identity := identity acme; settings := settings acme;
  locations := locations acme;
  databases := [VDict [("Name", VStr "ghost")]; sales];
  tables := tables acme; grants := grants acme;
  page_size := page_size acme;
  refused := []
|}.

(** The same account, served one record a page. *)
Definition acme_paged : lake := {|
  identity := identity acme; settings := settings acme;
  locations := locations acme; databases := databases acme;
  tables := tables acme; grants := grants acme;
  page_size := 1;
  refused := []
|}.


Definition no_arguments : arguments := {| profile := None; region := None |}.

End Sample.

(** ** The results of a run *)

Definition outcome_of {S A} (r : outcome A * S * trace) : outcome A := fst (fst r).
Definition state_of {S A} (r : outcome A * S * trace) : S := snd (fst r).
Definition trace_of {S A} (r : outcome A * S * trace) : trace := snd r.

(** A run completed: it returned, rather than raised or was cut off. *)
Definition completed {A} (o : outcome A) : bool :=
  match o with Ret _ => true | _ => false end.

(** What follows a run [r] on its trace [before]. *)
Definition after {S A} (before : trace) (r : outcome A * S * trace)
    : outcome A * S * trace :=
  (outcome_of r, state_of r, before ++ trace_of r).

Definition raised {A} (o : outcome A) : option exn :=
  match o with Exc e => Some e | _ => None end.

(** ** Reading a resource the way [get_catalog_id] does

    [finds d v]: walking the entries of [d] in order, and going down into the
    first entry that holds a dictionary, ends on an entry named [CatalogId]
    that holds [v].  Entries after a nested dictionary are never looked at. *)

Inductive finds : dict -> value -> Prop :=
| finds_here : forall v rest,
    is_dict v = false -> finds (("CatalogId", v) :: rest) v
| finds_below : forall key d rest v,
    finds d v -> finds ((key, VDict d) :: rest) v
| finds_after : forall key x rest v,
    is_dict x = false -> key <> "CatalogId" -> finds rest v ->
    finds ((key, x) :: rest) v.

(** [holds k v x]: the key [k] occurs with value [v] somewhere inside [x], at
    any depth and in any position. *)
Inductive holds (k : string) (v : value) : value -> Prop :=
| holds_entry : forall d, In (k, v) d -> holds k v (VDict d)
| holds_inside : forall d key x, In (key, x) d -> holds k v x -> holds k v (VDict d)
| holds_item : forall l x, In x l -> holds k v x -> holds k v (VList l).

(** The grants that remain are to the sentinel only, on every resource that
    holds the account id as a catalog id. *)
Definition sentinel_only (account_id : value) (remaining : list value) : Prop :=
  forall grant resource,
    In grant remaining ->
    subscript grant "Resource" = Ret resource ->
    holds "CatalogId" account_id resource ->
    subscript grant "Principal" = Ret iam_allowed_principal.

(** What a revoke request must satisfy to get past the ownership test: its
    resource is a dictionary in which the search of [get_catalog_id] ends on
    a catalog id equal to the account id. *)
Definition owned_request (account_id : value) (c : call) : Prop :=
  match c with
  | RevokePermissions _ resource _ _ =>
      exists d v, resource = VDict d /\ finds d v /\ py_eq v account_id = true
  | _ => True
  end.

(** ** Reading a trace *)

(** The operation behind a call, by its boto3 name. *)
Definition operation (c : call) : string :=
  match c with
  | Session _ => "Session"
  | Client _ => "client"
  | GetCallerIdentity => "get_caller_identity"
  | GetDataLakeSettings => "get_data_lake_settings"
  | PutDataLakeSettings _ => "put_data_lake_settings"
  | ListResources _ => "list_resources"
  | DeregisterResource _ => "deregister_resource"
  | GrantPermissions _ _ _ _ => "grant_permissions"
  | GetDatabases _ => "get_databases"
  | UpdateDatabase _ _ => "update_database"
  | GetTables _ _ => "get_tables"
  | ListPermissions _ => "list_permissions"
  | RevokePermissions _ _ _ _ => "revoke_permissions"
  end.

Definition only (operations : list string) (c : call) : Prop :=
  In (operation c) operations.

(** The event of a line typed at the prompt. *)
Definition asked (message : string) (answer : string) : event :=
  EInput message (Some answer).

(** The continuation token of a page, as the hand-written loops read it. *)
Definition token_in (page : value) : option value :=
  match page with
  | VDict d => dict_get d "NextToken"
  | _ => None
  end.

(** A value that stands for nothing: it equals [None], zero, or the empty
    string, list or dictionary. *)
Definition blank (v : value) : bool :=
  existsb (py_eq v) [VNone; VInt 0; VStr ""; VList []; VDict []].

(** The continuation token of a page, as a paginator reads it: a token that
    is there and is not blank. *)
Definition continuation (page : value) : option value :=
  match token_in page with
  | Some token => if blank token then None else Some token
  | None => None
  end.

(** [renewed token pages]: none of [pages], requested one after the other
    from [token] on, carries the token it was requested with. *)
Fixpoint renewed (token : option value) (pages : list value) : Prop :=
  match pages with
  | [] => True
  | page :: rest =>
      match token, continuation page with
      | Some asked_with, Some carried => py_eq asked_with carried = false
      | _, _ => True
      end /\ renewed (continuation page) rest
  end.

(** The records a page holds under [key]. *)
Definition records (key : string) (page : value) : list value :=
  match subscript page key with
  | Ret v => match py_iter v with Ret l => l | _ => [] end
  | _ => []
  end.

Definition holds_list (key : string) (page : value) : Prop :=
  exists l, subscript page key = Ret (VList l).

(** The calls of a listing that received [pages], each request carrying the
    token of the page before. *)
Fixpoint listing (op : option value -> call) (more : value -> option value)
    (token : option value) (pages : list value) : trace :=
  match pages with
  | [] => []
  | page :: rest => ECall (op token) (Ok page) :: listing op more (more page) rest
  end.

(** The answers received to the calls of one operation. *)
Fixpoint answers_to (name : string) (tr : trace) : list value :=
  match tr with
  | [] => []
  | ECall c (Ok v) :: rest =>
      if String.eqb (operation c) name
      then v :: answers_to name rest
      else answers_to name rest
  | _ :: rest => answers_to name rest
  end.

(** The records listed by the calls of one operation, page after page. *)
Definition listed (name key : string) (tr : trace) : list value :=
  concat (map (records key) (answers_to name tr)).

(** The calls made to one operation. *)
Definition requests (name : string) (tr : trace) : list call :=
  filter (fun c => String.eqb (operation c) name) (calls tr).

(** The calls that failed. *)
Fixpoint failed (tr : trace) : list call :=
  match tr with
  | [] => []
  | ECall c (Err _) :: rest => c :: failed rest
  | _ :: rest => failed rest
  end.

(** [stops_at_failure e tr]: a call of [tr] that failed is either a revoke
    call or the last event of [tr], and then [e] is its error. *)
Fixpoint stops_at_failure (e : option exn) (tr : trace) : Prop :=
  match tr with
  | [] => True
  | ECall c (Err info) :: rest =>
      if is_revoke c then stops_at_failure e rest
      else rest = [] /\ e = Some (RemoteError info)
  | _ :: rest => stops_at_failure e rest
  end.

(** [lists tr op key x]: in [tr], some page answering the listing [op] holds
    the record [x] under [key]. *)
Definition lists (tr : trace) (op : option value -> call) (key : string)
    (x : value) : Prop :=
  exists token page, In (ECall (op token) (Ok page)) tr /\ In x (records key page).

Definition asks (op : option value -> call) (c : call) : Prop :=
  exists token, c = op token.

(** The plain (non-link) table [t] of database [name] is what a grant on
    [resource] is for. *)
Definition for_table (tr : trace) (name resource : value) : Prop :=
  exists t table_name,
    lists tr (GetTables name) "TableList" t /\
    py_contains "TargetTable" t = Ret false /\
    subscript t "Name" = Ret table_name /\
    resource = table_resource name table_name.

(** The plain (non-link) database [d], or one of its plain tables, is what a
    grant on [resource] is for. *)
Definition for_database (tr : trace) (d resource : value) : Prop :=
  exists name,
    subscript d "Name" = Ret name /\
    py_contains "TargetDatabase" d = Ret false /\
    (resource = database_resource name \/ for_table tr name resource).

(** Every grant of [tr] that [justified tr] accepts is on the catalog, on a
    listed database that is no resource link, or on a listed table that is no
    resource link, in such a database. *)
Definition justified (tr : trace) (c : call) : Prop :=
  match c with
  | GrantPermissions _ resource _ _ =>
      resource = catalog_resource \/
      exists d, lists tr GetDatabases "DatabaseList" d /\ for_database tr d resource
  | _ => True
  end.

(** What [grant_table] grants: the table [t] of [name], when [t] is no
    resource link. *)
Definition table_grant (name t : value) (c : call) : Prop :=
  match c with
  | GrantPermissions _ resource _ _ =>
      exists table_name,
        py_contains "TargetTable" t = Ret false /\
        subscript t "Name" = Ret table_name /\
        resource = table_resource name table_name
  | _ => True
  end.

(** ** Properties of computations *)

Section Vocabulary.

Variable World : Type.
Variable remote : call -> World -> response * World.
Variable recursion_limit : nat.

(** [m] only makes calls that satisfy [P]. *)
Definition emits {A} (P : call -> Prop) (m : M World A) : Prop :=
  forall s, Forall P (calls (trace_of (m s))).

(** Nothing but [input] consumes the terminal. *)
Definition keeps_stdin {A} (m : M World A) : Prop :=
  forall s, stdin (state_of (m s)) = stdin s.

(** Every run of [m] is in the relation [R] with the state it starts from. *)
Definition sat
    (R : forall A, state World -> outcome A * state World * trace -> Prop)
    {A} (m : M World A) : Prop :=
  forall s, R A s (m s).

(** In every run of [m], a failed call other than a revoke call ends the run
    with its error. *)
Definition propagating (A : Type) (s : state World)
    (r : outcome A * state World * trace) : Prop :=
  stops_at_failure (raised (outcome_of r)) (trace_of r).

(** Every grant [m] makes is justified by what [m] has listed. *)
Definition well_granted {A} (m : M World A) : Prop :=
  forall s, Forall (justified (trace_of (m s))) (calls (trace_of (m s))).

(** [serves op more w token pages w']: asked for the listing [op] from
    [token] on, the environment in state [w] answers with [pages], the last of
    which carries no token, and ends in state [w']. *)
Inductive serves (op : option value -> call) (more : value -> option value)
    : World -> option value -> list value -> World -> Prop :=
| serves_last : forall w token page w',
    remote (op token) w = (Ok page, w') ->
    more page = None ->
    serves op more w token [page] w'
| serves_more : forall w token page w1 next pages w',
    remote (op token) w = (Ok page, w1) ->
    more page = Some next ->
    serves op more w1 (Some next) pages w' ->
    serves op more w token (page :: pages) w'.

(** The phases of a completed run, each starting where the one before
    ended. *)
Inductive phases (fuel : nat) (args : arguments) (s s' : state World)
    (tr : trace) : Prop :=
| phases_intro :
    forall account_id configured t_configure confirmed t_prompt
           connected glue lake settled t_settings deregistered t_locations
           catalogued t_catalog granted t_databases t_revoke,
    configure remote args s = (Ret account_id, configured, t_configure) ->
    prompt recursion_limit confirmation configured = (Ret tt, confirmed, t_prompt) ->
    modify_data_lake_settings remote connected = (Ret tt, settled, t_settings) ->
    deregister_locations remote fuel settled = (Ret tt, deregistered, t_locations) ->
    grant_catalog remote deregistered = (Ret tt, catalogued, t_catalog) ->
    grant_databases remote fuel catalogued = (Ret tt, granted, t_databases) ->
    revoke_permissions remote fuel account_id granted = (Ret tt, s', t_revoke) ->
    tr = t_configure ++ t_prompt
         ++ [ECall (Client "glue") (Ok glue);
             ECall (Client "lakeformation") (Ok lake)]
         ++ t_settings ++ t_locations ++ t_catalog ++ t_databases ++ t_revoke
         ++ [EPrint [Lit "Completed!"]] ->
    phases fuel args s s' tr.

End Vocabulary.

Arguments propagating : clear implicits.

(** ** Further vocabulary *)

(** The step of the script a call belongs to: 0 the session and the
    identity, 1 the data lake settings, 2 the storage locations, 3 the grant
    on the catalog, 4 the databases and tables, 5 the permissions. *)
Definition phase_of (c : call) : nat :=
  match c with
  | Session _ | Client _ | GetCallerIdentity => 0
  | GetDataLakeSettings | PutDataLakeSettings _ => 1
  | ListResources _ | DeregisterResource _ => 2
  | GrantPermissions _ resource _ _ =>
      if py_eq resource catalog_resource then 3 else 4
  | GetDatabases _ | UpdateDatabase _ _ | GetTables _ _ => 4
  | ListPermissions _ | RevokePermissions _ _ _ _ => 5
  end.

(** The calls [l] are in step order, all within steps [lo] to [hi]. *)
Definition in_phases (lo hi : nat) (l : list call) : Prop :=
  StronglySorted le (map phase_of l) /\
  Forall (fun c => lo <= phase_of c <= hi) l.

Definition ordered {World A} (lo hi : nat) (m : M World A) : Prop :=
  forall s, in_phases lo hi (calls (trace_of (m s))).

(** A grant as steps 4.1 and 4.3 make it: ALL to the sentinel, without grant
    option, on a database or on a table. *)
Definition data_grant (c : call) : Prop :=
  match c with
  | GrantPermissions principal resource permissions with_grant =>
      principal = iam_allowed_principal /\
      permissions = VList [VStr "ALL"] /\
      with_grant = VList [] /\
      ((exists name, resource = database_resource name) \/
       (exists database_name name, resource = table_resource database_name name))
  | _ => True
  end.

(** A grant as the script makes it: to the sentinel, without grant option;
    CREATE_DATABASE on the catalog, ALL on a database or a table. *)
Definition sentinel_grant (c : call) : Prop :=
  match c with
  | GrantPermissions principal resource permissions with_grant =>
      principal = iam_allowed_principal /\
      with_grant = VList [] /\
      ((resource = catalog_resource /\
        permissions = VList [VStr "CREATE_DATABASE"]) \/
       (permissions = VList [VStr "ALL"] /\
        ((exists name, resource = database_resource name) \/
         (exists database_name name,
            resource = table_resource database_name name))))
  | _ => True
  end.

(** An [update_database] request as step 4.2 makes it: the input is named as
    the database it updates, sets the default table permissions to the
    sentinel grant, and has no key beyond the five of [database_input]. *)
Definition faithful_update (c : call) : Prop :=
  match c with
  | UpdateDatabase name input =>
      exists entries,
        input = VDict entries /\
        dict_get entries "Name" = Some name /\
        dict_get entries "CreateTableDefaultPermissions" = Some all_to_iam_allowed /\
        incl (keys entries)
             ["Name"; "Description"; "LocationUri"; "Parameters";
              "CreateTableDefaultPermissions"]
  | _ => True
  end.

(** A revoke request made of the fields of the permission record [p], whose
    principal is not the sentinel. *)
Definition of_record (p : value) (c : call) : Prop :=
  match c with
  | RevokePermissions principal resource permissions with_grant =>
      exists identifier,
        subscript p "Principal" = Ret principal /\
        subscript principal "DataLakePrincipalIdentifier" = Ret identifier /\
        identifier <> VStr "IAM_ALLOWED_PRINCIPALS" /\
        subscript p "Resource" = Ret resource /\
        subscript p "Permissions" = Ret permissions /\
        subscript p "PermissionsWithGrantOption" = Ret with_grant
  | _ => True
  end.

(** A revoke request made of the fields of a permission record that [tr]
    has listed. *)
Definition from_listing (tr : trace) (c : call) : Prop :=
  match c with
  | RevokePermissions _ _ _ _ =>
      exists p,
        lists tr ListPermissions "PrincipalResourcePermissions" p /\ of_record p c
  | _ => True
  end.

(** Every revoke of [tr] is made of a record that was listed before it:
    wherever the trace is cut at a call, the events before the cut hold the
    listing. *)
Definition listed_first (tr : trace) : Prop :=
  forall before c answer behind,
    tr = before ++ ECall c answer :: behind -> from_listing before c.

(** Every revoke [m] requests comes from a record [m] has listed before. *)
Definition revokes_listed {World A} (m : M World A) : Prop :=
  forall s, listed_first (trace_of (m s)).


(** The induction that follows the recursion of [get_catalog_id]: into the
    first nested dictionary, or past an entry that holds none. *)
Section ScanInduction.

Variable P : dict -> Prop.
Hypothesis P_nil : P [].
Hypothesis P_below : forall key d rest, P d -> P ((key, VDict d) :: rest).
Hypothesis P_after : forall key x rest,
  is_dict x = false -> P rest -> P ((key, x) :: rest).

Fixpoint scan_ind_value (v : value) : match v with VDict d => P d | _ => True end :=
  match v as v0 return (match v0 with VDict d => P d | _ => True end) with
  | VDict d =>
      (fix go (items : dict) : P items :=
         match items with
         | [] => P_nil
         | (key, x) :: rest =>
             match x as x0
               return (match x0 with VDict d0 => P d0 | _ => True end ->
                       (is_dict x0 = false -> P ((key, x0) :: rest)) ->
                       P ((key, x0) :: rest))
             with
             | VDict d0 => fun below _ => @P_below key d0 rest below
             | _ => fun _ after => after eq_refl
             end (scan_ind_value x) (fun plain => @P_after key x rest plain (go rest))
         end) d
  | _ => I
  end.

Definition scan_ind (d : dict) : P d := scan_ind_value (VDict d).

End ScanInduction.

(** * Properties *)

Section Properties.

Variable World : Type.
Variable remote : call -> World -> response * World.
Variable recursion_limit : nat.

Let M := M World.
Let state := state World.

(** ** The monad *)

Lemma bind_Ret {A B} (m : M A) (f : A -> M B) s a s1 t1 :
  m s = (Ret a, s1, t1) ->
  bind m f s = (outcome_of (f a s1), state_of (f a s1), t1 ++ trace_of (f a s1)).
Proof.
  intros E. unfold bind. rewrite E.
  destruct (f a s1) as [[o s2] t2]. reflexivity.
Qed.

Lemma bind_Exc {A B} (m : M A) (f : A -> M B) s e s1 t1 :
  m s = (Exc e, s1, t1) -> bind m f s = (Exc e, s1, t1).
Proof. intros E. unfold bind. now rewrite E. Qed.

Lemma bind_NoFuel {A B} (m : M A) (f : A -> M B) s s1 t1 :
  m s = (NoFuel, s1, t1) -> bind m f s = (NoFuel, s1, t1).
Proof. intros E. unfold bind. now rewrite E. Qed.

Lemma result_eta {S A} (r : outcome A * S * trace) :
  r = (outcome_of r, state_of r, trace_of r).
Proof. now destruct r as [[o s] t]. Qed.

(** A bind returned: so did both halves, one after the other. *)
Lemma bind_completed {A B} (m : M A) (f : A -> M B) s b s2 t :
  bind m f s = (Ret b, s2, t) ->
  exists a s1 t1 t2,
    m s = (Ret a, s1, t1) /\ f a s1 = (Ret b, s2, t2) /\ t = t1 ++ t2.
Proof.
  unfold bind. destruct (m s) as [[[a | e |] s1] t1]; try discriminate.
  destruct (f a s1) as [[o s2'] t2] eqn:F. intros E. inversion E; subst.
  now exists a, s1, t1, t2.
Qed.

Lemma calls_app (t1 t2 : trace) : calls (t1 ++ t2) = calls t1 ++ calls t2.
Proof.
  induction t1 as [| [line | message answer | c r] t1 IH]; simpl; auto.
  now rewrite IH.
Qed.

(** ** Values *)

Lemma py_eq_VStr (v : value) (s : string) :
  py_eq v (VStr s) = true <-> v = VStr s.
Proof.
  destruct v as [| b | z | s' | l | d]; simpl; split; intros E;
    try discriminate.
  - apply String.eqb_eq in E. now subst.
  - inversion E. apply String.eqb_refl.
Qed.

Lemma py_eq_VNone_l (v : value) : py_eq VNone v = true <-> v = VNone.
Proof. destruct v; simpl; split; intros E; congruence. Qed.

Lemma py_eq_VNone_r (v : value) : py_eq v VNone = true <-> v = VNone.
Proof.
  destruct v as [| b | z | s' | l | d]; simpl; split; intros E; congruence.
Qed.

(** ** [get_catalog_id] *)

Lemma get_catalog_id_below key d rest :
  get_catalog_id_dict (VDict ((key, VDict d) :: rest)) =
  get_catalog_id_dict (VDict d).
Proof. reflexivity. Qed.

Lemma get_catalog_id_after key x rest :
  is_dict x = false ->
  get_catalog_id_dict (VDict ((key, x) :: rest)) =
  if String.eqb "CatalogId" key then x else get_catalog_id_dict (VDict rest).
Proof. destruct x; simpl; intros E; try reflexivity; discriminate. Qed.

Lemma finds_get_catalog_id d v :
  finds d v -> get_catalog_id_dict (VDict d) = v.
Proof.
  induction 1 as [v rest plain | key d rest v F IH | key x rest v plain other F IH].
  - now rewrite get_catalog_id_after.
  - now rewrite get_catalog_id_below.
  - rewrite get_catalog_id_after by assumption.
    destruct (String.eqb_spec "CatalogId" key) as [E | _]; [congruence | exact IH].
Qed.

Lemma get_catalog_id_finds d :
  get_catalog_id_dict (VDict d) <> VNone -> finds d (get_catalog_id_dict (VDict d)).
Proof.
  pattern d. apply scan_ind; clear d.
  - simpl. congruence.
  - intros key d rest IH.
    rewrite get_catalog_id_below. intros N. apply finds_below. auto.
  - intros key x rest plain IH.
    rewrite get_catalog_id_after by assumption.
    destruct (String.eqb_spec "CatalogId" key) as [E | N].
    + subst key. intros _. now apply finds_here.
    + intros F. apply finds_after; auto.
Qed.

Lemma finds_holds d v : finds d v -> holds "CatalogId" v (VDict d).
Proof.
  induction 1 as [v rest plain | key d rest v F IH | key x rest v plain other F IH].
  - apply holds_entry. now left.
  - apply holds_inside with (key := key) (x := VDict d); [now left | exact IH].
  - inversion IH as [d' I | d' key' x' I H |]; subst.
    + apply holds_entry. now right.
    + apply holds_inside with (key := key') (x := x'); [now right | exact H].
Qed.

(** ** Which calls a computation can make *)

Lemma emits_ret {A} P (a : A) : emits P (ret a : M A).
Proof. intros s. constructor. Qed.

Lemma emits_raise {A} P e : emits P (@raise World A e).
Proof. intros s. constructor. Qed.

Lemma emits_out_of_fuel {A} P : emits P (@out_of_fuel World A).
Proof. intros s. constructor. Qed.

Lemma emits_eval {A} P (o : outcome A) : emits P (eval o : M A).
Proof. intros s. constructor. Qed.

Lemma emits_print P line : emits P (print line : M unit).
Proof. intros s. constructor. Qed.

Lemma emits_input P message : emits P (input message : M string).
Proof. intros s. unfold input. destruct (stdin s); constructor. Qed.

Lemma emits_invoke (P : call -> Prop) c : P c -> emits P (invoke remote c).
Proof.
  intros H s. unfold invoke.
  destruct (remote c (world s)) as [[v | info] w]; simpl; auto.
Qed.

Lemma emits_bind {A B} P (m : M A) (f : A -> M B) :
  emits P m -> (forall a, emits P (f a)) -> emits P (bind m f).
Proof.
  intros Hm Hf s. unfold bind. specialize (Hm s).
  destruct (m s) as [[[a | e |] s1] t1]; simpl in *; auto.
  specialize (Hf a s1). destruct (f a s1) as [[o s2] t2]. simpl in *.
  rewrite calls_app. apply Forall_app. auto.
Qed.

Lemma emits_try_except P (m : M unit) handler :
  emits P m -> (forall e, emits P (handler e)) -> emits P (try_except m handler).
Proof.
  intros Hm Hh s. unfold try_except. specialize (Hm s).
  destruct (m s) as [[[a | e |] s1] t1]; simpl in *; auto.
  destruct (is_Exception e); simpl; auto.
  specialize (Hh e s1). destruct (handler e s1) as [[o s2] t2]. simpl in *.
  rewrite calls_app. apply Forall_app. auto.
Qed.

Lemma emits_for_each {A} P (l : list A) (body : A -> M unit) :
  (forall x, In x l -> emits P (body x)) -> emits P (for_each l body).
Proof.
  induction l as [| x l IH]; intros H; simpl.
  - apply emits_ret.
  - apply emits_bind; [apply H; now left |].
    intros _. apply IH. intros y I. apply H. now right.
Qed.

Lemma emits_prompt_rec P depth message :
  emits P (prompt_rec depth message : M unit).
Proof.
  induction depth as [| depth IH]; cbn [prompt_rec].
  - apply emits_raise.
  - apply emits_bind; [apply emits_input |]. intros answer.
    destruct (str_in (lower answer) ["n"; "no"]); [apply emits_raise |].
    destruct (negb (str_in (lower answer) ["y"; "yes"]));
      [apply IH | apply emits_ret].
Qed.

Lemma emits_prompt P message : emits P (prompt recursion_limit message : M unit).
Proof. intros s. unfold prompt. apply emits_prompt_rec. Qed.

Lemma emits_impl {A} (P Q : call -> Prop) (m : M A) :
  (forall c, P c -> Q c) -> emits P m -> emits Q m.
Proof. intros I H s. eapply Forall_impl; [exact I | apply H]. Qed.

Ltac emits_step :=
  first
    [ apply emits_ret | apply emits_raise | apply emits_out_of_fuel
    | apply emits_eval | apply emits_print | apply emits_input
    | apply emits_prompt
    | apply emits_invoke; simpl; tauto
    | apply emits_bind; [| intro] ].

Lemma configure_only args :
  emits (only ["Session"; "client"; "get_caller_identity"]) (configure remote args).
Proof.
  unfold configure, only.
  destruct (profile args), (region args); repeat emits_step.
Qed.

Lemma modify_data_lake_settings_only :
  emits (only ["get_data_lake_settings"; "put_data_lake_settings"])
        (modify_data_lake_settings remote).
Proof. unfold modify_data_lake_settings, only. repeat emits_step. Qed.

Lemma follow_tokens_only fuel (op : option value -> call) name key res items :
  (forall token, operation (op token) = name) ->
  emits (only [name]) (follow_tokens remote fuel op key res items).
Proof.
  intros Hop. revert res items.
  induction fuel as [| fuel IH]; intros res items; simpl.
  - apply emits_bind; [emits_step |]. intros [|]; emits_step.
  - apply emits_bind; [emits_step |]. intros [|]; [| emits_step].
    apply emits_bind; [emits_step |]. intros token.
    apply emits_bind; [apply emits_invoke; left; auto |]. intros res'.
    apply emits_bind; [emits_step |]. intros items'. apply IH.
Qed.

Lemma list_all_only fuel (op : option value -> call) name key :
  (forall token, operation (op token) = name) ->
  emits (only [name]) (list_all remote fuel op key).
Proof.
  intros Hop. unfold list_all.
  apply emits_bind; [apply emits_invoke; left; auto |]. intros res.
  apply emits_bind; [emits_step |]. intros items.
  now apply follow_tokens_only.
Qed.

Lemma paginate_more_only fuel (op : option value -> call) name key
    previous page items :
  (forall token, operation (op token) = name) ->
  emits (only [name]) (paginate_more remote fuel op key previous page items).
Proof.
  intros Hop. revert previous page items.
  induction fuel as [| fuel IH]; intros previous page items; simpl.
  - destruct (next_token page) as [token |]; [| emits_step].
    destruct (repeated previous token); emits_step.
  - destruct (next_token page) as [token |]; [| emits_step].
    destruct (repeated previous token); [emits_step |].
    apply emits_bind; [apply emits_invoke; left; auto |]. intros page'.
    apply emits_bind; [emits_step |]. intros items'. apply IH.
Qed.

Lemma paginate_all_only fuel (op : option value -> call) name key :
  (forall token, operation (op token) = name) ->
  emits (only [name]) (paginate_all remote fuel op key).
Proof.
  intros Hop. unfold paginate_all.
  apply emits_bind; [apply emits_invoke; left; auto |]. intros page.
  apply emits_bind; [emits_step |]. intros items.
  now apply paginate_more_only.
Qed.

Lemma only_incl (small large : list string) c :
  incl small large -> only small c -> only large c.
Proof. unfold only. auto. Qed.

Lemma deregister_locations_only fuel :
  emits (only ["list_resources"; "deregister_resource"])
        (deregister_locations remote fuel).
Proof.
  unfold deregister_locations.
  apply emits_bind; [emits_step |]. intros _.
  apply emits_bind.
  { eapply emits_impl; [| apply list_all_only with (name := "list_resources")];
      [| reflexivity].
    intros c. apply only_incl. intros x [<- | []]. now left. }
  intros resources. apply emits_bind; [emits_step |]. intros l.
  apply emits_for_each. intros r _. unfold deregister, only.
  repeat emits_step.
Qed.

Lemma grant_catalog_only :
  emits (only ["grant_permissions"]) (grant_catalog remote).
Proof. unfold grant_catalog, only. repeat emits_step. Qed.

Lemma grant_table_only database_name t :
  emits (only ["grant_permissions"]) (grant_table remote database_name t).
Proof.
  unfold grant_table, only. apply emits_bind; [emits_step |]. intros _.
  apply emits_bind; [emits_step |]. intros [|]; repeat emits_step.
Qed.

Lemma grant_database_only fuel d :
  emits (only ["grant_permissions"; "update_database"; "get_tables"])
        (grant_database remote fuel d).
Proof.
  unfold grant_database.
  apply emits_bind; [emits_step |]. intros name.
  apply emits_bind; [emits_step |]. intros _.
  apply emits_bind; [emits_step |]. intros [|]; [emits_step |].
  apply emits_bind; [apply emits_invoke; now left |]. intros _.
  apply emits_bind; [emits_step |]. intros input_.
  apply emits_bind; [apply emits_invoke; right; now left |]. intros _.
  apply emits_bind.
  { eapply emits_impl; [| apply paginate_all_only with (name := "get_tables")];
      [| reflexivity].
    intros c. apply only_incl. intros x [<- | []]. right. right. now left. }
  intros tables. apply emits_for_each. intros t _.
  eapply emits_impl; [| apply grant_table_only].
  intros c. apply only_incl. intros x [<- | []]. now left.
Qed.

Lemma grant_databases_only fuel :
  emits (only ["get_databases"; "grant_permissions"; "update_database"; "get_tables"])
        (grant_databases remote fuel).
Proof.
  unfold grant_databases.
  apply emits_bind; [emits_step |]. intros _.
  apply emits_bind.
  { eapply emits_impl; [| apply paginate_all_only with (name := "get_databases")];
      [| reflexivity].
    intros c. apply only_incl. intros x [<- | []]. now left. }
  intros databases. apply emits_for_each. intros d _.
  eapply emits_impl; [| apply grant_database_only].
  intros c. apply only_incl. intros x I. right. exact I.
Qed.

Lemma revoke_only account_id p :
  emits (only ["revoke_permissions"]) (revoke remote account_id p).
Proof.
  unfold revoke, only.
  apply emits_bind; [emits_step |]. intros principal.
  apply emits_bind; [emits_step |]. intros identifier.
  destruct (negb (py_eq identifier (VStr "IAM_ALLOWED_PRINCIPALS")));
    [| emits_step].
  apply emits_bind; [emits_step |]. intros resource.
  apply emits_bind; [emits_step |]. intros _.
  apply emits_bind; [emits_step |]. intros catalog_id.
  destruct (negb (py_eq catalog_id account_id)); [emits_step |].
  apply emits_try_except; [| intros e; emits_step].
  repeat emits_step.
Qed.

Lemma revoke_permissions_only fuel account_id :
  emits (only ["list_permissions"; "revoke_permissions"])
        (revoke_permissions remote fuel account_id).
Proof.
  unfold revoke_permissions.
  apply emits_bind; [emits_step |]. intros _.
  apply emits_bind.
  { eapply emits_impl; [| apply list_all_only with (name := "list_permissions")];
      [| reflexivity].
    intros c. apply only_incl. intros x [<- | []]. now left. }
  intros permissions. apply emits_bind; [emits_step |]. intros l.
  apply emits_for_each. intros p _.
  eapply emits_impl; [| apply revoke_only].
  intros c. apply only_incl. intros x [<- | []]. right. now left.
Qed.

(** A property of the calls of every phase is a property of the calls of the
    script; the revoke phase runs with the account id found at the start. *)
Lemma main_emits (P : call -> Prop) fuel args s :
  emits P (configure remote args) ->
  P (Client "glue") -> P (Client "lakeformation") ->
  emits P (modify_data_lake_settings remote) ->
  emits P (deregister_locations remote fuel) ->
  emits P (grant_catalog remote) ->
  emits P (grant_databases remote fuel) ->
  (forall account_id,
     outcome_of (configure remote args s) = Ret account_id ->
     emits P (revoke_permissions remote fuel account_id)) ->
  Forall P (calls (trace_of (main remote recursion_limit fuel args s))).
Proof.
  intros H0 Hg Hl H1 H2 H3 H4 H5. unfold main.
  specialize (H0 s). unfold bind at 1.
  destruct (configure remote args s) as [[[account_id | e |] s1] t1];
    simpl in *; auto.
  match goal with
  | |- context [bind (prompt ?n ?c) ?f s1] =>
      assert (R : emits P (bind (prompt n c) f));
        [| specialize (R s1); destruct (bind (prompt n c) f s1) as [[o s2] t2]]
  end.
  - apply emits_bind; [apply emits_prompt |]. intros _.
    apply emits_bind; [now apply emits_invoke |]. intros _.
    apply emits_bind; [now apply emits_invoke |]. intros _.
    apply emits_bind; [exact H1 |]. intros _.
    apply emits_bind; [exact H2 |]. intros _.
    apply emits_bind; [exact H3 |]. intros _.
    apply emits_bind; [exact H4 |]. intros _.
    apply emits_bind; [now apply H5 |]. intros _.
    apply emits_print.
  - simpl in *. rewrite calls_app. apply Forall_app. auto.
Qed.

(** A phase that only performs some operations satisfies what holds of all
    calls to these operations. *)
Lemma emits_only {A} (P : call -> Prop) operations (m : M A) :
  emits (only operations) m ->
  (forall c, In (operation c) operations -> P c) ->
  emits P m.
Proof. intros H I. eapply emits_impl; [| exact H]. exact I. Qed.

Lemma emits_bind_eval {A B} P (o : outcome A) (f : A -> M B) :
  (forall a, o = Ret a -> emits P (f a)) -> emits P (bind (eval o) f).
Proof.
  intros H s. unfold bind, eval. destruct o as [a | e |]; simpl; auto.
  specialize (H a eq_refl s). destruct (f a s) as [[o s2] t2]. exact H.
Qed.

(** ** The ownership test of the revoke phase *)

Lemma revoke_owned account_id p :
  account_id <> VNone ->
  emits (owned_request account_id) (revoke remote account_id p).
Proof.
  intros known. unfold revoke.
  apply emits_bind; [emits_step |]. intros principal.
  apply emits_bind; [emits_step |]. intros identifier.
  destruct (negb (py_eq identifier (VStr "IAM_ALLOWED_PRINCIPALS")));
    [| emits_step].
  apply emits_bind; [emits_step |]. intros resource.
  apply emits_bind; [emits_step |]. intros _.
  apply emits_bind_eval. intros catalog_id found.
  destruct (py_eq catalog_id account_id) eqn:same; simpl; [| emits_step].
  apply emits_try_except; [| intros e; emits_step].
  apply emits_bind; [emits_step |]. intros permissions.
  apply emits_bind; [emits_step |]. intros with_grant.
  apply emits_bind; [| intros _; emits_step].
  apply emits_invoke. simpl.
  destruct resource as [| b | z | s' | l | d]; try discriminate.
  assert (E : get_catalog_id_dict (VDict d) = catalog_id)
    by (unfold get_catalog_id in found; congruence).
  clear found. subst catalog_id. exists d, (get_catalog_id_dict (VDict d)).
  split; [reflexivity |]. split; [| exact same].
  apply get_catalog_id_finds.
  intros none. rewrite none in same. apply py_eq_VNone_l in same. contradiction.
Qed.

Lemma revoke_permissions_owned fuel account_id :
  account_id <> VNone ->
  emits (owned_request account_id) (revoke_permissions remote fuel account_id).
Proof.
  intros known. unfold revoke_permissions.
  apply emits_bind; [emits_step |]. intros _.
  apply emits_bind.
  { eapply emits_only;
      [apply list_all_only with (name := "list_permissions"); reflexivity |].
    intros [] I; simpl in *; intuition discriminate. }
  intros permissions. apply emits_bind; [emits_step |]. intros l.
  apply emits_for_each. intros p _. now apply revoke_owned.
Qed.

(** A request that passed the ownership test is on a resource that holds a
    catalog id equal to the account id. *)
Lemma owned_request_holds account_id principal resource permissions with_grant :
  owned_request account_id
    (RevokePermissions principal resource permissions with_grant) ->
  exists v, holds "CatalogId" v resource /\ py_eq v account_id = true.
Proof.
  intros (d & v & -> & found & same). exists v. split; [| exact same].
  now apply finds_holds.
Qed.

(** The search is a function: what it ends on is what [get_catalog_id]
    returns. *)
Lemma get_catalog_id_found d v :
  finds d v -> get_catalog_id (VDict d) = Ret v.
Proof. intros found. unfold get_catalog_id. now rewrite (finds_get_catalog_id found). Qed.

(** A run that does not get its account id stops there. *)
Lemma main_without_account fuel args s :
  completed (outcome_of (configure remote args s)) = false ->
  trace_of (main remote recursion_limit fuel args s) = trace_of (configure remote args s).
Proof.
  unfold main, bind at 1.
  destruct (configure remote args s) as [[[account_id | e |] s1] t1];
    simpl; intros E; try reflexivity; discriminate.
Qed.

(** C10. [get_catalog_id] returns [None] when its search through the record
    meets no [CatalogId] key; the revoke phase then skips the record, since
    [None] differs from the account id; so no [revoke_permissions] call of a
    run is made on a resource in which the search reaches no [CatalogId]. *)
Theorem unreachable_catalog_id_never_revoked :
  (forall d, (forall v, ~ finds d v) -> get_catalog_id (VDict d) = Ret VNone) /\
  (forall account_id p principal identifier d s,
     account_id <> VNone ->
     subscript p "Principal" = Ret principal ->
     subscript principal "DataLakePrincipalIdentifier" = Ret identifier ->
     identifier <> VStr "IAM_ALLOWED_PRINCIPALS" ->
     subscript p "Resource" = Ret (VDict d) ->
     (forall v, ~ finds d v) ->
     revoke remote account_id p s =
       (Ret tt, s, [EPrint (revoking_line identifier (VDict d));
                    EPrint (skipped_line (VDict d) account_id)])) /\
  (forall fuel args s principal resource permissions with_grant,
     outcome_of (configure remote args s) <> Ret VNone ->
     In (RevokePermissions principal resource permissions with_grant)
        (calls (trace_of (main remote recursion_limit fuel args s))) ->
     exists d v, resource = VDict d /\ finds d v).
Proof.
  assert (none : forall d, (forall v, ~ finds d v) ->
                           get_catalog_id_dict (VDict d) = VNone).
  { intros d unreachable.
    destruct (get_catalog_id_dict (VDict d)) eqn:E; try reflexivity;
      exfalso; apply (unreachable (get_catalog_id_dict (VDict d)));
      apply get_catalog_id_finds; rewrite E; discriminate. }
  split; [| split].
  - intros d unreachable. unfold get_catalog_id. now rewrite none.
  - intros account_id p principal identifier d s known Hp Hi other Hr unreachable.
    unfold revoke, bind, eval, print. rewrite Hp, Hi.
    destruct (py_eq identifier (VStr "IAM_ALLOWED_PRINCIPALS")) eqn:sentinel.
    { apply py_eq_VStr in sentinel. contradiction. }
    simpl. rewrite Hr. unfold get_catalog_id. rewrite (none d unreachable).
    destruct (py_eq VNone account_id) eqn:same.
    { apply py_eq_VNone_l in same. contradiction. }
    reflexivity.
  - intros fuel args s principal resource permissions with_grant known I.
    assert (F : Forall (fun c => forall account_id,
                          outcome_of (configure remote args s) = Ret account_id ->
                          owned_request account_id c)
                       (calls (trace_of (main remote recursion_limit fuel args s)))).
    { apply main_emits; [| now simpl | now simpl | | | | |].
      - eapply emits_only; [apply configure_only |].
        intros [] O; simpl in *; intuition discriminate.
      - eapply emits_only; [apply modify_data_lake_settings_only |].
        intros [] O; simpl in *; intuition discriminate.
      - eapply emits_only; [apply deregister_locations_only |].
        intros [] O; simpl in *; intuition discriminate.
      - eapply emits_only; [apply grant_catalog_only |].
        intros [] O; simpl in *; intuition discriminate.
      - eapply emits_only; [apply grant_databases_only |].
        intros [] O; simpl in *; intuition discriminate.
      - intros account_id E.
        eapply emits_impl; [| apply revoke_permissions_owned; congruence].
        intros c O account' E'. congruence. }
    rewrite Forall_forall in F. specialize (F _ I).
    destruct (outcome_of (configure remote args s)) as [account_id | e |] eqn:E.
    + destruct (F account_id eq_refl) as (d & v & -> & found & _).
      now exists d, v.
    + exfalso. rewrite main_without_account in I by now rewrite E.
      pose proof (configure_only args s) as C.
      rewrite Forall_forall in C. specialize (C _ I).
      unfold only in C. simpl in C. intuition discriminate.
    + exfalso. rewrite main_without_account in I by now rewrite E.
      pose proof (configure_only args s) as C.
      rewrite Forall_forall in C. specialize (C _ I).
      unfold only in C. simpl in C. intuition discriminate.
Qed.

(** C1. A resource that holds the caller's account id under [CatalogId], but
    behind an earlier nested dictionary, is not recognised as owned:
    [get_catalog_id] returns from the first nested dictionary it meets, and
    the permission on that resource is reported as not owned and skipped
    without any [revoke_permissions] call. *)
Theorem owned_resource_skipped :
  let account_id := VStr "123456789012" in
  let resource :=
    VDict [("TableWithColumns",
            VDict [("ColumnWildcard", VDict [("ExcludedColumnNames", VList [])]);
                   ("CatalogId", account_id);
                   ("DatabaseName", VStr "db1");
                   ("Name", VStr "t1")])] in
  let identifier := VStr "arn:aws:iam::123456789012:user/alice" in
  let p :=
    VDict [("Principal", VDict [("DataLakePrincipalIdentifier", identifier)]);
           ("Resource", resource);
           ("Permissions", VList [VStr "SELECT"]);
           ("PermissionsWithGrantOption", VList [])] in
  holds "CatalogId" account_id resource /\
  get_catalog_id resource = Ret VNone /\
  forall s,
    revoke remote account_id p s =
      (Ret tt, s, [EPrint (revoking_line identifier resource);
                   EPrint (skipped_line resource account_id)]).
Proof.
  intros account_id resource identifier p. split; [| split].
  - eapply holds_inside; [now left |]. apply holds_entry. right. now left.
  - reflexivity.
  - intros s. reflexivity.
Qed.

(** ** The confirmation prompt *)

Lemma str_in_In x l : str_in x l = true <-> In x l.
Proof.
  unfold str_in. rewrite existsb_exists. split.
  - intros (y & I & E). apply String.eqb_eq in E. now subst.
  - intros I. exists x. split; [exact I | apply String.eqb_refl].
Qed.

Lemma str_in_not_In x l : str_in x l = false <-> ~ In x l.
Proof.
  rewrite <- str_in_In. destruct (str_in x l); split; congruence.
Qed.

(** Answers that are neither a yes nor a no are asked over, one line each. *)
Lemma prompt_rec_others message others :
  Forall (fun a => ~ In (lower a) ["n"; "no"; "y"; "yes"]) others ->
  forall depth (w : World) rest,
    length others <= depth ->
    prompt_rec depth message {| world := w; stdin := others ++ rest |} =
    (outcome_of (prompt_rec (depth - length others) message
                   {| world := w; stdin := rest |} : outcome unit * state * trace),
     state_of (prompt_rec (depth - length others) message
                 {| world := w; stdin := rest |}),
     map (asked message) others ++
     trace_of (prompt_rec (depth - length others) message
                 {| world := w; stdin := rest |})).
Proof.
  induction 1 as [| a others other _ IH]; intros depth w rest bound.
  - simpl. rewrite Nat.sub_0_r. apply result_eta.
  - destruct depth as [| depth]; [simpl in bound; lia |].
    cbn [prompt_rec app length]. unfold bind at 1, input at 1. cbn [stdin world].
    assert (no : str_in (lower a) ["n"; "no"] = false).
    { apply str_in_not_In. intros I. apply other. simpl in *. tauto. }
    assert (yes : str_in (lower a) ["y"; "yes"] = false).
    { apply str_in_not_In. intros I. apply other. simpl in *. tauto. }
    rewrite no, yes. cbn [negb].
    rewrite IH by (simpl in bound; lia).
    replace (S depth - S (length others)) with (depth - length others) by lia.
    reflexivity.
Qed.

Lemma prompt_rec_answer message depth (w : World) answer rest :
  prompt_rec (S depth) message {| world := w; stdin := answer :: rest |} =
  if str_in (lower answer) ["n"; "no"]
  then (Exc (SystemExit 0), {| world := w; stdin := rest |}, [asked message answer])
  else if str_in (lower answer) ["y"; "yes"]
       then (Ret tt, {| world := w; stdin := rest |}, [asked message answer])
       else (outcome_of (prompt_rec depth message {| world := w; stdin := rest |}),
             state_of (prompt_rec depth message {| world := w; stdin := rest |}),
             asked message answer ::
             trace_of (prompt_rec depth message {| world := w; stdin := rest |})).
Proof.
  cbn [prompt_rec]. unfold bind at 1, input at 1. cbn [stdin world].
  destruct (str_in (lower answer) ["n"; "no"]); [reflexivity |].
  destruct (str_in (lower answer) ["y"; "yes"]); cbn [negb]; [reflexivity |].
  destruct (prompt_rec depth message _) as [[o s] t]. reflexivity.
Qed.

(** After fewer rejected answers than [prompt] may nest, the next answer
    decides; a rejected one leaves the nested calls that remain. *)
Lemma prompt_answers message others answer rest (w : World) :
  Forall (fun a => ~ In (lower a) ["n"; "no"; "y"; "yes"]) others ->
  length others < recursion_limit ->
  prompt recursion_limit message
         {| world := w; stdin := others ++ answer :: rest |} =
  if str_in (lower answer) ["n"; "no"]
  then (Exc (SystemExit 0), {| world := w; stdin := rest |},
        map (asked message) (others ++ [answer]))
  else if str_in (lower answer) ["y"; "yes"]
       then (Ret tt, {| world := w; stdin := rest |},
             map (asked message) (others ++ [answer]))
       else after (map (asked message) (others ++ [answer]))
                  (prompt (recursion_limit - S (length others)) message
                          {| world := w; stdin := rest |}).
Proof.
  intros other bound. unfold prompt.
  rewrite prompt_rec_others by (try assumption; lia).
  replace (recursion_limit - length others)
    with (S (recursion_limit - S (length others))) by lia.
  rewrite prompt_rec_answer. rewrite map_app. simpl map.
  destruct (str_in (lower answer) ["n"; "no"]); [reflexivity |].
  destruct (str_in (lower answer) ["y"; "yes"]); [reflexivity |].
  unfold after. cbn [outcome_of state_of trace_of fst snd].
  rewrite <- app_assoc. reflexivity.
Qed.

(** After as many rejected answers as [prompt] may nest, the next call
    raises, and reads nothing. *)
Lemma prompt_exhausted message others rest (w : World) :
  Forall (fun a => ~ In (lower a) ["n"; "no"; "y"; "yes"]) others ->
  length others = recursion_limit ->
  prompt recursion_limit message {| world := w; stdin := others ++ rest |} =
  (Exc RecursionError, {| world := w; stdin := rest |},
   map (asked message) others).
Proof.
  intros other bound. unfold prompt.
  rewrite prompt_rec_others by (try assumption; lia).
  replace (recursion_limit - length others) with 0 by lia.
  cbn [prompt_rec]. unfold raise.
  cbn [outcome_of state_of trace_of fst snd]. now rewrite app_nil_r.
Qed.

Lemma keeps_stdin_bind {A B} (m : M A) (f : A -> M B) :
  keeps_stdin m -> (forall a, keeps_stdin (f a)) -> keeps_stdin (bind m f).
Proof.
  intros Hm Hf s. unfold bind. specialize (Hm s). unfold state_of in *.
  destruct (m s) as [[[a | e |] s1] t1]; simpl in *; auto.
  specialize (Hf a s1). unfold state_of in *.
  destruct (f a s1) as [[o s2] t2]. simpl in *. congruence.
Qed.

Lemma keeps_stdin_invoke c : keeps_stdin (invoke remote c).
Proof.
  intros s. unfold invoke. now destruct (remote c (world s)) as [[v | info] w].
Qed.

Lemma configure_keeps_stdin args : keeps_stdin (configure remote args).
Proof.
  unfold configure.
  destruct (profile args), (region args);
    repeat first [ apply keeps_stdin_invoke
                 | apply keeps_stdin_bind; [| intro]
                 | intros ?; reflexivity ].
Qed.

(** C3, amended.  As long as fewer answers were rejected than the
    interpreter lets [prompt] nest ([recursion_limit]): answers that are
    neither a yes nor a no are each asked over; then an answer that lowers to
    "n" or "no" exits with status 0, an answer that lowers to "y" or "yes"
    lets the script go on, and any other answer leaves the prompt to go on
    with the lines that follow, one nested call fewer being allowed.  In the
    whole script, a declined confirmation exits with status 0 when only the
    session setup and the identity lookup have been called: no mutating call
    was made. *)
Theorem confirmation_prompt message others answer rest (w : World) :
  Forall (fun a => ~ In (lower a) ["n"; "no"; "y"; "yes"]) others ->
  length others < recursion_limit ->
  let typed := {| world := w; stdin := others ++ answer :: rest |} in
  let questions := map (asked message) (others ++ [answer]) in
  (In (lower answer) ["n"; "no"] ->
   prompt recursion_limit message typed =
     (Exc (SystemExit 0), {| world := w; stdin := rest |}, questions)) /\
  (In (lower answer) ["y"; "yes"] ->
   prompt recursion_limit message typed =
     (Ret tt, {| world := w; stdin := rest |}, questions)) /\
  (~ In (lower answer) ["n"; "no"; "y"; "yes"] ->
   prompt recursion_limit message typed =
     after questions
           (prompt (recursion_limit - S (length others)) message
                   {| world := w; stdin := rest |})) /\
  (In (lower answer) ["n"; "no"] ->
   forall fuel args account_id s1 t1,
     configure remote args typed = (Ret account_id, s1, t1) ->
     main remote recursion_limit fuel args typed =
       (Exc (SystemExit 0), {| world := world s1; stdin := rest |},
        t1 ++ map (asked confirmation) (others ++ [answer])) /\
     Forall (fun c => mutating c = false)
            (calls (t1 ++ map (asked confirmation) (others ++ [answer])))).
Proof.
  intros other bound typed questions.
  assert (no_yes : In (lower answer) ["y"; "yes"] ->
                   str_in (lower answer) ["n"; "no"] = false).
  { intros yes. apply str_in_not_In. intros no. simpl in yes, no.
    destruct yes as [Y | [Y | []]]; rewrite <- Y in no;
      destruct no as [E | [E | []]]; discriminate. }
  split; [| split; [| split]].
  - intros no. unfold typed. rewrite prompt_answers by assumption.
    apply str_in_In in no. now rewrite no.
  - intros yes. unfold typed. rewrite prompt_answers by assumption.
    rewrite (no_yes yes). apply str_in_In in yes. now rewrite yes.
  - intros neither. unfold typed. rewrite prompt_answers by assumption.
    assert (no : str_in (lower answer) ["n"; "no"] = false).
    { apply str_in_not_In. intros I. apply neither. simpl in *. tauto. }
    assert (yes : str_in (lower answer) ["y"; "yes"] = false).
    { apply str_in_not_In. intros I. apply neither. simpl in *. tauto. }
    now rewrite no, yes.
  - intros no fuel args account_id s1 t1 configured. split.
    + unfold main. rewrite (bind_Ret _ _ _ configured).
      pose proof (configure_keeps_stdin args typed) as kept.
      rewrite configured in kept. simpl in kept.
      destruct s1 as [w1 typed1]. simpl in kept. subst typed1.
      rewrite (@bind_Exc _ _ _ _ _ (SystemExit 0) {| world := w1; stdin := rest |}
                 (map (asked confirmation) (others ++ [answer]))).
      * reflexivity.
      * rewrite prompt_answers by assumption.
        apply str_in_In in no. now rewrite no.
    + rewrite calls_app. apply Forall_app. split.
      * pose proof (configure_only args typed) as C. rewrite configured in C.
        simpl in C. eapply Forall_impl; [| exact C].
        intros [] O; unfold only in O; simpl in *; intuition discriminate.
      * clear. induction (others ++ [answer]); simpl; auto.
Qed.

(** ** Running a computation step by step *)

Lemma bind_eval {A B} (o : outcome A) (f : A -> M B) s :
  bind (eval o) f s =
  match o with
  | Ret a => f a s
  | Exc e => (Exc e, s, [])
  | NoFuel => (NoFuel, s, [])
  end.
Proof.
  unfold bind, eval. destruct o as [a | e |]; try reflexivity.
  now destruct (f a s) as [[o s2] t2].
Qed.

Lemma bind_print {B} line (f : unit -> M B) s :
  bind (print line) f s =
  (outcome_of (f tt s), state_of (f tt s), EPrint line :: trace_of (f tt s)).
Proof. unfold bind, print. now destruct (f tt s) as [[o s2] t2]. Qed.

Lemma bind_invoke {B} c (f : value -> M B) s :
  bind (invoke remote c) f s =
  match remote c (world s) with
  | (Ok v, w) =>
      (outcome_of (f v {| world := w; stdin := stdin s |}),
       state_of (f v {| world := w; stdin := stdin s |}),
       ECall c (Ok v) :: trace_of (f v {| world := w; stdin := stdin s |}))
  | (Err info, w) =>
      (Exc (RemoteError info), {| world := w; stdin := stdin s |},
       [ECall c (Err info)])
  end.
Proof.
  unfold bind, invoke. destruct (remote c (world s)) as [[v | info] w];
    [| reflexivity].
  now destruct (f v _) as [[o s2] t2].
Qed.

(** ** The [DatabaseInput] of a database *)

Lemma database_input_entries d name :
  exists entries,
    database_input d name = VDict entries /\
    dict_get entries "Name" = Some name /\
    dict_get entries "Description" =
      Some (match dict_get d "Description" with Some v => v | None => VStr "" end) /\
    dict_get entries "Parameters" =
      Some (match dict_get d "Parameters" with Some v => v | None => VDict [] end) /\
    dict_get entries "CreateTableDefaultPermissions" = Some all_to_iam_allowed /\
    dict_get entries "LocationUri" =
      match dict_get d "LocationUri" with
      | Some VNone | Some (VStr "") | None => None
      | Some uri => Some uri
      end /\
    incl (keys entries)
         ["Name"; "Description"; "LocationUri"; "Parameters";
          "CreateTableDefaultPermissions"].
Proof.
  unfold database_input, dict_get_default.
  destruct (dict_get d "LocationUri") as [uri |] eqn:L.
  - destruct (py_eq uri VNone) eqn:N.
    + apply py_eq_VNone_r in N. subst uri. simpl. eexists. split; [reflexivity |].
      repeat split; intros k I; simpl in *; tauto.
    + destruct (py_eq uri (VStr "")) eqn:E.
      * apply py_eq_VStr in E. subst uri. simpl. eexists. split; [reflexivity |].
        repeat split; intros k I; simpl in *; tauto.
      * simpl. eexists. split; [reflexivity |].
        repeat split; try (intros k I; simpl in *; tauto).
        simpl. destruct uri as [| b | z | u | l | e]; try reflexivity.
        -- discriminate.
        -- destruct u; [discriminate | reflexivity].
  - simpl. eexists. split; [reflexivity |].
    repeat split; intros k I; simpl in *; tauto.
Qed.

(** C9. For a database that is no resource link, once the grant on it went
    through, the next call is [update_database] on its name with a
    [DatabaseInput] that carries the fetched [Name], the fetched [Description]
    (the empty string when absent), the fetched [Parameters] (the empty map
    when absent), the fetched [LocationUri] exactly when it is present and
    neither [None] nor empty, the sentinel grant of ALL as
    [CreateTableDefaultPermissions], and nothing else. *)
Theorem update_database_input fuel d name s granted w :
  dict_get d "Name" = Some name ->
  has_key d "TargetDatabase" = false ->
  remote (GrantPermissions iam_allowed_principal (database_resource name)
            (VList [VStr "ALL"]) (VList [])) (world s) = (Ok granted, w) ->
  exists entries rest,
    calls (trace_of (grant_database remote fuel (VDict d) s)) =
      GrantPermissions iam_allowed_principal (database_resource name)
        (VList [VStr "ALL"]) (VList [])
      :: UpdateDatabase name (VDict entries) :: rest /\
    Forall (fun c => operation c <> "update_database") rest /\
    dict_get entries "Name" = Some name /\
    dict_get entries "Description" =
      Some (match dict_get d "Description" with Some v => v | None => VStr "" end) /\
    dict_get entries "Parameters" =
      Some (match dict_get d "Parameters" with Some v => v | None => VDict [] end) /\
    dict_get entries "CreateTableDefaultPermissions" = Some all_to_iam_allowed /\
    dict_get entries "LocationUri" =
      match dict_get d "LocationUri" with
      | Some VNone | Some (VStr "") | None => None
      | Some uri => Some uri
      end /\
    incl (keys entries)
         ["Name"; "Description"; "LocationUri"; "Parameters";
          "CreateTableDefaultPermissions"].
Proof.
  intros named plain grant.
  destruct (database_input_entries d name) as (entries & E & facts).
  unfold grant_database.
  rewrite bind_eval. unfold subscript. rewrite named.
  rewrite bind_print. rewrite bind_eval. unfold py_contains. rewrite plain.
  rewrite bind_invoke. rewrite grant. rewrite bind_eval. rewrite E.
  rewrite bind_invoke.
  cbn [outcome_of state_of trace_of fst snd world stdin calls].
  destruct (remote (UpdateDatabase name (VDict entries)) w) as [[updated | info] w1].
  - cbn [outcome_of state_of trace_of fst snd world stdin calls].
    eexists entries, _. split; [reflexivity |]. split; [| exact facts].
    pose proof
      (@emits_bind _ _ (only ["get_tables"; "grant_permissions"])
         (paginate_all remote fuel (GetTables name) "TableList")
         (fun tables => for_each tables (grant_table remote name))) as rest_only.
    eapply Forall_impl; [| apply rest_only].
    + intros c O. unfold only in O. simpl in O. intros U. rewrite U in O.
      intuition discriminate.
    + eapply emits_only;
        [apply paginate_all_only with (name := "get_tables"); reflexivity |].
      intros c I. unfold only. simpl in *. tauto.
    + intros tables. apply emits_for_each. intros t _.
      eapply emits_only; [apply grant_table_only |].
      intros c I. unfold only. simpl in *. tauto.
  - cbn [outcome_of state_of trace_of fst snd world stdin calls].
    exists entries, []. split; [reflexivity |]. split; [constructor | exact facts].
Qed.

(** ** Listings *)

Lemma holds_list_records key page l :
  subscript page key = Ret (VList l) -> records key page = l.
Proof. unfold records. now intros ->. Qed.

Lemma holds_list_dict key page :
  holds_list key page -> exists d, page = VDict d.
Proof.
  intros (l & E). destruct page as [| b | z | s | l' | d]; try discriminate.
  now exists d.
Qed.

Lemma follow_tokens_done fuel op key d items s :
  dict_get d "NextToken" = None ->
  follow_tokens remote fuel op key (VDict d) items s = (Ret items, s, []).
Proof.
  intros last. destruct fuel; cbn [follow_tokens]; rewrite bind_eval;
    unfold py_contains, has_key; rewrite last; reflexivity.
Qed.

Lemma follow_tokens_serves op key pages :
  forall fuel d l (w w' : World) typed next,
    dict_get d "NextToken" = Some next ->
    serves remote op token_in w (Some next) pages w' ->
    Forall (holds_list key) pages ->
    length pages <= fuel ->
    follow_tokens remote fuel op key (VDict d) (VList l)
      {| world := w; stdin := typed |} =
    (Ret (VList (l ++ concat (map (records key) pages))),
     {| world := w'; stdin := typed |},
     listing op token_in (Some next) pages).
Proof.
  induction pages as [| page pages IH];
    intros fuel d l w w' typed next token served lists bound.
  - inversion served.
  - destruct fuel as [| fuel]; [simpl in bound; lia |].
    inversion lists as [| ? ? (items & held) lists']; subst.
    destruct (holds_list_dict (ex_intro _ items held)) as (d' & ->).
    cbn [follow_tokens]. rewrite bind_eval. unfold py_contains, has_key.
    rewrite token. rewrite bind_eval. unfold subscript at 1. rewrite token.
    rewrite bind_invoke. cbn [world stdin].
    assert (answer : exists w1, remote (op (Some next)) w = (Ok (VDict d'), w1) /\
              ((token_in (VDict d') = None /\ pages = [] /\ w1 = w') \/
               (exists next', token_in (VDict d') = Some next' /\
                              serves remote op token_in w1 (Some next') pages w'))).
    { inversion served; subst; eexists; (split; [eassumption |]);
        [left | right]; eauto. }
    destruct answer as (w1 & -> & [(last & -> & ->) | (next' & more & served')]).
    + rewrite bind_eval. unfold extend, extend_list. rewrite held.
      cbn [py_iter]. rewrite follow_tokens_done by exact last.
      cbn [outcome_of state_of trace_of fst snd concat map listing].
      rewrite (@holds_list_records _ _ _ held). now rewrite app_nil_r.
    + rewrite bind_eval. unfold extend, extend_list. rewrite held.
      cbn [py_iter].
      rewrite (IH fuel d' (l ++ items) w1 w' typed next' more served' lists')
        by (simpl in bound; lia).
      cbn [outcome_of state_of trace_of fst snd concat map listing].
      rewrite (@holds_list_records _ _ _ held). rewrite <- app_assoc.
      rewrite more. reflexivity.
Qed.

(** With fuel for all its pages, a hand-written listing returns the records
    of all pages, in order, having followed the tokens to the last page. *)
Lemma list_all_serves op key pages fuel (w w' : World) typed :
  serves remote op token_in w None pages w' ->
  Forall (holds_list key) pages ->
  length pages <= S fuel ->
  list_all remote fuel op key {| world := w; stdin := typed |} =
  (Ret (VList (concat (map (records key) pages))),
   {| world := w'; stdin := typed |},
   listing op token_in None pages).
Proof.
  intros served lists bound. unfold list_all.
  destruct pages as [| page pages]; [inversion served |].
  inversion lists as [| ? ? (items & held) lists']; subst.
  destruct (holds_list_dict (ex_intro _ items held)) as (d & ->).
  rewrite bind_invoke. cbn [world stdin].
  assert (answer : exists w1, remote (op None) w = (Ok (VDict d), w1) /\
            ((token_in (VDict d) = None /\ pages = [] /\ w1 = w') \/
             (exists next, token_in (VDict d) = Some next /\
                           serves remote op token_in w1 (Some next) pages w'))).
  { inversion served; subst; eexists; (split; [eassumption |]);
      [left | right]; eauto. }
  destruct answer as (w1 & -> & [(last & -> & ->) | (next & more & served')]).
  - rewrite bind_eval. rewrite held. rewrite follow_tokens_done by exact last.
    cbn [outcome_of state_of trace_of fst snd concat map listing].
    rewrite (@holds_list_records _ _ _ held). now rewrite app_nil_r.
  - rewrite bind_eval. rewrite held.
    rewrite (@follow_tokens_serves op key pages fuel d items w1 w' typed next
               more served' lists')
      by (simpl in bound; lia).
    cbn [outcome_of state_of trace_of fst snd concat map listing].
    rewrite (@holds_list_records _ _ _ held). rewrite more.
    reflexivity.
Qed.

(** A value is true in Python exactly when it is not blank. *)
Lemma truthy_blank v : truthy v = negb (blank v).
Proof.
  destruct v as [| [|] | z | s | [| x l] | [| [k x] d]]; try reflexivity.
  - unfold truthy, blank. cbn [existsb py_eq num_of].
    destruct (Z.eqb z 0); reflexivity.
  - unfold truthy, blank. cbn [existsb py_eq].
    destruct (String.eqb s ""); reflexivity.
Qed.

(** The token the paginator goes on with is the continuation token of the
    page. *)
Lemma next_token_continuation page : next_token page = continuation page.
Proof.
  unfold next_token, continuation, token_in.
  destruct page as [| b | z | s | l | d]; try reflexivity.
  destruct (dict_get d "NextToken") as [token |]; [| reflexivity].
  rewrite truthy_blank. now destruct (blank token).
Qed.

Lemma paginate_more_done fuel op key previous page items s :
  continuation page = None ->
  paginate_more remote fuel op key previous page items s = (Ret items, s, []).
Proof.
  intros last. rewrite <- next_token_continuation in last.
  destruct fuel; cbn [paginate_more]; now rewrite last.
Qed.

Lemma paginate_more_serves op key pages :
  forall fuel previous page l (w w' : World) typed next,
    continuation page = Some next ->
    repeated previous next = false ->
    serves remote op continuation w (Some next) pages w' ->
    renewed (Some next) pages ->
    Forall (holds_list key) pages ->
    length pages <= fuel ->
    paginate_more remote fuel op key previous page l
      {| world := w; stdin := typed |} =
    (Ret (l ++ concat (map (records key) pages)),
     {| world := w'; stdin := typed |},
     listing op continuation (Some next) pages).
Proof.
  induction pages as [| page' pages IH];
    intros fuel previous page l w w' typed next token fresh served new lists
           bound.
  - inversion served.
  - destruct fuel as [| fuel]; [simpl in bound; lia |].
    inversion lists as [| ? ? (items & held) lists']; subst.
    cbn [paginate_more]. rewrite next_token_continuation, token, fresh.
    rewrite bind_invoke. cbn [world stdin].
    assert (answer : exists w1, remote (op (Some next)) w = (Ok page', w1) /\
              ((continuation page' = None /\ pages = [] /\ w1 = w') \/
               (exists next', continuation page' = Some next' /\
                              serves remote op continuation w1 (Some next') pages w'))).
    { inversion served; subst; eexists; (split; [eassumption |]);
        [left | right]; eauto. }
    destruct answer as (w1 & -> & [(last & -> & ->) | (next' & more & served')]).
    + rewrite bind_eval. unfold extend_list. rewrite held. cbn [py_iter].
      rewrite paginate_more_done by exact last.
      cbn [outcome_of state_of trace_of fst snd concat map listing].
      rewrite (@holds_list_records _ _ _ held). now rewrite app_nil_r.
    + rewrite bind_eval. unfold extend_list. rewrite held. cbn [py_iter].
      cbn [renewed] in new. rewrite more in new. destruct new as (differs & new).
      rewrite (IH fuel (Some next) page' (l ++ items) w1 w' typed next' more
                  differs served' new lists')
        by (simpl in bound; lia).
      cbn [outcome_of state_of trace_of fst snd concat map listing].
      rewrite (@holds_list_records _ _ _ held). rewrite <- app_assoc.
      rewrite more. reflexivity.
Qed.

(** With fuel for all its pages, a paginator-driven listing returns the
    records of all pages, in order. *)
Lemma paginate_all_serves op key pages fuel (w w' : World) typed :
  serves remote op continuation w None pages w' ->
  renewed None pages ->
  Forall (holds_list key) pages ->
  length pages <= S fuel ->
  paginate_all remote fuel op key {| world := w; stdin := typed |} =
  (Ret (concat (map (records key) pages)),
   {| world := w'; stdin := typed |},
   listing op continuation None pages).
Proof.
  intros served new lists bound. unfold paginate_all.
  destruct pages as [| page pages]; [inversion served |].
  inversion lists as [| ? ? (items & held) lists']; subst.
  rewrite bind_invoke. cbn [world stdin].
  assert (answer : exists w1, remote (op None) w = (Ok page, w1) /\
            ((continuation page = None /\ pages = [] /\ w1 = w') \/
             (exists next, continuation page = Some next /\
                           serves remote op continuation w1 (Some next) pages w'))).
  { inversion served; subst; eexists; (split; [eassumption |]);
      [left | right]; eauto. }
  destruct answer as (w1 & -> & [(last & -> & ->) | (next & more & served')]).
  - rewrite bind_eval. unfold extend_list. rewrite held. cbn [py_iter app].
    rewrite paginate_more_done by exact last.
    cbn [outcome_of state_of trace_of fst snd concat map listing].
    rewrite (@holds_list_records _ _ _ held). now rewrite app_nil_r.
  - rewrite bind_eval. unfold extend_list. rewrite held. cbn [py_iter app].
    cbn [renewed] in new. destruct new as (_ & new). rewrite more in new.
    rewrite (@paginate_more_serves op key pages fuel None page items w1 w' typed
               next more eq_refl served' new lists')
      by (simpl in bound; lia).
    cbn [outcome_of state_of trace_of fst snd concat map listing].
    rewrite (@holds_list_records _ _ _ held). rewrite more. reflexivity.
Qed.

(** C6. Each of the four listings of the script (storage locations,
    databases, the tables of a database, permissions) reads all the pages the
    service has, following the continuation token until a page carries none,
    and only then starts on the records: the loop that follows runs on the
    concatenation of the record lists of all pages, in page order, and every
    request of the listing precedes the processing of its first record.  The
    two hand-written loops follow whatever a page holds under [NextToken];
    the two paginators follow a token that is not blank, and are given pages
    none of which hands back the token it was requested with. *)
Theorem listings_read_all_pages fuel typed :
  (forall pages (w w' : World),
   serves remote ListResources token_in w None pages w' ->
   Forall (holds_list "ResourceInfoList") pages ->
   length pages <= S fuel ->
   deregister_locations remote fuel {| world := w; stdin := typed |} =
   after (EPrint [Lit "2. De-registering all the data lake locations..."]
          :: listing ListResources token_in None pages)
         (for_each (concat (map (records "ResourceInfoList") pages))
                   (deregister remote) {| world := w'; stdin := typed |})) /\
  (forall pages (w w' : World),
   serves remote GetDatabases continuation w None pages w' ->
   renewed None pages ->
   Forall (holds_list "DatabaseList") pages ->
   length pages <= S fuel ->
   grant_databases remote fuel {| world := w; stdin := typed |} =
   after (EPrint [Lit "4. Granting ALL to IAM_ALLOWED_PRINCIPALS for existing databases and tables..."]
          :: listing GetDatabases continuation None pages)
         (for_each (concat (map (records "DatabaseList") pages))
                   (grant_database remote fuel)
                   {| world := w'; stdin := typed |})) /\
  (forall pages (w w' : World) d name w0 w1 granted updated,
   dict_get d "Name" = Some name ->
   has_key d "TargetDatabase" = false ->
   remote (GrantPermissions iam_allowed_principal (database_resource name)
             (VList [VStr "ALL"]) (VList [])) w0 = (Ok granted, w1) ->
   remote (UpdateDatabase name (database_input d name)) w1 = (Ok updated, w) ->
   serves remote (GetTables name) continuation w None pages w' ->
   renewed None pages ->
   Forall (holds_list "TableList") pages ->
   length pages <= S fuel ->
   grant_database remote fuel (VDict d) {| world := w0; stdin := typed |} =
   after (EPrint [Lit "... Granting permissions on database "; Fmt name; Lit " ..."]
          :: ECall (GrantPermissions iam_allowed_principal (database_resource name)
                      (VList [VStr "ALL"]) (VList [])) (Ok granted)
          :: ECall (UpdateDatabase name (database_input d name)) (Ok updated)
          :: listing (GetTables name) continuation None pages)
         (for_each (concat (map (records "TableList") pages))
                   (grant_table remote name)
                   {| world := w'; stdin := typed |})) /\
  (forall pages (w w' : World) account_id,
   serves remote ListPermissions token_in w None pages w' ->
   Forall (holds_list "PrincipalResourcePermissions") pages ->
   length pages <= S fuel ->
   revoke_permissions remote fuel account_id {| world := w; stdin := typed |} =
   after (EPrint [Lit "5. Revoking all the permissions except IAM_ALLOWED_PRINCIPALS..."]
          :: listing ListPermissions token_in None pages)
         (for_each (concat (map (records "PrincipalResourcePermissions") pages))
                   (revoke remote account_id)
                   {| world := w'; stdin := typed |})).
Proof.
  split; [| split; [| split]].
  - intros pages w w' served lists bound.
    unfold deregister_locations. rewrite bind_print.
    rewrite (bind_Ret _ _ _ (list_all_serves typed served lists bound)).
    rewrite bind_eval. cbn [py_iter]. unfold after.
    cbn [outcome_of state_of trace_of fst snd app]. reflexivity.
  - intros pages w w' served new lists bound.
    unfold grant_databases. rewrite bind_print.
    rewrite (bind_Ret _ _ _ (paginate_all_serves typed served new lists bound)).
    unfold after. cbn [outcome_of state_of trace_of fst snd app]. reflexivity.
  - intros pages w w' d name w0 w1 granted updated named plain grant update
      served new lists bound.
    unfold grant_database. rewrite bind_eval. unfold subscript. rewrite named.
    rewrite bind_print. rewrite bind_eval. unfold py_contains. rewrite plain.
    rewrite bind_invoke. cbn [world stdin]. rewrite grant. rewrite bind_eval.
    rewrite bind_invoke. cbn [world stdin]. rewrite update.
    rewrite (bind_Ret _ _ _ (paginate_all_serves typed served new lists bound)).
    unfold after. cbn [outcome_of state_of trace_of fst snd app]. reflexivity.
  - intros pages w w' account_id served lists bound.
    unfold revoke_permissions. rewrite bind_print.
    rewrite (bind_Ret _ _ _ (list_all_serves typed served lists bound)).
    rewrite bind_eval. cbn [py_iter]. unfold after.
    cbn [outcome_of state_of trace_of fst snd app]. reflexivity.
Qed.

(** ** What a completed run has listed and requested *)

Lemma answers_to_app name t1 t2 :
  answers_to name (t1 ++ t2) = answers_to name t1 ++ answers_to name t2.
Proof.
  induction t1 as [| [line | message answer | c [v | info]] t1 IH]; simpl; auto.
  destruct (String.eqb (operation c) name); simpl; now rewrite IH.
Qed.

Lemma listed_app name key t1 t2 :
  listed name key (t1 ++ t2) = listed name key t1 ++ listed name key t2.
Proof.
  unfold listed. now rewrite answers_to_app, map_app, concat_app.
Qed.

Lemma requests_app name t1 t2 :
  requests name (t1 ++ t2) = requests name t1 ++ requests name t2.
Proof. unfold requests. now rewrite calls_app, filter_app. Qed.

Lemma answers_to_calls name tr :
  Forall (fun c => operation c <> name) (calls tr) -> answers_to name tr = [].
Proof.
  induction tr as [| [line | message answer | c [v | info]] tr IH];
    simpl; intros F; auto; inversion F; subst; auto.
  destruct (String.eqb_spec (operation c) name); [contradiction | auto].
Qed.

Lemma requests_calls name tr :
  Forall (fun c => operation c <> name) (calls tr) -> requests name tr = [].
Proof.
  unfold requests. induction (calls tr) as [| c l IH]; simpl; intros F; auto.
  inversion F; subst.
  destruct (String.eqb_spec (operation c) name); [contradiction | auto].
Qed.

(** A phase that never performs an operation neither lists nor requests
    anything through it. *)
Lemma only_others {A} operations name (m : M A) s :
  emits (only operations) m -> ~ In name operations ->
  answers_to name (trace_of (m s)) = [] /\ requests name (trace_of (m s)) = [].
Proof.
  intros E other.
  assert (F : Forall (fun c => operation c <> name) (calls (trace_of (m s)))).
  { eapply Forall_impl; [| apply E]. intros c O same. unfold only in O.
    rewrite same in O. contradiction. }
  split; [now apply answers_to_calls | now apply requests_calls].
Qed.

Lemma extend_Ret items more items' :
  extend items more = Ret items' ->
  exists l v l', items = VList l /\ more = Ret v /\ py_iter v = Ret l' /\
                 items' = VList (l ++ l').
Proof.
  unfold extend, extend_list.
  destruct items as [| b | z | s | l | d]; try discriminate.
  destruct more as [v | e |]; try discriminate.
  destruct (py_iter v) as [l' | e |] eqn:iter; try discriminate.
  intros E. inversion E. now exists l, v, l'.
Qed.

Lemma extend_list_Ret l more l'' :
  extend_list l more = Ret l'' ->
  exists v l', more = Ret v /\ py_iter v = Ret l' /\ l'' = l ++ l'.
Proof.
  unfold extend_list.
  destruct more as [v | e |]; try discriminate.
  destruct (py_iter v) as [l' | e |] eqn:iter; try discriminate.
  intros E. inversion E. now exists v, l'.
Qed.

Lemma records_iter key page v l :
  subscript page key = Ret v -> py_iter v = Ret l -> records key page = l.
Proof. unfold records. now intros -> ->. Qed.

Lemma follow_tokens_completed name op key :
  (forall token, operation (op token) = name) ->
  forall fuel res items s items' s' t,
    follow_tokens remote fuel op key res items s = (Ret items', s', t) ->
    (items' = items /\ t = []) \/
    (exists l, items = VList l /\ items' = VList (l ++ listed name key t)).
Proof.
  intros named. induction fuel as [| fuel IH]; intros res items s items' s' t;
    cbn [follow_tokens]; rewrite bind_eval;
    destruct (py_contains "NextToken" res) as [[|] | e |]; try discriminate;
    try (intros E; inversion E; now left).
  rewrite bind_eval.
  destruct (subscript res "NextToken") as [token | e |]; try discriminate.
  rewrite bind_invoke.
  destruct (remote (op (Some token)) (world s)) as [[page | info] w1];
    [| discriminate].
  rewrite bind_eval.
  destruct (extend items (subscript page key)) as [items1 | e |] eqn:X;
    try discriminate.
  destruct (follow_tokens remote fuel op key page items1 _)
    as [[o s2] t2] eqn:F.
  cbn [outcome_of state_of trace_of fst snd]. intros E. inversion E; subst.
  destruct (extend_Ret _ _ X) as (l & v & l' & -> & held & iter & ->).
  right. exists l. split; [reflexivity |].
  unfold listed. cbn [answers_to]. rewrite named, String.eqb_refl.
  cbn [map concat]. rewrite (records_iter _ _ held iter).
  destruct (IH _ _ _ _ _ _ F) as [(-> & ->) | (l1 & E1 & ->)].
  - cbn [answers_to map concat]. now rewrite app_nil_r.
  - inversion E1; subst. unfold listed. now rewrite app_assoc.
Qed.

(** A hand-written listing that completed hands on the records of all the
    pages it received. *)
Lemma list_all_completed name op key fuel s items s' t l :
  (forall token, operation (op token) = name) ->
  list_all remote fuel op key s = (Ret items, s', t) ->
  py_iter items = Ret l ->
  l = listed name key t.
Proof.
  intros named. unfold list_all. rewrite bind_invoke.
  destruct (remote (op None) (world s)) as [[page | info] w1]; [| discriminate].
  rewrite bind_eval.
  destruct (subscript page key) as [items0 | e |] eqn:held; try discriminate.
  destruct (follow_tokens remote fuel op key page items0 _) as [[o s2] t2] eqn:F.
  cbn [outcome_of state_of trace_of fst snd]. intros E iter. inversion E; subst.
  unfold listed. cbn [answers_to]. rewrite named, String.eqb_refl.
  cbn [map concat].
  destruct (follow_tokens_completed _ _ named _ _ _ _ F)
    as [(-> & ->) | (l0 & -> & ->)].
  - cbn [answers_to map concat]. rewrite app_nil_r.
    symmetry. exact (records_iter _ _ held iter).
  - cbn [py_iter] in iter. inversion iter; subst.
    now rewrite (@records_iter key page (VList l0) l0 held eq_refl).
Qed.

Lemma paginate_more_completed name op key :
  (forall token, operation (op token) = name) ->
  forall fuel previous page items s items' s' t,
    paginate_more remote fuel op key previous page items s = (Ret items', s', t) ->
    items' = items ++ listed name key t.
Proof.
  intros named.
  induction fuel as [| fuel IH]; intros previous page items s items' s' t;
    cbn [paginate_more]; destruct (next_token page) as [token |];
    try (intros E; inversion E; now rewrite app_nil_r);
    destruct (repeated previous token); try discriminate.
  rewrite bind_invoke.
  destruct (remote (op (Some token)) (world s)) as [[page' | info] w1];
    [| discriminate].
  rewrite bind_eval.
  destruct (extend_list items (subscript page' key)) as [items1 | e |] eqn:X;
    try discriminate.
  destruct (paginate_more remote fuel op key (Some token) page' items1 _)
    as [[o s2] t2] eqn:F.
  cbn [outcome_of state_of trace_of fst snd]. intros E. inversion E; subst.
  destruct (extend_list_Ret _ _ X) as (v & l' & held & iter & ->).
  rewrite (IH _ _ _ _ _ _ _ F).
  unfold listed. cbn [answers_to]. rewrite named, String.eqb_refl.
  cbn [map concat]. rewrite (records_iter _ _ held iter).
  now rewrite app_assoc.
Qed.

(** So does a paginator-driven listing. *)
Lemma paginate_all_completed name op key fuel s items s' t :
  (forall token, operation (op token) = name) ->
  paginate_all remote fuel op key s = (Ret items, s', t) ->
  items = listed name key t.
Proof.
  intros named. unfold paginate_all. rewrite bind_invoke.
  destruct (remote (op None) (world s)) as [[page | info] w1]; [| discriminate].
  rewrite bind_eval.
  destruct (extend_list [] (subscript page key)) as [items0 | e |] eqn:X;
    try discriminate.
  destruct (paginate_more remote fuel op key None page items0 _)
    as [[o s2] t2] eqn:F.
  cbn [outcome_of state_of trace_of fst snd]. intros E. inversion E; subst.
  destruct (extend_list_Ret _ _ X) as (v & l' & held & iter & ->).
  rewrite (paginate_more_completed _ _ named _ _ _ _ _ F).
  unfold listed. cbn [answers_to]. rewrite named, String.eqb_refl.
  cbn [map concat app]. now rewrite (records_iter _ _ held iter).
Qed.

(** ** Properties that every step of the script preserves

    A property of runs, from any state, that holds of the primitive steps
    whatever the call, and is kept by sequencing and by a [try] around revoke
    calls, holds of every phase and of the script. *)

Section Closure.

Variable R : forall A, state -> outcome A * state * trace -> Prop.

Hypothesis sat_ret : forall A (a : A), sat R (ret a).
Hypothesis sat_raise : forall A e, sat R (@raise World A e).
Hypothesis sat_out_of_fuel : forall A, sat R (@out_of_fuel World A).
Hypothesis sat_eval : forall A (o : outcome A), sat R (eval o).
Hypothesis sat_print : forall line, sat R (print line).
Hypothesis sat_input : forall message, sat R (input message).
Hypothesis sat_invoke : forall c, sat R (invoke remote c).
Hypothesis sat_bind : forall A B (m : M A) (f : A -> M B),
  sat R m -> (forall a, sat R (f a)) -> sat R (bind m f).
Hypothesis sat_try : forall (m : M unit) handler,
  emits (fun c => is_revoke c = true) m ->
  sat R m -> (forall e, sat R (handler e)) -> sat R (try_except m handler).

Ltac sat_step :=
  first
    [ apply sat_ret | apply sat_raise | apply sat_out_of_fuel | apply sat_eval
    | apply sat_print | apply sat_input | apply sat_invoke
    | apply sat_bind; [| intro] ].

Lemma sat_for_each {A} (l : list A) (body : A -> M unit) :
  (forall x, sat R (body x)) -> sat R (for_each l body).
Proof.
  intros H. induction l as [| x l IH]; simpl; [apply sat_ret |].
  apply sat_bind; [apply H | intros _; exact IH].
Qed.

Lemma sat_prompt message : sat R (prompt recursion_limit message).
Proof.
  assert (rec : forall depth, sat R (prompt_rec depth message)).
  { induction depth as [| depth IH]; cbn [prompt_rec]; [apply sat_raise |].
    apply sat_bind; [apply sat_input |]. intros answer.
    destruct (str_in (lower answer) ["n"; "no"]); [apply sat_raise |].
    destruct (negb (str_in (lower answer) ["y"; "yes"]));
      [apply IH | apply sat_ret]. }
  intros s. unfold prompt. apply rec.
Qed.

Lemma sat_follow_tokens fuel op key res items :
  sat R (follow_tokens remote fuel op key res items).
Proof.
  revert res items. induction fuel as [| fuel IH]; intros res items;
    cbn [follow_tokens]; (apply sat_bind; [sat_step |]); intros [|];
    repeat sat_step.
  apply IH.
Qed.

Lemma sat_list_all fuel op key : sat R (list_all remote fuel op key).
Proof. unfold list_all. repeat sat_step. apply sat_follow_tokens. Qed.

Lemma sat_paginate_more fuel op key previous page items :
  sat R (paginate_more remote fuel op key previous page items).
Proof.
  revert previous page items.
  induction fuel as [| fuel IH]; intros previous page items;
    cbn [paginate_more]; destruct (next_token page) as [token |];
    try sat_step; destruct (repeated previous token); repeat sat_step.
  apply IH.
Qed.

Lemma sat_paginate_all fuel op key : sat R (paginate_all remote fuel op key).
Proof. unfold paginate_all. repeat sat_step. apply sat_paginate_more. Qed.

Lemma sat_configure args : sat R (configure remote args).
Proof.
  unfold configure. destruct (profile args), (region args); repeat sat_step.
Qed.

Lemma sat_modify_data_lake_settings : sat R (modify_data_lake_settings remote).
Proof. unfold modify_data_lake_settings. repeat sat_step. Qed.

Lemma sat_deregister_locations fuel : sat R (deregister_locations remote fuel).
Proof.
  unfold deregister_locations.
  apply sat_bind; [sat_step |]. intros _.
  apply sat_bind; [apply sat_list_all |]. intros resources.
  apply sat_bind; [sat_step |]. intros l.
  apply sat_for_each. intros r. unfold deregister. repeat sat_step.
Qed.

Lemma sat_grant_catalog : sat R (grant_catalog remote).
Proof. unfold grant_catalog. repeat sat_step. Qed.

Lemma sat_grant_table database_name t : sat R (grant_table remote database_name t).
Proof.
  unfold grant_table. apply sat_bind; [sat_step |]. intros _.
  apply sat_bind; [sat_step |]. intros [|]; repeat sat_step.
Qed.

Lemma sat_grant_database fuel d : sat R (grant_database remote fuel d).
Proof.
  unfold grant_database.
  apply sat_bind; [sat_step |]. intros name.
  apply sat_bind; [sat_step |]. intros _.
  apply sat_bind; [sat_step |]. intros [|]; [sat_step |].
  apply sat_bind; [sat_step |]. intros _.
  apply sat_bind; [sat_step |]. intros input_.
  apply sat_bind; [sat_step |]. intros _.
  apply sat_bind; [apply sat_paginate_all |]. intros tables.
  apply sat_for_each. intros t. apply sat_grant_table.
Qed.

Lemma sat_grant_databases fuel : sat R (grant_databases remote fuel).
Proof.
  unfold grant_databases.
  apply sat_bind; [sat_step |]. intros _.
  apply sat_bind; [apply sat_paginate_all |]. intros databases.
  apply sat_for_each. intros d. apply sat_grant_database.
Qed.

Lemma sat_revoke account_id p : sat R (revoke remote account_id p).
Proof.
  unfold revoke.
  apply sat_bind; [sat_step |]. intros principal.
  apply sat_bind; [sat_step |]. intros identifier.
  destruct (negb (py_eq identifier (VStr "IAM_ALLOWED_PRINCIPALS")));
    [| sat_step].
  apply sat_bind; [sat_step |]. intros resource.
  apply sat_bind; [sat_step |]. intros _.
  apply sat_bind; [sat_step |]. intros catalog_id.
  destruct (negb (py_eq catalog_id account_id)); [sat_step |].
  apply sat_try; [| repeat sat_step | intros e; sat_step].
  repeat emits_step.
Qed.

Lemma sat_revoke_permissions fuel account_id :
  sat R (revoke_permissions remote fuel account_id).
Proof.
  unfold revoke_permissions.
  apply sat_bind; [sat_step |]. intros _.
  apply sat_bind; [apply sat_list_all |]. intros permissions.
  apply sat_bind; [sat_step |]. intros l.
  apply sat_for_each. intros p. apply sat_revoke.
Qed.

Lemma sat_main fuel args : sat R (main remote recursion_limit fuel args).
Proof.
  unfold main.
  apply sat_bind; [apply sat_configure |]. intros account_id.
  apply sat_bind; [apply sat_prompt |]. intros _.
  apply sat_bind; [sat_step |]. intros _.
  apply sat_bind; [sat_step |]. intros _.
  apply sat_bind; [apply sat_modify_data_lake_settings |]. intros _.
  apply sat_bind; [apply sat_deregister_locations |]. intros _.
  apply sat_bind; [apply sat_grant_catalog |]. intros _.
  apply sat_bind; [apply sat_grant_databases |]. intros _.
  apply sat_bind; [apply sat_revoke_permissions |]. intros _.
  apply sat_print.
Qed.

End Closure.

(** ** Failing calls *)

Lemma stops_at_failure_app e t1 t2 :
  stops_at_failure None t1 -> stops_at_failure e t2 ->
  stops_at_failure e (t1 ++ t2).
Proof.
  induction t1 as [| [line | message answer | c [v | info]] t1 IH]; simpl; auto.
  destruct (is_revoke c); auto. intros (_ & E). discriminate.
Qed.

Lemma stops_at_failure_revokes e t1 t2 :
  Forall (fun c => is_revoke c = true) (calls t1) -> stops_at_failure e t2 ->
  stops_at_failure e (t1 ++ t2).
Proof.
  induction t1 as [| [line | message answer | c [v | info]] t1 IH]; simpl; auto;
    intros F H; inversion F as [| ? ? revoked F']; subst; auto.
  rewrite revoked. auto.
Qed.

Lemma stops_at_failure_split e before c info behind :
  stops_at_failure e (before ++ ECall c (Err info) :: behind) ->
  is_revoke c = false ->
  behind = [] /\ e = Some (RemoteError info).
Proof.
  intros H other.
  induction before as [| [line | message answer | c' [v | info']] before IH];
    simpl in H; auto.
  - now rewrite other in H.
  - destruct (is_revoke c'); auto.
    destruct H as (E & _). now destruct before.
Qed.

Lemma propagating_bind A B (m : M A) (f : A -> M B) :
  sat (propagating World) m -> (forall a, sat (propagating World) (f a)) ->
  sat (propagating World) (bind m f).
Proof.
  intros Hm Hf s. specialize (Hm s). unfold propagating, bind in *.
  destruct (m s) as [[[a | e |] s1] t1]; auto.
  specialize (Hf a s1). unfold propagating in Hf.
  destruct (f a s1) as [[o s2] t2]. simpl in *.
  now apply stops_at_failure_app.
Qed.

Lemma propagating_try (m : M unit) handler :
  emits (fun c => is_revoke c = true) m ->
  sat (propagating World) m -> (forall e, sat (propagating World) (handler e)) ->
  sat (propagating World) (try_except m handler).
Proof.
  intros revokes Hm Hh s. specialize (Hm s). specialize (revokes s).
  unfold propagating, try_except in *.
  destruct (m s) as [[[a | e |] s1] t1]; auto.
  destruct (is_Exception e); auto.
  specialize (Hh e s1). unfold propagating in Hh.
  destruct (handler e s1) as [[o s2] t2]. simpl in *.
  now apply stops_at_failure_revokes.
Qed.

(** A failed call that is no revoke call ends the script with its error. *)
Lemma main_propagating fuel args : sat (propagating World) (main remote recursion_limit fuel args).
Proof.
  apply sat_main; try (intros; intros s; exact I).
  - intros message s. unfold propagating, input.
    destruct (stdin s); exact I.
  - intros c s. unfold propagating, invoke.
    destruct (remote c (world s)) as [[v | info] w]; simpl; auto.
    destruct (is_revoke c); auto.
  - apply propagating_bind.
  - apply propagating_try.
Qed.

Lemma revoke_attempt account_id p principal identifier d s :
  subscript p "Principal" = Ret principal ->
  subscript principal "DataLakePrincipalIdentifier" = Ret identifier ->
  identifier <> VStr "IAM_ALLOWED_PRINCIPALS" ->
  subscript p "Resource" = Ret (VDict d) ->
  py_eq (get_catalog_id_dict (VDict d)) account_id = true ->
  revoke remote account_id p s =
  after [EPrint (revoking_line identifier (VDict d))]
    (try_except
       (bind (eval (subscript p "Permissions")) (fun permissions =>
        bind (eval (subscript p "PermissionsWithGrantOption")) (fun with_grant =>
        bind (invoke remote
                (RevokePermissions principal (VDict d) permissions with_grant))
             (fun _ => ret tt))))
       (fun e => print [FmtExn e]) s).
Proof.
  intros Hp Hi other Hr owned. unfold revoke.
  rewrite bind_eval, Hp, bind_eval, Hi.
  destruct (py_eq identifier (VStr "IAM_ALLOWED_PRINCIPALS")) eqn:sentinel.
  { apply py_eq_VStr in sentinel. contradiction. }
  cbn [negb]. rewrite bind_eval, Hr, bind_print, bind_eval.
  unfold get_catalog_id. rewrite owned. cbn [negb]. reflexivity.
Qed.

(** C4. In the revoke loop, when the [revoke_permissions] call for a record
    fails, the error is caught and printed and the loop goes on with the
    records that follow, from the state the failed call left.  Any other
    call of the script that fails is the last thing the script does: the run
    ends there with that error. *)
Theorem revoke_errors_are_skipped :
  (forall account_id p rest principal identifier d permissions with_grant
          s info w',
     subscript p "Principal" = Ret principal ->
     subscript principal "DataLakePrincipalIdentifier" = Ret identifier ->
     identifier <> VStr "IAM_ALLOWED_PRINCIPALS" ->
     subscript p "Resource" = Ret (VDict d) ->
     py_eq (get_catalog_id_dict (VDict d)) account_id = true ->
     subscript p "Permissions" = Ret permissions ->
     subscript p "PermissionsWithGrantOption" = Ret with_grant ->
     remote (RevokePermissions principal (VDict d) permissions with_grant)
            (world s) = (Err info, w') ->
     for_each (p :: rest) (revoke remote account_id) s =
     after [EPrint (revoking_line identifier (VDict d));
            ECall (RevokePermissions principal (VDict d) permissions with_grant)
                  (Err info);
            EPrint [FmtExn (RemoteError info)]]
       (for_each rest (revoke remote account_id)
          {| world := w'; stdin := stdin s |})) /\
  (forall fuel args s before c info behind,
     trace_of (main remote recursion_limit fuel args s) = before ++ ECall c (Err info) :: behind ->
     is_revoke c = false ->
     behind = [] /\
     outcome_of (main remote recursion_limit fuel args s) = Exc (RemoteError info)).
Proof.
  split.
  - intros account_id p rest principal identifier d permissions with_grant
      s info w' Hp Hi other Hr owned Hperm Hgrant failed.
    cbn [for_each].
    assert (one : revoke remote account_id p s =
              (Ret tt, {| world := w'; stdin := stdin s |},
               [EPrint (revoking_line identifier (VDict d));
                ECall (RevokePermissions principal (VDict d) permissions with_grant)
                      (Err info);
                EPrint [FmtExn (RemoteError info)]])).
    { rewrite (revoke_attempt _ _ s Hp Hi other Hr owned).
      unfold try_except. rewrite bind_eval, Hperm, bind_eval, Hgrant.
      rewrite bind_invoke, failed. reflexivity. }
    rewrite (bind_Ret _ _ _ one). reflexivity.
  - intros fuel args s before c info behind split_ other.
    pose proof (main_propagating fuel args s) as H.
    cbv beta delta [propagating state] in H. rewrite split_ in H.
    destruct (stops_at_failure_split _ _ _ _ _ H other) as (-> & E).
    split; [reflexivity |].
    destruct (outcome_of (main remote recursion_limit fuel args s)) as [a | e |];
      simpl in E; congruence.
Qed.

(** ** A run that completed *)

Lemma phase_silent {A} operations name (m : M A) s o s' t :
  m s = (o, s', t) -> emits (only operations) m -> ~ In name operations ->
  answers_to name t = [] /\ requests name t = [].
Proof.
  intros run E other.
  pose proof (@only_others A operations name m s E other) as H.
  now rewrite run in H.
Qed.

Arguments phase_silent {A operations} name {m s o s' t} _ _ _.

Lemma main_completed fuel args s s' tr :
  main remote recursion_limit fuel args s = (Ret tt, s', tr) -> phases remote recursion_limit fuel args s s' tr.
Proof.
  unfold main. intros run.
  apply bind_completed in run as (account & s0 & t0 & r0 & E0 & run & ->).
  apply bind_completed in run as ([] & s1 & t1 & r1 & E1 & run & ->).
  apply bind_completed in run as (glue & s2 & t2 & r2 & E2 & run & ->).
  apply bind_completed in run as (lake & s3 & t3 & r3 & E3 & run & ->).
  apply bind_completed in run as ([] & s4 & t4 & r4 & E4 & run & ->).
  apply bind_completed in run as ([] & s5 & t5 & r5 & E5 & run & ->).
  apply bind_completed in run as ([] & s6 & t6 & r6 & E6 & run & ->).
  apply bind_completed in run as ([] & s7 & t7 & r7 & E7 & run & ->).
  apply bind_completed in run as ([] & s8 & t8 & r8 & E8 & run & ->).
  unfold print in run. inversion run; subst.
  unfold invoke in E2, E3.
  destruct (remote (Client "glue") (world s1)) as [[v | info] w]; inversion E2; subst.
  destruct (remote (Client "lakeformation") _) as [[v' | info] w'];
    inversion E3; subst.
  eapply phases_intro with (glue := glue) (lake := lake); eauto;
    now rewrite <- !app_assoc.
Qed.

Lemma dict_get_set d k v : dict_get (dict_set d k v) k = Some v.
Proof.
  induction d as [| [k' v'] d IH]; simpl.
  - now rewrite String.eqb_refl.
  - destruct (String.eqb_spec k' k) as [-> | other]; simpl.
    + now rewrite String.eqb_refl.
    + destruct (String.eqb_spec k' k); [contradiction | exact IH].
Qed.

Lemma dict_get_set_other d k v k' :
  k' <> k -> dict_get (dict_set d k v) k' = dict_get d k'.
Proof.
  intros other. induction d as [| [k0 v0] d IH]; simpl.
  - destruct (String.eqb_spec k k'); [congruence | reflexivity].
  - destruct (String.eqb_spec k0 k) as [-> | differ]; simpl.
    + destruct (String.eqb_spec k k'); [congruence | reflexivity].
    + now rewrite IH.
Qed.

Lemma prompt_only message : emits (only []) (prompt recursion_limit message : M unit).
Proof. apply emits_prompt. Qed.

Lemma modify_data_lake_settings_completed s s' t :
  modify_data_lake_settings remote s = (Ret tt, s', t) ->
  exists res d stored,
    subscript res "DataLakeSettings" = Ret (VDict d) /\
    t = [EPrint [Lit "1. Modifying Data Lake Settings to use IAM Controls only..."];
         ECall GetDataLakeSettings (Ok res);
         ECall (PutDataLakeSettings
                  (VDict (dict_set (dict_set d "CreateDatabaseDefaultPermissions"
                                             all_to_iam_allowed)
                                   "CreateTableDefaultPermissions"
                                   all_to_iam_allowed)))
               (Ok stored)].
Proof.
  unfold modify_data_lake_settings. rewrite bind_print, bind_invoke.
  destruct (remote GetDataLakeSettings (world s)) as [[res | info] w1];
    [| discriminate].
  rewrite bind_eval.
  destruct (subscript res "DataLakeSettings") as [setting | e |] eqn:held;
    try discriminate.
  rewrite bind_eval.
  destruct setting as [| b | z | x | l | d]; try discriminate.
  cbn [setitem]. rewrite bind_eval. cbn [setitem]. rewrite bind_invoke.
  cbn [world stdin].
  destruct (remote (PutDataLakeSettings _) w1) as [[stored | info] w2];
    [| discriminate].
  unfold ret.
  cbn [outcome_of state_of trace_of fst snd]. intros E. inversion E; subst.
  now exists res, d, stored.
Qed.

(** C7. In a run that completed, the data lake settings were fetched once and
    put back once, the put was accepted, and what was put is the fetched
    settings with [CreateDatabaseDefaultPermissions] and
    [CreateTableDefaultPermissions] both set to the single grant of ALL to
    IAM_ALLOWED_PRINCIPALS, every other field being as fetched. *)
Theorem settings_put_back fuel args s s' tr :
  main remote recursion_limit fuel args s = (Ret tt, s', tr) ->
  exists res fetched put stored,
    answers_to "get_data_lake_settings" tr = [res] /\
    subscript res "DataLakeSettings" = Ret (VDict fetched) /\
    requests "put_data_lake_settings" tr = [PutDataLakeSettings (VDict put)] /\
    In (ECall (PutDataLakeSettings (VDict put)) (Ok stored)) tr /\
    dict_get put "CreateDatabaseDefaultPermissions" = Some all_to_iam_allowed /\
    dict_get put "CreateTableDefaultPermissions" = Some all_to_iam_allowed /\
    (forall k,
       k <> "CreateDatabaseDefaultPermissions" ->
       k <> "CreateTableDefaultPermissions" ->
       dict_get put k = dict_get fetched k).
Proof.
  intros run.
  destruct (@main_completed _ _ _ _ _ run)
    as [account_id s0 t0 s1 t1 s2 glue lake s3 t3 s4 t4 s5 t5 s6 t6 t7
        R0 R1 R3 R4 R5 R6 R7 whole].
  destruct (@modify_data_lake_settings_completed _ _ _ R3)
    as (res & d & stored & held & shape).
  assert (get : answers_to "get_data_lake_settings" tr = [res]).
  { rewrite whole, !answers_to_app.
    destruct (phase_silent "get_data_lake_settings" R0
                (configure_only args)) as [-> _]; [simpl; intuition discriminate |].
    destruct (phase_silent "get_data_lake_settings" R1
                (prompt_only confirmation)) as [-> _]; [simpl; tauto |].
    destruct (phase_silent "get_data_lake_settings" R4
                (deregister_locations_only fuel)) as [-> _];
      [simpl; intuition discriminate |].
    destruct (phase_silent "get_data_lake_settings" R5
                grant_catalog_only) as [-> _]; [simpl; intuition discriminate |].
    destruct (phase_silent "get_data_lake_settings" R6
                (grant_databases_only fuel)) as [-> _];
      [simpl; intuition discriminate |].
    destruct (phase_silent "get_data_lake_settings" R7
                (revoke_permissions_only fuel account_id)) as [-> _];
      [simpl; intuition discriminate |].
    rewrite shape. reflexivity. }
  assert (put : requests "put_data_lake_settings" tr =
                [PutDataLakeSettings
                   (VDict (dict_set (dict_set d "CreateDatabaseDefaultPermissions"
                                              all_to_iam_allowed)
                                    "CreateTableDefaultPermissions"
                                    all_to_iam_allowed))]).
  { rewrite whole, !requests_app.
    destruct (phase_silent "put_data_lake_settings" R0
                (configure_only args)) as [_ ->]; [simpl; intuition discriminate |].
    destruct (phase_silent "put_data_lake_settings" R1
                (prompt_only confirmation)) as [_ ->]; [simpl; tauto |].
    destruct (phase_silent "put_data_lake_settings" R4
                (deregister_locations_only fuel)) as [_ ->];
      [simpl; intuition discriminate |].
    destruct (phase_silent "put_data_lake_settings" R5
                grant_catalog_only) as [_ ->]; [simpl; intuition discriminate |].
    destruct (phase_silent "put_data_lake_settings" R6
                (grant_databases_only fuel)) as [_ ->];
      [simpl; intuition discriminate |].
    destruct (phase_silent "put_data_lake_settings" R7
                (revoke_permissions_only fuel account_id)) as [_ ->];
      [simpl; intuition discriminate |].
    rewrite shape. reflexivity. }
  exists res, d,
    (dict_set (dict_set d "CreateDatabaseDefaultPermissions" all_to_iam_allowed)
              "CreateTableDefaultPermissions" all_to_iam_allowed), stored.
  split; [exact get |]. split; [exact held |]. split; [exact put |].
  split.
  { rewrite whole, shape. rewrite !in_app_iff. right. right. right. left.
    simpl. tauto. }
  split.
  { rewrite dict_get_set_other by discriminate. apply dict_get_set. }
  split; [apply dict_get_set |].
  intros k other_database other_table.
  rewrite !dict_get_set_other by assumption. reflexivity.
Qed.

Lemma bind_print_completed {B} line (f : unit -> M B) s b s' t :
  bind (print line) f s = (Ret b, s', t) ->
  exists t', f tt s = (Ret b, s', t') /\ t = EPrint line :: t'.
Proof.
  intros run. apply bind_completed in run as ([] & s1 & t1 & t2 & E & run & ->).
  unfold print in E. inversion E; subst. now exists t2.
Qed.

Lemma bind_eval_completed {A B} (o : outcome A) (f : A -> M B) s b s' t :
  bind (eval o) f s = (Ret b, s', t) ->
  exists a, o = Ret a /\ f a s = (Ret b, s', t).
Proof.
  intros run. apply bind_completed in run as (a & s1 & t1 & t2 & E & run & ->).
  unfold eval in E. inversion E; subst. now exists a.
Qed.

Lemma bind_invoke_completed {B} c (f : value -> M B) s b s' t :
  bind (invoke remote c) f s = (Ret b, s', t) ->
  exists v w t',
    remote c (world s) = (Ok v, w) /\
    f v {| world := w; stdin := stdin s |} = (Ret b, s', t') /\
    t = ECall c (Ok v) :: t'.
Proof.
  intros run. apply bind_completed in run as (a & s1 & t1 & t2 & E & run & ->).
  unfold invoke in E.
  destruct (remote c (world s)) as [[v | info] w]; inversion E; subst.
  now exists a, w, t2.
Qed.

Lemma stops_at_failure_failed tr :
  stops_at_failure None tr -> Forall (fun c => is_revoke c = true) (failed tr).
Proof.
  induction tr as [| [line | message answer | c [v | info]] tr IH]; simpl; auto.
  destruct (is_revoke c) eqn:R; [auto | intros (_ & E); discriminate].
Qed.

(** In a run that completed only revoke calls can have failed. *)
Lemma completed_failed fuel args s s' tr :
  main remote recursion_limit fuel args s = (Ret tt, s', tr) ->
  Forall (fun c => is_revoke c = true) (failed tr).
Proof.
  intros run. pose proof (main_propagating fuel args s) as H.
  cbv beta delta [propagating state] in H. rewrite run in H.
  now apply stops_at_failure_failed.
Qed.

Lemma deregister_each_completed l :
  forall s s' t,
    for_each l (deregister remote) s = (Ret tt, s', t) ->
    exists arns,
      Forall2 (fun r arn => subscript r "ResourceArn" = Ret arn) l arns /\
      calls t = map DeregisterResource arns.
Proof.
  induction l as [| r l IH]; intros s s' t; cbn [for_each].
  - unfold ret. intros E. inversion E; subst. exists []. now split.
  - intros run.
    apply bind_completed in run as ([] & s1 & t1 & t2 & one & run & ->).
    unfold deregister in one.
    apply bind_eval_completed in one as (arn & held & one).
    apply bind_print_completed in one as (t1' & one & ->).
    apply bind_invoke_completed in one as (v & w & t1'' & _ & one & ->).
    unfold ret in one. inversion one; subst.
    destruct (IH _ _ _ run) as (arns & each & E).
    exists (arn :: arns). split; [now constructor |].
    simpl. now rewrite E.
Qed.

Lemma deregister_locations_completed fuel s s' t :
  deregister_locations remote fuel s = (Ret tt, s', t) ->
  exists arns,
    Forall2 (fun r arn => subscript r "ResourceArn" = Ret arn)
            (listed "list_resources" "ResourceInfoList" t) arns /\
    requests "deregister_resource" t = map DeregisterResource arns.
Proof.
  unfold deregister_locations. intros run.
  apply bind_print_completed in run as (t' & run & ->).
  apply bind_completed in run as (resources & s1 & t1 & t2 & listing_ & run & ->).
  apply bind_eval_completed in run as (l & iter & run).
  destruct (deregister_each_completed _ _ run) as (arns & each & E).
  assert (known : l = listed "list_resources" "ResourceInfoList" t1).
  { eapply list_all_completed; [| exact listing_ | exact iter]. reflexivity. }
  exists arns. split.
  - change (EPrint ?line :: t1 ++ t2) with ([EPrint line] ++ t1 ++ t2).
    rewrite !listed_app.
    assert (none : listed "list_resources" "ResourceInfoList" t2 = []).
    { unfold listed. rewrite answers_to_calls; [reflexivity |].
      rewrite E. clear. induction arns; constructor; auto. discriminate. }
    rewrite none, app_nil_r. unfold listed at 1. simpl. now rewrite <- known.
  - change (EPrint ?line :: t1 ++ t2) with ([EPrint line] ++ t1 ++ t2).
    rewrite !requests_app.
    destruct (phase_silent "deregister_resource" listing_
                (list_all_only fuel ListResources (name := "list_resources")
                   "ResourceInfoList" (fun _ => eq_refl))) as [_ ->];
      [simpl; intuition discriminate |].
    unfold requests. simpl. rewrite E. clear.
    induction arns as [| arn arns IH]; simpl; [reflexivity | now rewrite IH].
Qed.

(** C8. In a run that completed, [deregister_resource] was called once for
    each storage location that [list_resources] had listed, in the order of
    the listing and with its ARN, and none of these calls failed. *)
Theorem locations_deregistered fuel args s s' tr :
  main remote recursion_limit fuel args s = (Ret tt, s', tr) ->
  exists arns,
    Forall2 (fun r arn => subscript r "ResourceArn" = Ret arn)
            (listed "list_resources" "ResourceInfoList" tr) arns /\
    requests "deregister_resource" tr = map DeregisterResource arns /\
    Forall (fun c => operation c <> "deregister_resource") (failed tr).
Proof.
  intros run.
  destruct (@main_completed _ _ _ _ _ run)
    as [account_id s0 t0 s1 t1 s2 glue lake s3 t3 s4 t4 s5 t5 s6 t6 t7
        R0 R1 R3 R4 R5 R6 R7 whole].
  destruct (@deregister_locations_completed _ _ _ _ R4) as (arns & each & E).
  exists arns. split; [| split].
  - unfold listed. rewrite whole, !answers_to_app.
    destruct (phase_silent "list_resources" R0 (configure_only args))
      as [-> _]; [simpl; intuition discriminate |].
    destruct (phase_silent "list_resources" R1 (prompt_only confirmation))
      as [-> _]; [simpl; tauto |].
    destruct (phase_silent "list_resources" R3 modify_data_lake_settings_only)
      as [-> _]; [simpl; intuition discriminate |].
    destruct (phase_silent "list_resources" R5 grant_catalog_only)
      as [-> _]; [simpl; intuition discriminate |].
    destruct (phase_silent "list_resources" R6 (grant_databases_only fuel))
      as [-> _]; [simpl; intuition discriminate |].
    destruct (phase_silent "list_resources" R7
                (revoke_permissions_only fuel account_id))
      as [-> _]; [simpl; intuition discriminate |].
    simpl. rewrite app_nil_r. exact each.
  - rewrite whole, !requests_app.
    destruct (phase_silent "deregister_resource" R0 (configure_only args))
      as [_ ->]; [simpl; intuition discriminate |].
    destruct (phase_silent "deregister_resource" R1 (prompt_only confirmation))
      as [_ ->]; [simpl; tauto |].
    destruct (phase_silent "deregister_resource" R3 modify_data_lake_settings_only)
      as [_ ->]; [simpl; intuition discriminate |].
    destruct (phase_silent "deregister_resource" R5 grant_catalog_only)
      as [_ ->]; [simpl; intuition discriminate |].
    destruct (phase_silent "deregister_resource" R6 (grant_databases_only fuel))
      as [_ ->]; [simpl; intuition discriminate |].
    destruct (phase_silent "deregister_resource" R7
                (revoke_permissions_only fuel account_id))
      as [_ ->]; [simpl; intuition discriminate |].
    simpl. rewrite app_nil_r. exact E.
  - eapply Forall_impl; [| exact (completed_failed _ _ _ run)].
    intros [] revoked; simpl in *; discriminate.
Qed.

(** ** Grants and resource links *)

Lemma lists_mono t1 t t2 op key x :
  lists t op key x -> lists (t1 ++ t ++ t2) op key x.
Proof.
  intros (token & page & I & R). exists token, page. split; [| exact R].
  rewrite !in_app_iff. tauto.
Qed.

Lemma lists_mono_r t t2 op key x :
  lists t op key x -> lists (t ++ t2) op key x.
Proof. intros L. now apply (@lists_mono [] t t2). Qed.

Lemma lists_cons e t op key x : lists t op key x -> lists (e :: t) op key x.
Proof.
  intros (token & page & I & R). exists token, page. split; [now right | exact R].
Qed.

Lemma paginate_more_asks fuel op key previous page items :
  emits (asks op) (paginate_more remote fuel op key previous page items).
Proof.
  revert previous page items.
  induction fuel as [| fuel IH]; intros previous page items; simpl.
  - destruct (next_token page) as [token |]; [| emits_step].
    destruct (repeated previous token); emits_step.
  - destruct (next_token page) as [token |]; [| emits_step].
    destruct (repeated previous token); [emits_step |].
    apply emits_bind; [apply emits_invoke; now exists (Some token) |].
    intros page'. apply emits_bind; [emits_step |]. intros items'. apply IH.
Qed.

Lemma paginate_all_asks fuel op key :
  emits (asks op) (paginate_all remote fuel op key).
Proof.
  unfold paginate_all.
  apply emits_bind; [apply emits_invoke; now exists None |]. intros page.
  apply emits_bind; [emits_step |]. intros items. apply paginate_more_asks.
Qed.

Lemma listed_lists name op key t x :
  (forall token, operation (op token) = name) ->
  Forall (asks op) (calls t) ->
  In x (listed name key t) -> lists t op key x.
Proof.
  intros named.
  induction t as [| [line | message answer | c [v | info]] t IH];
    simpl; intros F I; try contradiction.
  - destruct (IH F I) as (token & page & I' & R).
    exists token, page. split; [now right | exact R].
  - destruct (IH F I) as (token & page & I' & R).
    exists token, page. split; [now right | exact R].
  - inversion F as [| ? ? (token & ->) F']; subst.
    unfold listed in I. cbn [answers_to] in I.
    rewrite named, String.eqb_refl in I. cbn [map concat] in I.
    apply in_app_or in I as [I | I].
    + exists token, v. split; [now left | exact I].
    + destruct (IH F' I) as (token' & page & I' & R).
      exists token', page. split; [now right | exact R].
  - inversion F as [| ? ? _ F']; subst.
    assert (I' : In x (listed name key t)).
    { unfold listed in *. cbn [answers_to] in I. exact I. }
    destruct (IH F' I') as (token' & page & I'' & R).
    exists token', page. split; [now right | exact R].
Qed.

(** The records a paginator-driven listing returns were all listed by it. *)
Lemma paginate_all_lists name op key fuel s items s' t x :
  (forall token, operation (op token) = name) ->
  paginate_all remote fuel op key s = (Ret items, s', t) ->
  In x items -> lists t op key x.
Proof.
  intros named run I.
  rewrite (@paginate_all_completed name op key fuel s items s' t named run) in I.
  apply (@listed_lists name op key t x named); [| exact I].
  pose proof (paginate_all_asks fuel op key s) as F. now rewrite run in F.
Qed.

Lemma for_table_mono t1 t t2 name resource :
  for_table t name resource -> for_table (t1 ++ t ++ t2) name resource.
Proof.
  intros (x & table_name & L & rest). exists x, table_name.
  split; [now apply lists_mono | exact rest].
Qed.

Lemma for_database_mono t1 t t2 d resource :
  for_database t d resource -> for_database (t1 ++ t ++ t2) d resource.
Proof.
  intros (name & N & P & [E | T]); exists name; repeat split; auto.
  right. now apply for_table_mono.
Qed.

Lemma justified_mono t1 t t2 c :
  justified t c -> justified (t1 ++ t ++ t2) c.
Proof.
  destruct c; simpl; auto. intros [E | (d & L & D)]; [now left | right].
  exists d. split; [now apply lists_mono | now apply for_database_mono].
Qed.

Lemma justified_mono_l t1 t c : justified t c -> justified (t1 ++ t) c.
Proof.
  intros J. rewrite <- (app_nil_r t). now apply justified_mono.
Qed.

Lemma justified_mono_r t t2 c : justified t c -> justified (t ++ t2) c.
Proof. intros J. now apply (@justified_mono [] t t2). Qed.

Lemma well_granted_bind {A B} (m : M A) (f : A -> M B) :
  well_granted m -> (forall a, well_granted (f a)) -> well_granted (bind m f).
Proof.
  intros Hm Hf s. unfold bind. specialize (Hm s).
  destruct (m s) as [[[a | e |] s1] t1]; simpl in *; auto.
  specialize (Hf a s1). destruct (f a s1) as [[o s2] t2]. simpl in *.
  rewrite calls_app. apply Forall_app. split.
  - eapply Forall_impl; [| exact Hm]. intros c. apply justified_mono_r.
  - eapply Forall_impl; [| exact Hf]. intros c. apply justified_mono_l.
Qed.

(** A phase that grants nothing is well granted. *)
Lemma well_granted_only {A} operations (m : M A) :
  emits (only operations) m -> ~ In "grant_permissions" operations ->
  well_granted m.
Proof.
  intros E other s. eapply Forall_impl; [| apply E].
  intros [] O; simpl; auto. contradiction.
Qed.

Lemma well_granted_emits {A} (P : call -> Prop) (m : M A) :
  emits P m -> (forall c tr, P c -> justified tr c) -> well_granted m.
Proof.
  intros E J s. eapply Forall_impl; [| apply E]. intros c. apply J.
Qed.

Lemma grant_table_grants name t :
  emits (table_grant name t) (grant_table remote name t).
Proof.
  unfold grant_table.
  apply emits_bind; [emits_step |]. intros _.
  apply emits_bind_eval. intros [|] plain; [emits_step |].
  apply emits_bind_eval. intros table_name named.
  apply emits_bind; [| intros _; emits_step].
  apply emits_invoke. simpl. now exists table_name.
Qed.

Lemma grant_tables_grant name tables :
  emits (fun c => exists t, In t tables /\ is_grant c = true /\ table_grant name t c)
        (for_each tables (grant_table remote name)).
Proof.
  apply emits_for_each. intros t I.
  pose proof (grant_table_grants name t) as G.
  pose proof (grant_table_only name t) as O.
  intros s. specialize (G s). specialize (O s).
  rewrite Forall_forall in *. intros c made. exists t.
  split; [exact I |]. split; [| now apply G].
  specialize (O c made). unfold only in O. destruct c; simpl in *;
    intuition discriminate.
Qed.

(** What processing the database record [d] grants is for [d] or its
    tables, and [d] is then no resource link. *)
Lemma grant_database_justified fuel d s :
  Forall (fun c =>
            match c with
            | GrantPermissions _ resource _ _ =>
                for_database (trace_of (grant_database remote fuel d s)) d resource
            | _ => True
            end)
         (calls (trace_of (grant_database remote fuel d s))).
Proof.
  unfold grant_database. rewrite bind_eval.
  destruct (subscript d "Name") as [name | e |] eqn:named;
    try (simpl; constructor).
  rewrite bind_print, bind_eval.
  destruct (py_contains "TargetDatabase" d) as [[|] | e |] eqn:plain;
    try (simpl; constructor).
  rewrite bind_invoke.
  destruct (remote (GrantPermissions _ _ _ _) (world s)) as [[v | info] w1].
  2:{ simpl. constructor; [| constructor].
      exists name. repeat split; auto. }
  rewrite bind_eval.
  destruct d as [| b | z | x | l | entries]; try discriminate.
  rewrite bind_invoke. cbn [world stdin].
  destruct (remote (UpdateDatabase _ _) w1) as [[v' | info] w2].
  2:{ simpl. constructor; [| constructor; [exact I | constructor]].
      exists name. repeat split; auto. }
  match goal with
  | |- context [bind (paginate_all remote fuel ?op ?key) ?f ?s0] =>
      destruct (paginate_all remote fuel op key s0) as [[[tables | e |] s3] t1]
        eqn:listing_;
      [ rewrite (bind_Ret _ f _ listing_);
        pose proof (grant_tables_grant name tables s3) as granted_;
        destruct (for_each tables (grant_table remote name) s3) as [[o s4] t2]
      | rewrite (bind_Exc _ f _ listing_)
      | rewrite (bind_NoFuel _ f _ listing_) ];
      pose proof (paginate_all_asks fuel op key s0) as asked_;
      rewrite listing_ in asked_
  end;
    cbn [outcome_of state_of trace_of fst snd calls] in *.
  - constructor; [exists name; repeat split; auto |].
    constructor; [exact I |].
    rewrite calls_app. apply Forall_app. split.
    + eapply Forall_impl; [| exact asked_]. intros c (token & ->). exact I.
    + eapply Forall_impl; [| exact granted_].
      intros [] (t & member & grant & G); try discriminate.
      destruct G as (table_name & plain_t & named_t & ->).
      exists name. repeat split; auto. right. exists t, table_name.
      repeat split; auto.
      apply (@lists_mono [EPrint [Lit "... Granting permissions on database ";
                                  Fmt name; Lit " ..."];
                          ECall (GrantPermissions iam_allowed_principal
                                   (database_resource name)
                                   (VList [VStr "ALL"]) (VList [])) (Ok v);
                          ECall (UpdateDatabase name
                                   (database_input entries name)) (Ok v')]
                         t1 t2).
      eapply paginate_all_lists with (name := "get_tables");
        [reflexivity | exact listing_ | exact member].
  - constructor; [exists name; repeat split; auto |].
    constructor; [exact I |].
    eapply Forall_impl; [| exact asked_]. intros c (token & ->). exact I.
  - constructor; [exists name; repeat split; auto |].
    constructor; [exact I |].
    eapply Forall_impl; [| exact asked_]. intros c (token & ->). exact I.
Qed.

Lemma grant_each_database_justified fuel databases :
  forall listed_before s,
    (forall d, In d databases ->
               lists listed_before GetDatabases "DatabaseList" d) ->
    Forall (justified
              (listed_before ++
               trace_of (for_each databases (grant_database remote fuel) s)))
           (calls (trace_of (for_each databases (grant_database remote fuel) s))).
Proof.
  induction databases as [| d databases IH]; intros listed_before s known;
    cbn [for_each].
  - constructor.
  - pose proof (grant_database_justified fuel d s) as first.
    assert (lift : forall behind,
              Forall (justified
                        (listed_before ++
                         trace_of (grant_database remote fuel d s) ++ behind))
                     (calls (trace_of (grant_database remote fuel d s)))).
    { intros behind. eapply Forall_impl; [| exact first].
      intros [] J; simpl; auto. right. exists d. split.
      - apply lists_mono_r. apply known. now left.
      - now apply for_database_mono. }
    unfold bind.
    destruct (grant_database remote fuel d s) as [[[[] | e |] s1] t1];
      cbn [outcome_of state_of trace_of fst snd] in *;
      try (specialize (lift []); now rewrite app_nil_r in lift).
    specialize (IH (listed_before ++ t1) s1).
    destruct (for_each databases (grant_database remote fuel) s1)
      as [[o s2] t2].
    cbn [outcome_of state_of trace_of fst snd] in *.
    rewrite calls_app. apply Forall_app. split; [apply lift |].
    rewrite app_assoc. apply IH. intros d' member.
    apply lists_mono_r. apply known. now right.
Qed.

Lemma grant_databases_well_granted fuel :
  well_granted (grant_databases remote fuel).
Proof.
  intros s. unfold grant_databases. rewrite bind_print.
  cbn [outcome_of state_of trace_of fst snd calls].
  match goal with
  | |- context [bind (paginate_all remote fuel ?op ?key) ?f s] =>
      pose proof (paginate_all_asks fuel op key s) as asked_;
      destruct (paginate_all remote fuel op key s) as [[[databases | e |] s1] t1]
        eqn:listing_;
      [ rewrite (bind_Ret _ f _ listing_)
      | rewrite (bind_Exc _ f _ listing_)
      | rewrite (bind_NoFuel _ f _ listing_) ]
  end;
    cbn [outcome_of state_of trace_of fst snd] in *;
    try (eapply Forall_impl; [| exact asked_]; intros c (token & ->); exact I).
  rewrite calls_app. apply Forall_app. split.
  - eapply Forall_impl; [| exact asked_]. intros c (token & ->). exact I.
  - pose proof (@grant_each_database_justified fuel databases
                  (EPrint [Lit "4. Granting ALL to IAM_ALLOWED_PRINCIPALS for existing databases and tables..."]
                   :: t1) s1) as loop.
    cbn [app] in loop. apply loop. intros d member.
    apply lists_cons.
    eapply paginate_all_lists with (name := "get_databases");
      [reflexivity | exact listing_ | exact member].
Qed.

Lemma main_well_granted fuel args : well_granted (main remote recursion_limit fuel args).
Proof.
  unfold main.
  apply well_granted_bind.
  { apply (well_granted_only (configure_only args)).
    simpl. intuition discriminate. }
  intros account_id. apply well_granted_bind.
  { apply (well_granted_only (prompt_only confirmation)). simpl. tauto. }
  intros _. apply well_granted_bind.
  { apply well_granted_emits with (P := fun c => c = Client "glue");
      [now apply emits_invoke | now intros c tr ->]. }
  intros _. apply well_granted_bind.
  { apply well_granted_emits with (P := fun c => c = Client "lakeformation");
      [now apply emits_invoke | now intros c tr ->]. }
  intros _. apply well_granted_bind.
  { apply (well_granted_only modify_data_lake_settings_only).
    simpl. intuition discriminate. }
  intros _. apply well_granted_bind.
  { apply (well_granted_only (deregister_locations_only fuel)).
    simpl. intuition discriminate. }
  intros _. apply well_granted_bind.
  { apply well_granted_emits with
      (P := fun c => c = GrantPermissions iam_allowed_principal catalog_resource
                          (VList [VStr "CREATE_DATABASE"]) (VList [])).
    - unfold grant_catalog. repeat emits_step.
    - intros c tr ->. now left. }
  intros _. apply well_granted_bind; [apply grant_databases_well_granted |].
  intros _. apply well_granted_bind.
  { apply (well_granted_only (revoke_permissions_only fuel account_id)).
    simpl. intuition discriminate. }
  intros _. apply well_granted_emits with (P := fun _ => False);
    [apply emits_print | tauto].
Qed.

(** C5. Processing a database record that has a [TargetDatabase] key, or a
    table record that has a [TargetTable] key, makes no call at all.  And
    every [grant_permissions] call of a run is on the catalog, on the name of
    a listed database record without [TargetDatabase] key, or on the name of
    a listed table record without [TargetTable] key in such a database: none
    is for a resource link. *)
Theorem resource_links_never_granted :
  (forall fuel d s,
     py_contains "TargetDatabase" d = Ret true ->
     calls (trace_of (grant_database remote fuel d s)) = []) /\
  (forall name t s,
     py_contains "TargetTable" t = Ret true ->
     calls (trace_of (grant_table remote name t s)) = []) /\
  (forall fuel args s principal resource permissions with_grant,
     In (GrantPermissions principal resource permissions with_grant)
        (calls (trace_of (main remote recursion_limit fuel args s))) ->
     resource = catalog_resource \/
     exists d name,
       lists (trace_of (main remote recursion_limit fuel args s)) GetDatabases "DatabaseList" d /\
       subscript d "Name" = Ret name /\
       py_contains "TargetDatabase" d = Ret false /\
       (resource = database_resource name \/
        exists t table_name,
          lists (trace_of (main remote recursion_limit fuel args s)) (GetTables name) "TableList" t /\
          py_contains "TargetTable" t = Ret false /\
          subscript t "Name" = Ret table_name /\
          resource = table_resource name table_name)).
Proof.
  split; [| split].
  - intros fuel d s link. unfold grant_database. rewrite bind_eval.
    destruct (subscript d "Name") as [name | e |]; try reflexivity.
    rewrite bind_print, bind_eval, link. reflexivity.
  - intros name t s link. unfold grant_table.
    rewrite bind_print, bind_eval, link. reflexivity.
  - intros fuel args s principal resource permissions with_grant made.
    pose proof (main_well_granted fuel args s) as G.
    rewrite Forall_forall in G. specialize (G _ made). simpl in G.
    destruct G as [E | (d & L & name & N & P & G)]; [now left | right].
    exists d, name. repeat split; auto.
Qed.

(** ** What the revoke phase attempts *)

Lemma revoke_each_attempted account_id l :
  forall s s' t,
    for_each l (revoke remote account_id) s = (Ret tt, s', t) ->
    forall p principal identifier d permissions with_grant,
      In p l ->
      subscript p "Principal" = Ret principal ->
      subscript principal "DataLakePrincipalIdentifier" = Ret identifier ->
      identifier <> VStr "IAM_ALLOWED_PRINCIPALS" ->
      subscript p "Resource" = Ret (VDict d) ->
      py_eq (get_catalog_id_dict (VDict d)) account_id = true ->
      subscript p "Permissions" = Ret permissions ->
      subscript p "PermissionsWithGrantOption" = Ret with_grant ->
      exists r,
        In (ECall (RevokePermissions principal (VDict d) permissions with_grant) r) t /\
        forall info, r = Err info -> In (EPrint [FmtExn (RemoteError info)]) t.
Proof.
  induction l as [| p0 l IH]; intros s s' t run p principal identifier d
    permissions with_grant member Hp Hi other Hr owned Hperm Hgrant.
  - contradiction.
  - cbn [for_each] in run.
    apply bind_completed in run as ([] & s1 & t1 & t2 & one & run & ->).
    destruct member as [-> | member].
    + rewrite (revoke_attempt _ _ s Hp Hi other Hr owned) in one.
      unfold try_except in one.
      rewrite bind_eval, Hperm, bind_eval, Hgrant, bind_invoke in one.
      destruct (remote (RevokePermissions principal (VDict d) permissions
                          with_grant) (world s)) as [[v | info] w1];
        unfold after in one; simpl in one; inversion one; subst.
      * exists (Ok v). split; [simpl; tauto | discriminate].
      * exists (Err info). split; [simpl; tauto |].
        intros info' E. inversion E; subst. simpl. tauto.
    + destruct (IH _ _ _ run p principal identifier d permissions with_grant
                  member Hp Hi other Hr owned Hperm Hgrant) as (r & made & printed).
      exists r. split; [apply in_or_app; now right |].
      intros info E. apply in_or_app. right. now apply printed.
Qed.

Lemma revoke_permissions_completed fuel account_id s s' t :
  revoke_permissions remote fuel account_id s = (Ret tt, s', t) ->
  exists s1 t1 t2,
    for_each (listed "list_permissions" "PrincipalResourcePermissions" t)
             (revoke remote account_id) s1 = (Ret tt, s', t2) /\
    t = EPrint [Lit "5. Revoking all the permissions except IAM_ALLOWED_PRINCIPALS..."]
        :: t1 ++ t2.
Proof.
  unfold revoke_permissions. intros run.
  apply bind_print_completed in run as (t' & run & ->).
  apply bind_completed in run as (permissions & s1 & t1 & t2 & listing_ & run & ->).
  apply bind_eval_completed in run as (l & iter & run).
  assert (known : l = listed "list_permissions" "PrincipalResourcePermissions" t1).
  { eapply list_all_completed; [| exact listing_ | exact iter]. reflexivity. }
  exists s1, t1, t2. split; [| reflexivity].
  change (EPrint ?line :: t1 ++ t2) with ([EPrint line] ++ t1 ++ t2).
  rewrite !listed_app.
  assert (none : listed "list_permissions" "PrincipalResourcePermissions" t2 = []).
  { unfold listed.
    assert (loop : emits (only ["revoke_permissions"])
                         (for_each l (revoke remote account_id))).
    { apply emits_for_each. intros p _. apply revoke_only. }
    destruct (phase_silent "list_permissions" run loop) as [-> _];
      [simpl; intuition discriminate | reflexivity]. }
  rewrite none, app_nil_r. unfold listed at 1. simpl. now rewrite <- known.
Qed.

(** C2, as the script has it.  In a run that completed, for every listed
    permission record whose principal is not IAM_ALLOWED_PRINCIPALS and
    whose resource [get_catalog_id] attributes to the account,
    [revoke_permissions] was called with the record's principal, resource
    and permissions; when that call failed, its error was printed and the
    run went on. *)
Theorem owned_grants_are_revoked fuel args s s' tr :
  main remote recursion_limit fuel args s = (Ret tt, s', tr) ->
  forall account_id p principal identifier d permissions with_grant,
    outcome_of (configure remote args s) = Ret account_id ->
    In p (listed "list_permissions" "PrincipalResourcePermissions" tr) ->
    subscript p "Principal" = Ret principal ->
    subscript principal "DataLakePrincipalIdentifier" = Ret identifier ->
    identifier <> VStr "IAM_ALLOWED_PRINCIPALS" ->
    subscript p "Resource" = Ret (VDict d) ->
    py_eq (get_catalog_id_dict (VDict d)) account_id = true ->
    subscript p "Permissions" = Ret permissions ->
    subscript p "PermissionsWithGrantOption" = Ret with_grant ->
    exists r,
      In (ECall (RevokePermissions principal (VDict d) permissions with_grant) r) tr /\
      forall info, r = Err info -> In (EPrint [FmtExn (RemoteError info)]) tr.
Proof.
  intros run account_id p principal identifier d permissions with_grant
    account member Hp Hi other Hr owned Hperm Hgrant.
  destruct (@main_completed _ _ _ _ _ run)
    as [account_id' s0 t0 s1 t1 s2 glue lake s3 t3 s4 t4 s5 t5 s6 t6 t7
        R0 R1 R3 R4 R5 R6 R7 whole].
  rewrite R0 in account. simpl in account. inversion account; subst account_id'.
  destruct (@revoke_permissions_completed _ _ _ _ _ R7) as (sl & tl & t2 & loop & shape).
  assert (member7 : In p (listed "list_permissions" "PrincipalResourcePermissions" t7)).
  { revert member. unfold listed. rewrite whole, !answers_to_app.
    destruct (phase_silent "list_permissions" R0 (configure_only args))
      as [-> _]; [simpl; intuition discriminate |].
    destruct (phase_silent "list_permissions" R1 (prompt_only confirmation))
      as [-> _]; [simpl; tauto |].
    destruct (phase_silent "list_permissions" R3 modify_data_lake_settings_only)
      as [-> _]; [simpl; intuition discriminate |].
    destruct (phase_silent "list_permissions" R4 (deregister_locations_only fuel))
      as [-> _]; [simpl; intuition discriminate |].
    destruct (phase_silent "list_permissions" R5 grant_catalog_only)
      as [-> _]; [simpl; intuition discriminate |].
    destruct (phase_silent "list_permissions" R6 (grant_databases_only fuel))
      as [-> _]; [simpl; intuition discriminate |].
    simpl. now rewrite app_nil_r. }
  destruct (@revoke_each_attempted _ _ _ _ _ loop p principal identifier d
              permissions with_grant member7 Hp Hi other Hr owned
              Hperm Hgrant) as (r & made & printed).
  assert (part : forall e, In e t2 -> In e tr).
  { intros e I. rewrite whole, shape. rewrite !in_app_iff. simpl.
    rewrite !in_app_iff. tauto. }
  exists r. split; [now apply part |].
  intros info E. apply part. now apply printed.
Qed.

(** * Further properties of the script *)

(** ** What is granted, and to whom *)

Lemma grant_table_data name t : emits data_grant (grant_table remote name t).
Proof.
  unfold grant_table.
  apply emits_bind; [emits_step |]. intros _.
  apply emits_bind; [emits_step |]. intros [|]; [emits_step |].
  apply emits_bind; [emits_step |]. intros table_name.
  apply emits_bind; [| intros _; emits_step].
  apply emits_invoke. simpl. repeat split. right. now exists name, table_name.
Qed.

Lemma grant_database_data fuel d : emits data_grant (grant_database remote fuel d).
Proof.
  unfold grant_database.
  apply emits_bind; [emits_step |]. intros name.
  apply emits_bind; [emits_step |]. intros _.
  apply emits_bind; [emits_step |]. intros [|]; [emits_step |].
  apply emits_bind.
  { apply emits_invoke. simpl. repeat split. left. now exists name. }
  intros _. apply emits_bind; [emits_step |]. intros input_.
  apply emits_bind; [now apply emits_invoke |]. intros _.
  apply emits_bind.
  { eapply emits_only;
      [apply paginate_all_only with (name := "get_tables"); reflexivity |].
    intros [] I; simpl in *; intuition discriminate. }
  intros tables. apply emits_for_each. intros t _. apply grant_table_data.
Qed.

Lemma grant_databases_data fuel : emits data_grant (grant_databases remote fuel).
Proof.
  unfold grant_databases.
  apply emits_bind; [emits_step |]. intros _.
  apply emits_bind.
  { eapply emits_only;
      [apply paginate_all_only with (name := "get_databases"); reflexivity |].
    intros [] I; simpl in *; intuition discriminate. }
  intros databases. apply emits_for_each. intros d _. apply grant_database_data.
Qed.

Lemma grant_catalog_exact :
  emits (fun c => c = GrantPermissions iam_allowed_principal catalog_resource
                        (VList [VStr "CREATE_DATABASE"]) (VList []))
        (grant_catalog remote).
Proof. unfold grant_catalog. repeat emits_step. Qed.

(** Whatever the run, every [grant_permissions] call is to
    IAM_ALLOWED_PRINCIPALS and without grant option: CREATE_DATABASE when it
    is on the catalog, ALL when it is on a database or a table.  The script
    grants nothing to anyone else. *)
Theorem grants_go_to_the_sentinel fuel args s
    principal resource permissions with_grant :
  In (GrantPermissions principal resource permissions with_grant)
     (calls (trace_of (main remote recursion_limit fuel args s))) ->
  principal = iam_allowed_principal /\
  with_grant = VList [] /\
  ((resource = catalog_resource /\
    permissions = VList [VStr "CREATE_DATABASE"]) \/
   (permissions = VList [VStr "ALL"] /\
    ((exists name, resource = database_resource name) \/
     (exists database_name name,
        resource = table_resource database_name name)))).
Proof.
  intros made.
  assert (F : Forall sentinel_grant (calls (trace_of (main remote recursion_limit fuel args s)))).
  { apply main_emits; try exact I.
    - eapply emits_only; [apply configure_only |].
      intros [] O; simpl in *; intuition discriminate.
    - eapply emits_only; [apply modify_data_lake_settings_only |].
      intros [] O; simpl in *; intuition discriminate.
    - eapply emits_only; [apply deregister_locations_only |].
      intros [] O; simpl in *; intuition discriminate.
    - eapply emits_impl; [| apply grant_catalog_exact].
      intros c ->. simpl. repeat split. now left.
    - eapply emits_impl; [| apply grant_databases_data].
      intros [] D; simpl in *; auto.
      destruct D as (-> & -> & -> & where_). repeat split. now right.
    - intros account_id _.
      eapply emits_only; [apply revoke_permissions_only |].
      intros [] O; simpl in *; intuition discriminate. }
  rewrite Forall_forall in F. exact (F _ made).
Qed.

(** ** What is put into a database *)

Lemma grant_database_faithful fuel d :
  emits faithful_update (grant_database remote fuel d).
Proof.
  unfold grant_database.
  apply emits_bind; [emits_step |]. intros name.
  apply emits_bind; [emits_step |]. intros _.
  apply emits_bind; [emits_step |]. intros [|]; [emits_step |].
  apply emits_bind; [now apply emits_invoke |]. intros _.
  apply emits_bind_eval. intros input_ built.
  apply emits_bind.
  { apply emits_invoke. simpl.
    destruct d as [| b | z | x | l | entries]; try discriminate.
    inversion built; subst.
    destruct (database_input_entries entries name)
      as (put & -> & named & _ & _ & permitted & _ & within).
    now exists put. }
  intros _. apply emits_bind.
  { eapply emits_only;
      [apply paginate_all_only with (name := "get_tables"); reflexivity |].
    intros [] I; simpl in *; intuition discriminate. }
  intros tables. apply emits_for_each. intros t _.
  eapply emits_only; [apply grant_table_only |].
  intros [] I; simpl in *; intuition discriminate.
Qed.

(** Whatever the run, every [update_database] call puts a [DatabaseInput]
    whose [Name] is the name of the database it updates (the script renames
    nothing), whose [CreateTableDefaultPermissions] is the sentinel grant of
    ALL, and whose keys are among [Name], [Description], [LocationUri],
    [Parameters] and [CreateTableDefaultPermissions]. *)
Theorem updates_keep_the_name fuel args s name input :
  In (UpdateDatabase name input) (calls (trace_of (main remote recursion_limit fuel args s))) ->
  exists entries,
    input = VDict entries /\
    dict_get entries "Name" = Some name /\
    dict_get entries "CreateTableDefaultPermissions" = Some all_to_iam_allowed /\
    incl (keys entries)
         ["Name"; "Description"; "LocationUri"; "Parameters";
          "CreateTableDefaultPermissions"].
Proof.
  intros made.
  assert (F : Forall faithful_update (calls (trace_of (main remote recursion_limit fuel args s)))).
  { apply main_emits; try exact I.
    - eapply emits_only; [apply configure_only |].
      intros [] O; simpl in *; intuition discriminate.
    - eapply emits_only; [apply modify_data_lake_settings_only |].
      intros [] O; simpl in *; intuition discriminate.
    - eapply emits_only; [apply deregister_locations_only |].
      intros [] O; simpl in *; intuition discriminate.
    - eapply emits_only; [apply grant_catalog_only |].
      intros [] O; simpl in *; intuition discriminate.
    - unfold grant_databases.
      apply emits_bind; [emits_step |]. intros _.
      apply emits_bind.
      { eapply emits_only;
          [apply paginate_all_only with (name := "get_databases"); reflexivity |].
        intros [] O; simpl in *; intuition discriminate. }
      intros databases. apply emits_for_each. intros d _.
      apply grant_database_faithful.
    - intros account_id _.
      eapply emits_only; [apply revoke_permissions_only |].
      intros [] O; simpl in *; intuition discriminate. }
  rewrite Forall_forall in F. exact (F _ made).
Qed.

(** ** The order of the calls *)

Lemma emits_and {A} (P Q : call -> Prop) (m : M A) :
  emits P m -> emits Q m -> emits (fun c => P c /\ Q c) m.
Proof.
  intros HP HQ s. specialize (HP s). specialize (HQ s).
  rewrite Forall_forall in *. auto.
Qed.

Lemma in_phases_app lo mid mid' hi l1 l2 :
  lo <= mid -> mid <= mid' -> mid' <= hi ->
  in_phases lo mid l1 -> in_phases mid' hi l2 -> in_phases lo hi (l1 ++ l2).
Proof.
  intros low middle high (sorted1 & within1) (sorted2 & within2). split.
  - rewrite map_app. induction l1 as [| c l1 IH]; simpl in *; [exact sorted2 |].
    inversion sorted1 as [| ? ? sorted1' smaller]; subst.
    inversion within1 as [| ? ? bound within1']; subst.
    constructor; [now apply IH |].
    apply Forall_app. split; [exact smaller |].
    rewrite Forall_map. eapply Forall_impl; [| exact within2].
    intros c' bound'. simpl in *. lia.
  - apply Forall_app. split.
    + eapply Forall_impl; [| exact within1]. intros c bound. simpl in *. lia.
    + eapply Forall_impl; [| exact within2]. intros c bound. simpl in *. lia.
Qed.

Lemma in_phases_wider lo mid hi l :
  mid <= hi -> in_phases lo mid l -> in_phases lo hi l.
Proof.
  intros high (sorted & within). split; [exact sorted |].
  eapply Forall_impl; [| exact within]. intros c bound. simpl in *. lia.
Qed.

(** Calls that are all of one step are in step order. *)
Lemma in_phases_constant k l :
  Forall (fun c => phase_of c = k) l -> in_phases k k l.
Proof.
  intros same. split.
  - induction l as [| c l IH]; simpl; [constructor |].
    inversion same as [| ? ? here same']; subst.
    constructor; [now apply IH |].
    rewrite Forall_map. eapply Forall_impl; [| exact same'].
    intros c' there. simpl in *. lia.
  - eapply Forall_impl; [| exact same]. intros c here. simpl in *. lia.
Qed.

Lemma ordered_emits {A} k (m : M A) :
  emits (fun c => phase_of c = k) m -> ordered k k m.
Proof. intros E s. apply in_phases_constant. apply E. Qed.

Lemma ordered_bind {A B} lo mid mid' hi (m : M A) (f : A -> M B) :
  lo <= mid -> mid <= mid' -> mid' <= hi ->
  ordered lo mid m -> (forall a, ordered mid' hi (f a)) ->
  ordered lo hi (bind m f).
Proof.
  intros low middle high Hm Hf s. unfold bind. specialize (Hm s).
  destruct (m s) as [[[a | e |] s1] t1]; simpl in *;
    try (apply in_phases_wider with (mid := mid); [lia | exact Hm]).
  specialize (Hf a s1). destruct (f a s1) as [[o s2] t2]. simpl in *.
  rewrite calls_app. now apply in_phases_app with (mid := mid) (mid' := mid').
Qed.

Lemma ordered_only {A} k operations (m : M A) :
  emits (only operations) m ->
  (forall c, In (operation c) operations -> phase_of c = k) ->
  ordered k k m.
Proof. intros E P. apply ordered_emits. now apply emits_only with operations. Qed.

(** Whatever the run, its calls come in the order of the steps of the
    script: the session and the identity, then the data lake settings, the
    storage locations, the grant on the catalog, the databases and their
    tables, and last the permissions.  In particular every grant precedes
    the listing of the permissions and every revocation. *)
Theorem calls_follow_the_steps fuel args s :
  StronglySorted le (map phase_of (calls (trace_of (main remote recursion_limit fuel args s)))) /\
  forall before first between second behind,
    calls (trace_of (main remote recursion_limit fuel args s)) =
      before ++ first :: between ++ second :: behind ->
    phase_of first <= phase_of second.
Proof.
  assert (O : ordered 0 5 (main remote recursion_limit fuel args)).
  { unfold main.
    apply ordered_bind with (mid := 0) (mid' := 0); try lia.
    { apply ordered_only with (operations := ["Session"; "client"; "get_caller_identity"]);
        [apply configure_only |].
      intros [] I; simpl in *; intuition discriminate. }
    intros account_id.
    apply ordered_bind with (mid := 0) (mid' := 0); try lia.
    { apply ordered_only with (operations := []); [apply prompt_only |].
      intros c []. }
    intros _. apply ordered_bind with (mid := 0) (mid' := 0); try lia.
    { apply ordered_emits. now apply emits_invoke. }
    intros _. apply ordered_bind with (mid := 0) (mid' := 1); try lia.
    { apply ordered_emits. now apply emits_invoke. }
    intros _. apply ordered_bind with (mid := 1) (mid' := 2); try lia.
    { eapply ordered_only; [apply modify_data_lake_settings_only |].
      intros [] I; simpl in *; intuition discriminate. }
    intros _. apply ordered_bind with (mid := 2) (mid' := 3); try lia.
    { eapply ordered_only; [apply deregister_locations_only |].
      intros [] I; simpl in *; intuition discriminate. }
    intros _. apply ordered_bind with (mid := 3) (mid' := 4); try lia.
    { apply ordered_emits. eapply emits_impl; [| apply grant_catalog_exact].
      intros c ->. reflexivity. }
    intros _. apply ordered_bind with (mid := 4) (mid' := 5); try lia.
    { apply ordered_emits.
      eapply emits_impl;
        [| apply (emits_and (grant_databases_only fuel) (grant_databases_data fuel))].
      intros [] (O & D); unfold only in O; simpl in *;
        try reflexivity; try (intuition discriminate).
      destruct D as (_ & _ & _ & [(name & ->) | (database_name & name & ->)]);
        reflexivity. }
    intros _. apply ordered_bind with (mid := 5) (mid' := 5); try lia.
    { eapply ordered_only; [apply revoke_permissions_only |].
      intros [] I; simpl in *; intuition discriminate. }
    intros _. apply ordered_emits. apply emits_print. }
  destruct (O s) as (sorted & _). split; [exact sorted |].
  intros before first between second behind shape.
  rewrite shape in sorted. rewrite map_app in sorted. simpl in sorted.
  clear shape. induction before as [| c before IH]; simpl in sorted.
  - inversion sorted as [| ? ? _ smaller]; subst.
    rewrite map_app in smaller. apply Forall_app in smaller as (_ & smaller).
    simpl in smaller. now inversion smaller.
  - inversion sorted; subst. auto.
Qed.

(** ** The prompt, whatever is typed *)

Lemma calls_asked message l : calls (map (asked message) l) = [].
Proof. induction l; simpl; auto. Qed.

Lemma prompt_rec_ends message depth (s : state) :
  calls (trace_of (prompt_rec depth message s)) = [] /\
  world (state_of (prompt_rec depth message s)) = world s /\
  (outcome_of (prompt_rec depth message s) = Ret tt \/
   outcome_of (prompt_rec depth message s) = Exc (SystemExit 0) \/
   outcome_of (prompt_rec depth message s) = Exc EOFError \/
   outcome_of (prompt_rec depth message s) = Exc RecursionError) /\
  (outcome_of (prompt_rec depth message s) = Exc EOFError <->
   Forall (fun a => ~ In (lower a) ["n"; "no"; "y"; "yes"]) (stdin s) /\
   length (stdin s) < depth) /\
  (outcome_of (prompt_rec depth message s) = Exc RecursionError <->
   Forall (fun a => ~ In (lower a) ["n"; "no"; "y"; "yes"])
          (firstn depth (stdin s)) /\
   depth <= length (stdin s)).
Proof.
  revert s. induction depth as [| depth IH]; intros [w l].
  - cbn [prompt_rec raise outcome_of state_of trace_of fst snd calls world stdin
         firstn].
    split; [reflexivity |]. split; [reflexivity |].
    split; [right; right; right; reflexivity |]. split.
    + split; [discriminate | intros (_ & bound); lia].
    + split; [intros _; split; [constructor | lia] | reflexivity].
  - destruct l as [| a rest].
    + cbn [prompt_rec]. unfold bind, input.
      cbn [stdin world outcome_of state_of trace_of fst snd calls firstn length].
      split; [reflexivity |]. split; [reflexivity |].
      split; [right; right; left; reflexivity |]. split.
      * split; [intros _; split; [constructor | lia] | reflexivity].
      * split; [discriminate | intros (_ & bound); lia].
    + rewrite prompt_rec_answer.
      cbn [stdin world firstn length].
      destruct (str_in (lower a) ["n"; "no"]) eqn:no.
      { apply str_in_In in no.
        cbn [outcome_of state_of trace_of fst snd calls world asked].
        split; [reflexivity |]. split; [reflexivity |].
        split; [right; left; reflexivity |].
        split; (split; [discriminate |]); intros (all & _);
          inversion all as [| ? ? other _]; subst; exfalso; apply other;
          simpl in *; tauto. }
      destruct (str_in (lower a) ["y"; "yes"]) eqn:yes.
      { apply str_in_In in yes.
        cbn [outcome_of state_of trace_of fst snd calls world asked].
        split; [reflexivity |]. split; [reflexivity |].
        split; [left; reflexivity |].
        split; (split; [discriminate |]); intros (all & _);
          inversion all as [| ? ? other _]; subst; exfalso; apply other;
          simpl in *; tauto. }
      assert (other : ~ In (lower a) ["n"; "no"; "y"; "yes"]).
      { apply str_in_not_In in no. apply str_in_not_In in yes.
        intros I. simpl in *. tauto. }
      destruct (IH {| world := w; stdin := rest |})
        as (quiet & same & ends & eof & deep).
      cbn [stdin world] in *.
      cbn [outcome_of state_of trace_of fst snd calls asked].
      split; [exact quiet |]. split; [exact same |]. split; [exact ends |].
      split.
      * rewrite eof. split.
        -- intros (all & bound). split; [now constructor | lia].
        -- intros (all & bound). inversion all; subst. split; [assumption | lia].
      * rewrite deep. split.
        -- intros (all & bound). split; [now constructor | lia].
        -- intros (all & bound). inversion all; subst. split; [assumption | lia].
Qed.

(** Whatever is typed, the prompt makes no call and leaves the world as it
    is, and it ends in one of four ways: it returns, it exits with status 0,
    it meets the end of the input, or it exceeds the depth the interpreter
    allows.  It meets the end of the input exactly when no typed line is a
    yes or a no and the lines are fewer than the nested calls allowed; it
    raises [RecursionError] exactly when the first [recursion_limit] lines
    are all there and none of them is a yes or a no. *)
Theorem prompt_ends message (s : state) :
  calls (trace_of (prompt recursion_limit message s)) = [] /\
  world (state_of (prompt recursion_limit message s)) = world s /\
  (outcome_of (prompt recursion_limit message s) = Ret tt \/
   outcome_of (prompt recursion_limit message s) = Exc (SystemExit 0) \/
   outcome_of (prompt recursion_limit message s) = Exc EOFError \/
   outcome_of (prompt recursion_limit message s) = Exc RecursionError) /\
  (outcome_of (prompt recursion_limit message s) = Exc EOFError <->
   Forall (fun a => ~ In (lower a) ["n"; "no"; "y"; "yes"]) (stdin s) /\
   length (stdin s) < recursion_limit) /\
  (outcome_of (prompt recursion_limit message s) = Exc RecursionError <->
   Forall (fun a => ~ In (lower a) ["n"; "no"; "y"; "yes"])
          (firstn recursion_limit (stdin s)) /\
   recursion_limit <= length (stdin s)).
Proof. unfold prompt. apply prompt_rec_ends. Qed.

Lemma prompt_rec_accepted message depth (s s' : state) t :
  prompt_rec depth message s = (Ret tt, s', t) ->
  exists answer,
    In (EInput message (Some answer)) t /\ In (lower answer) ["y"; "yes"].
Proof.
  revert s s' t. induction depth as [| depth IH]; intros [w l] s' t.
  - cbn [prompt_rec]. discriminate.
  - destruct l as [| a rest].
    + cbn [prompt_rec]. unfold bind, input. cbn [stdin]. discriminate.
    + rewrite prompt_rec_answer.
      destruct (str_in (lower a) ["n"; "no"]); [discriminate |].
      destruct (str_in (lower a) ["y"; "yes"]) eqn:yes.
      * intros E. inversion E; subst. exists a. split; [now left |].
        now apply str_in_In.
      * destruct (prompt_rec depth message {| world := w; stdin := rest |})
          as [[o s1] t1] eqn:deeper.
        cbn [outcome_of state_of trace_of fst snd].
        intros E. inversion E; subst.
        destruct (IH _ _ _ deeper) as (answer & typed & accepted).
        exists answer. split; [now right | exact accepted].
Qed.

Lemma prompt_accepted message (s s' : state) t :
  prompt recursion_limit message s = (Ret tt, s', t) ->
  exists answer,
    In (EInput message (Some answer)) t /\ In (lower answer) ["y"; "yes"].
Proof. unfold prompt. apply prompt_rec_accepted. Qed.

(** Whatever the run, a call that changes something on the remote side
    (settings, locations, grants, databases, revocations) is made only after
    a line that lowers to "y" or "yes" was typed at the confirmation
    prompt. *)
Theorem no_change_without_consent fuel args s c :
  In c (calls (trace_of (main remote recursion_limit fuel args s))) ->
  mutating c = true ->
  exists answer,
    In (EInput confirmation (Some answer)) (trace_of (main remote recursion_limit fuel args s)) /\
    In (lower answer) ["y"; "yes"].
Proof.
  intros made changes.
  assert (harmless : forall t,
            Forall (only ["Session"; "client"; "get_caller_identity"]) (calls t) ->
            ~ In c (calls t)).
  { intros t F I. rewrite Forall_forall in F. specialize (F _ I).
    unfold only in F. destruct c; simpl in *; try discriminate;
      intuition discriminate. }
  pose proof (configure_only args s) as quiet.
  unfold main in *.
  destruct (configure remote args s) as [[[account_id | e |] s0] t0] eqn:C.
  - rewrite (bind_Ret _ _ _ C) in *.
    cbn [outcome_of state_of trace_of fst snd] in *.
    match goal with
    | _ : context [bind (prompt recursion_limit confirmation) ?f s0] |- _ => set (rest := f) in *
    end.
    pose proof (emits_prompt (fun _ => False) confirmation s0) as silent.
    destruct (prompt recursion_limit confirmation s0) as [[[[] | e |] s1] t1] eqn:P.
    + destruct (@prompt_accepted _ _ _ _ P) as (answer & typed & accepted).
      exists answer. split; [| exact accepted].
      rewrite (bind_Ret _ _ _ P). cbn [trace_of snd].
      apply in_or_app. right. apply in_or_app. now left.
    + rewrite (bind_Exc _ _ _ P) in *. cbn [trace_of snd] in *.
      rewrite calls_app in made. apply in_app_or in made as [I | I].
      * exfalso. exact (harmless t0 quiet I).
      * exfalso. rewrite Forall_forall in silent. exact (silent _ I).
    + rewrite (bind_NoFuel _ _ _ P) in *. cbn [trace_of snd] in *.
      rewrite calls_app in made. apply in_app_or in made as [I | I].
      * exfalso. exact (harmless t0 quiet I).
      * exfalso. rewrite Forall_forall in silent. exact (silent _ I).
  - rewrite (bind_Exc _ _ _ C) in *. cbn [trace_of snd] in *.
    exfalso. exact (harmless t0 quiet made).
  - rewrite (bind_NoFuel _ _ _ C) in *. cbn [trace_of snd] in *.
    exfalso. exact (harmless t0 quiet made).
Qed.

(** ** [get_catalog_id] on the resources the service describes *)

(** [get_catalog_id] never returns a dictionary: it returns what a
    [CatalogId] key holds only when that is no dictionary, and [None]
    otherwise. *)
Lemma get_catalog_id_plain resource :
  is_dict (get_catalog_id_dict resource) = false.
Proof.
  destruct resource as [| b | z | x | l | d]; try reflexivity.
  pattern d. apply scan_ind; clear d.
  - reflexivity.
  - intros key d rest IH. now rewrite get_catalog_id_below.
  - intros key x rest plain IH. rewrite get_catalog_id_after by assumption.
    destruct (String.eqb "CatalogId" key); assumption.
Qed.

Lemma finds_first before v behind :
  Forall (fun entry => is_dict (snd entry) = false /\ fst entry <> "CatalogId")
         before ->
  is_dict v = false ->
  finds (before ++ ("CatalogId", v) :: behind) v.
Proof.
  intros flat plain. induction before as [| [key x] before IH]; simpl.
  - now apply finds_here.
  - inversion flat as [| ? ? (plain_x & other) flat']; subst.
    apply finds_after; auto.
Qed.

(** A resource as the service describes it, one key naming its kind over a
    record of fields, is attributed to the catalog id of that record when
    [CatalogId] comes before any field that holds a dictionary, whatever
    follows it; and to none when the record has no [CatalogId] and no
    dictionary at all.  The result is never a dictionary. *)
Theorem get_catalog_id_of_resource kind fields :
  (forall before v behind,
     fields = before ++ ("CatalogId", v) :: behind ->
     Forall (fun entry => is_dict (snd entry) = false /\ fst entry <> "CatalogId")
            before ->
     is_dict v = false ->
     get_catalog_id (VDict [(kind, VDict fields)]) = Ret v) /\
  (Forall (fun entry => is_dict (snd entry) = false /\ fst entry <> "CatalogId")
          fields ->
   get_catalog_id (VDict [(kind, VDict fields)]) = Ret VNone) /\
  (forall v, get_catalog_id (VDict [(kind, VDict fields)]) = Ret v ->
             is_dict v = false).
Proof.
  split; [| split].
  - intros before v behind -> flat plain.
    apply get_catalog_id_found. apply finds_below. now apply finds_first.
  - intros flat. unfold get_catalog_id. rewrite get_catalog_id_below.
    f_equal. induction fields as [| [key x] fields IH]; [reflexivity |].
    inversion flat as [| ? ? (plain & other) flat']; subst.
    cbn [fst snd] in *. rewrite get_catalog_id_after by assumption.
    destruct (String.eqb_spec "CatalogId" key); [congruence | auto].
  - intros v E. unfold get_catalog_id in E.
    assert (same : get_catalog_id_dict (VDict [(kind, VDict fields)]) = v)
      by congruence.
    rewrite <- same. apply get_catalog_id_plain.
Qed.

(** ** The session *)

Lemma calls_bind_invoke {B} c (f : value -> M B) s :
  exists rest, calls (trace_of (bind (invoke remote c) f s)) = c :: rest.
Proof.
  rewrite bind_invoke.
  destruct (remote c (world s)) as [[v | info] w]; eexists; reflexivity.
Qed.

Lemma configure_session args s :
  exists session_args rest,
    calls (trace_of (configure remote args s)) = Session (VDict session_args) :: rest /\
    dict_get session_args "profile_name" = option_map VStr (profile args) /\
    dict_get session_args "region_name" = option_map VStr (region args) /\
    incl (keys session_args) ["profile_name"; "region_name"].
Proof.
  unfold configure.
  destruct (profile args) as [p |], (region args) as [r |]; cbn [option_map].
  - exists [("profile_name", VStr p); ("region_name", VStr r)].
    erewrite bind_Ret by reflexivity. erewrite bind_Ret by reflexivity.
    cbn [outcome_of state_of trace_of fst snd app].
    rewrite ?calls_app. cbn [calls app].
    match goal with
    | |- context [bind (invoke remote ?c) ?f ?s0] =>
        destruct (calls_bind_invoke c f s0) as (rest & ->)
    end.
    exists rest. repeat split; try reflexivity.
    intros k I. exact I.
  - exists [("profile_name", VStr p)].
    erewrite bind_Ret by reflexivity. erewrite bind_Ret by reflexivity.
    cbn [outcome_of state_of trace_of fst snd app].
    rewrite ?calls_app. cbn [calls app].
    match goal with
    | |- context [bind (invoke remote ?c) ?f ?s0] =>
        destruct (calls_bind_invoke c f s0) as (rest & ->)
    end.
    exists rest. repeat split; try reflexivity.
    intros k I. simpl in *. tauto.
  - exists [("region_name", VStr r)].
    erewrite bind_Ret by reflexivity. erewrite bind_Ret by reflexivity.
    cbn [outcome_of state_of trace_of fst snd app].
    rewrite ?calls_app. cbn [calls app].
    match goal with
    | |- context [bind (invoke remote ?c) ?f ?s0] =>
        destruct (calls_bind_invoke c f s0) as (rest & ->)
    end.
    exists rest. repeat split; try reflexivity.
    intros k I. simpl in *. tauto.
  - exists [].
    erewrite bind_Ret by reflexivity. erewrite bind_Ret by reflexivity.
    cbn [outcome_of state_of trace_of fst snd app].
    rewrite ?calls_app. cbn [calls app].
    match goal with
    | |- context [bind (invoke remote ?c) ?f ?s0] =>
        destruct (calls_bind_invoke c f s0) as (rest & ->)
    end.
    exists rest. repeat split; try reflexivity.
    intros k I. simpl in *. tauto.
Qed.

(** Whatever the run, the first thing it calls is [boto3.Session], with
    [profile_name] exactly when a profile was given on the command line, with
    [region_name] exactly when a region was, and with nothing else. *)
Theorem session_arguments fuel args s :
  exists session_args rest,
    calls (trace_of (main remote recursion_limit fuel args s)) = Session (VDict session_args) :: rest /\
    dict_get session_args "profile_name" = option_map VStr (profile args) /\
    dict_get session_args "region_name" = option_map VStr (region args) /\
    incl (keys session_args) ["profile_name"; "region_name"].
Proof.
  destruct (configure_session args s) as (session_args & rest & first & facts).
  exists session_args. unfold main.
  destruct (configure remote args s) as [[[account_id | e |] s0] t0] eqn:C;
    cbn [trace_of snd] in first.
  - rewrite (bind_Ret _ _ _ C). cbn [trace_of snd].
    rewrite calls_app, first. eexists. split; [reflexivity | exact facts].
  - rewrite (bind_Exc _ _ _ C). cbn [trace_of snd].
    exists rest. split; [exact first | exact facts].
  - rewrite (bind_NoFuel _ _ _ C). cbn [trace_of snd].
    exists rest. split; [exact first | exact facts].
Qed.

(** ** Permission records that lack a field *)

Lemma subscript_raises v k e : subscript v k = Exc e -> is_Exception e = true.
Proof.
  unfold subscript. destruct v as [| b | z | x | l | d];
    try (intros E; inversion E; reflexivity).
  destruct (dict_get d k); intros E; inversion E. reflexivity.
Qed.

(** In the revoke loop, a record of another principal than the sentinel, on
    a resource of the account, that lacks [Permissions] or
    [PermissionsWithGrantOption] is reported and passed over: the error is
    printed, no call is made, and the loop goes on with the next record.  A
    record that lacks [Principal] ends the loop, and the run, with the
    error. *)
Theorem incomplete_records account_id p rest s e :
  (forall principal identifier d,
     subscript p "Principal" = Ret principal ->
     subscript principal "DataLakePrincipalIdentifier" = Ret identifier ->
     identifier <> VStr "IAM_ALLOWED_PRINCIPALS" ->
     subscript p "Resource" = Ret (VDict d) ->
     py_eq (get_catalog_id_dict (VDict d)) account_id = true ->
     subscript p "Permissions" = Exc e \/
     (exists permissions,
        subscript p "Permissions" = Ret permissions /\
        subscript p "PermissionsWithGrantOption" = Exc e) ->
     for_each (p :: rest) (revoke remote account_id) s =
     after [EPrint (revoking_line identifier (VDict d)); EPrint [FmtExn e]]
           (for_each rest (revoke remote account_id) s)) /\
  (subscript p "Principal" = Exc e ->
   for_each (p :: rest) (revoke remote account_id) s = (Exc e, s, [])).
Proof.
  split.
  - intros principal identifier d Hp Hi other Hr owned missing.
    cbn [for_each].
    assert (one : revoke remote account_id p s =
              (Ret tt, s, [EPrint (revoking_line identifier (VDict d));
                           EPrint [FmtExn e]])).
    { rewrite (revoke_attempt _ _ s Hp Hi other Hr owned).
      unfold try_except. rewrite bind_eval.
      destruct missing as [E | (permissions & E1 & E)].
      - rewrite E. rewrite (subscript_raises _ _ E). reflexivity.
      - rewrite E1, bind_eval, E. rewrite (subscript_raises _ _ E). reflexivity. }
    rewrite (bind_Ret _ _ _ one). reflexivity.
  - intros missing. cbn [for_each].
    apply bind_Exc. unfold revoke. rewrite bind_eval, missing. reflexivity.
Qed.

(** ** Where revoke requests come from *)

Lemma follow_tokens_asks fuel op key res items :
  emits (asks op) (follow_tokens remote fuel op key res items).
Proof.
  revert res items.
  induction fuel as [| fuel IH]; intros res items; simpl.
  - apply emits_bind; [emits_step |]. intros [|]; emits_step.
  - apply emits_bind; [emits_step |]. intros [|]; [| emits_step].
    apply emits_bind; [emits_step |]. intros token.
    apply emits_bind; [apply emits_invoke; now exists (Some token) |].
    intros res'. apply emits_bind; [emits_step |]. intros items'. apply IH.
Qed.

Lemma list_all_asks fuel op key : emits (asks op) (list_all remote fuel op key).
Proof.
  unfold list_all.
  apply emits_bind; [apply emits_invoke; now exists None |]. intros res.
  apply emits_bind; [emits_step |]. intros items. apply follow_tokens_asks.
Qed.

(** The records a hand-written listing returns were all listed by it. *)
Lemma list_all_lists name op key fuel s items s' t l x :
  (forall token, operation (op token) = name) ->
  list_all remote fuel op key s = (Ret items, s', t) ->
  py_iter items = Ret l ->
  In x l -> lists t op key x.
Proof.
  intros named run iter I.
  rewrite (@list_all_completed name op key fuel s items s' t l named run iter) in I.
  apply (@listed_lists name op key t x named); [| exact I].
  pose proof (list_all_asks fuel op key s) as F. now rewrite run in F.
Qed.

Lemma revoke_of_record account_id p :
  emits (of_record p) (revoke remote account_id p).
Proof.
  unfold revoke.
  apply emits_bind_eval. intros principal Hp.
  apply emits_bind_eval. intros identifier Hi.
  destruct (py_eq identifier (VStr "IAM_ALLOWED_PRINCIPALS")) eqn:sentinel;
    cbn [negb]; [emits_step |].
  apply emits_bind_eval. intros resource Hr.
  apply emits_bind; [emits_step |]. intros _.
  apply emits_bind; [emits_step |]. intros catalog_id.
  destruct (negb (py_eq catalog_id account_id)); [emits_step |].
  apply emits_try_except; [| intros e; emits_step].
  apply emits_bind_eval. intros permissions Hperm.
  apply emits_bind_eval. intros with_grant Hgrant.
  apply emits_bind; [| intros _; emits_step].
  apply emits_invoke. simpl. exists identifier. repeat split; auto.
  intros same. apply py_eq_VStr in same. congruence.
Qed.

Lemma from_listing_mono t1 t t2 c :
  from_listing t c -> from_listing (t1 ++ t ++ t2) c.
Proof.
  destruct c; simpl; auto. intros (p & L & R). exists p.
  split; [now apply lists_mono | exact R].
Qed.

Lemma calls_in before c answer behind :
  In c (calls (before ++ ECall c answer :: behind)).
Proof. rewrite calls_app. apply in_or_app. right. now left. Qed.

(** A trace without revoke has nothing to account for. *)
Lemma listed_first_quiet tr :
  Forall (fun c => is_revoke c = false) (calls tr) -> listed_first tr.
Proof.
  intros quiet before c answer behind cut. subst tr.
  rewrite Forall_forall in quiet.
  specialize (quiet c (calls_in before c answer behind)).
  destruct c; try exact I. discriminate quiet.
Qed.

(** What follows may rely on what was listed so far. *)
Lemma listed_first_app t1 t2 :
  listed_first t1 ->
  (forall before c answer behind,
     t2 = before ++ ECall c answer :: behind -> from_listing (t1 ++ before) c) ->
  listed_first (t1 ++ t2).
Proof.
  intros first second before c answer behind cut.
  apply app_eq_app in cut as (l & [(E1 & E2) | (E1 & E2)]).
  - destruct l as [| e l].
    + cbn [app] in E2. rewrite app_nil_r in E1. subst before.
      rewrite <- (app_nil_r t1). apply (second [] c answer behind).
      now symmetry.
    + cbn [app] in E2. inversion E2; subst e behind.
      exact (first before c answer l E1).
  - subst before. exact (second l c answer behind E2).
Qed.

Lemma revokes_listed_bind {A B} (m : M A) (f : A -> M B) :
  revokes_listed m -> (forall a, revokes_listed (f a)) ->
  revokes_listed (bind m f).
Proof.
  intros Hm Hf s. unfold bind. specialize (Hm s).
  destruct (m s) as [[[a | e |] s1] t1]; cbn [trace_of snd] in *; auto.
  specialize (Hf a s1). destruct (f a s1) as [[o s2] t2].
  cbn [trace_of snd] in *.
  apply listed_first_app; [exact Hm |].
  intros before c answer behind cut.
  rewrite <- (app_nil_r before).
  apply from_listing_mono. exact (Hf before c answer behind cut).
Qed.

(** A phase that revokes nothing has nothing to account for. *)
Lemma revokes_listed_only {A} operations (m : M A) :
  emits (only operations) m -> ~ In "revoke_permissions" operations ->
  revokes_listed m.
Proof.
  intros E other s. apply listed_first_quiet.
  eapply Forall_impl; [| apply E].
  intros [] O; try reflexivity. contradiction.
Qed.

Lemma revoke_permissions_revokes_listed fuel account_id :
  revokes_listed (revoke_permissions remote fuel account_id).
Proof.
  intros s. unfold revoke_permissions. rewrite bind_print.
  cbn [outcome_of state_of trace_of fst snd].
  pose proof (list_all_asks fuel ListPermissions "PrincipalResourcePermissions" s)
    as asked_.
  assert (listing_quiet : forall t,
            Forall (asks ListPermissions) (calls t) ->
            listed_first
              (EPrint [Lit "5. Revoking all the permissions except IAM_ALLOWED_PRINCIPALS..."]
               :: t)).
  { intros t F. apply listed_first_quiet. cbn [calls].
    eapply Forall_impl; [| exact F]. now intros c (token & ->). }
  destruct (list_all remote fuel ListPermissions "PrincipalResourcePermissions" s)
    as [[[items | e |] s1] t1] eqn:listing_;
    [ rewrite (bind_Ret _ _ _ listing_)
    | rewrite (bind_Exc _ _ _ listing_)
    | rewrite (bind_NoFuel _ _ _ listing_) ];
    cbn [outcome_of state_of trace_of fst snd] in *;
    try (now apply listing_quiet).
  rewrite bind_eval.
  destruct (py_iter items) as [l | e |] eqn:iter;
    cbn [outcome_of state_of trace_of fst snd];
    try (rewrite app_nil_r; now apply listing_quiet).
  assert (loop : emits (fun c => exists p, In p l /\ of_record p c)
                       (for_each l (revoke remote account_id))).
  { apply emits_for_each. intros p member s0.
    eapply Forall_impl; [| apply (revoke_of_record account_id p s0)].
    intros c R. now exists p. }
  specialize (loop s1).
  destruct (for_each l (revoke remote account_id) s1) as [[o s2] t2].
  cbn [outcome_of state_of trace_of fst snd] in *.
  rewrite app_comm_cons.
  apply listed_first_app; [now apply listing_quiet |].
  intros before c answer behind cut. subst t2.
  rewrite Forall_forall in loop.
  destruct (loop c (calls_in before c answer behind)) as (p & member & R).
  destruct c; try exact I.
  exists p. split; [| exact R].
  cbn [app]. apply lists_cons. apply lists_mono_r.
  eapply list_all_lists with (name := "list_permissions");
    [reflexivity | exact listing_ | exact iter | exact member].
Qed.

Lemma main_revokes_listed fuel args :
  revokes_listed (main remote recursion_limit fuel args).
Proof.
  unfold main.
  apply revokes_listed_bind.
  { apply (revokes_listed_only (configure_only args)).
    simpl. intuition discriminate. }
  intros account_id. apply revokes_listed_bind.
  { apply (revokes_listed_only (prompt_only confirmation)). simpl. tauto. }
  intros _. apply revokes_listed_bind.
  { apply revokes_listed_only with (operations := ["client"]);
      [apply emits_invoke; now left | simpl; intuition discriminate]. }
  intros _. apply revokes_listed_bind.
  { apply revokes_listed_only with (operations := ["client"]);
      [apply emits_invoke; now left | simpl; intuition discriminate]. }
  intros _. apply revokes_listed_bind.
  { apply (revokes_listed_only modify_data_lake_settings_only).
    simpl. intuition discriminate. }
  intros _. apply revokes_listed_bind.
  { apply (revokes_listed_only (deregister_locations_only fuel)).
    simpl. intuition discriminate. }
  intros _. apply revokes_listed_bind.
  { apply (revokes_listed_only grant_catalog_only).
    simpl. intuition discriminate. }
  intros _. apply revokes_listed_bind.
  { apply (revokes_listed_only (grant_databases_only fuel)).
    simpl. intuition discriminate. }
  intros _. apply revokes_listed_bind;
    [apply revoke_permissions_revokes_listed |].
  intros _ s. apply listed_first_quiet. constructor.
Qed.

(** Whatever the run, every [revoke_permissions] call is made of the four
    fields of a permission record that [list_permissions] had returned
    before that call, in that run, and the principal of that record is not
    IAM_ALLOWED_PRINCIPALS: the script revokes only what it was told exists,
    as it was told, and never from the sentinel. *)
Theorem revokes_come_from_the_listing fuel args s before answer behind
    principal resource permissions with_grant :
  trace_of (main remote recursion_limit fuel args s) =
    before
    ++ ECall (RevokePermissions principal resource permissions with_grant) answer
    :: behind ->
  exists p identifier,
    lists before ListPermissions "PrincipalResourcePermissions" p /\
    subscript p "Principal" = Ret principal /\
    subscript principal "DataLakePrincipalIdentifier" = Ret identifier /\
    identifier <> VStr "IAM_ALLOWED_PRINCIPALS" /\
    subscript p "Resource" = Ret resource /\
    subscript p "Permissions" = Ret permissions /\
    subscript p "PermissionsWithGrantOption" = Ret with_grant.
Proof.
  intros cut.
  destruct (main_revokes_listed fuel args s _ _ _ _ cut)
    as (p & L & identifier & facts).
  now exists p, identifier.
Qed.

(** ** Where a paginator stops *)


End Properties.

(** * The properties on the sample accounts *)

Import Lake Sample.

Lemma confirmation_prompt_witness :
  prompt frames confirmation {| world := acme; stdin := ["maybe"; "No"; "y"] |} =
    (Exc (SystemExit 0), {| world := acme; stdin := ["y"] |},
     [asked confirmation "maybe"; asked confirmation "No"]) /\
  prompt frames confirmation {| world := acme; stdin := ["perhaps"; "YES"] |} =
    (Ret tt, {| world := acme; stdin := [] |},
     [asked confirmation "perhaps"; asked confirmation "YES"]) /\
  outcome_of (run 4 no_arguments acme ["maybe"; "No"; "y"]) = Exc (SystemExit 0) /\
  Forall (fun c => mutating c = false)
         (calls (trace_of (run 4 no_arguments acme ["maybe"; "No"; "y"]))).
Proof.
  assert (maybe : Forall (fun a => ~ In (lower a) ["n"; "no"; "y"; "yes"])
                         ["maybe"]).
  { constructor; [| constructor]. simpl. intuition discriminate. }
  assert (perhaps : Forall (fun a => ~ In (lower a) ["n"; "no"; "y"; "yes"])
                           ["perhaps"]).
  { constructor; [| constructor]. simpl. intuition discriminate. }
  assert (shallow : length ["maybe"] < frames) by (unfold frames; simpl; lia).
  assert (shallow' : length ["perhaps"] < frames) by (unfold frames; simpl; lia).
  destruct (confirmation_prompt serve confirmation "No" ["y"] acme maybe shallow)
    as (declined & _ & _ & exits).
  destruct (confirmation_prompt serve confirmation "YES" [] acme perhaps shallow')
    as (_ & accepted & _ & _).
  assert (no : In (lower "No") ["n"; "no"]) by (vm_compute; tauto).
  assert (yes : In (lower "YES") ["y"; "yes"]) by (vm_compute; tauto).
  split; [exact (declined no) |].
  split; [exact (accepted yes) |].
  assert (configured :
    configure serve no_arguments
      {| world := acme; stdin := ["maybe"] ++ "No" :: ["y"] |} =
    (Ret (VStr account),
     {| world := acme; stdin := ["maybe"; "No"; "y"] |},
     trace_of (configure serve no_arguments
                 {| world := acme; stdin := ["maybe"; "No"; "y"] |})))
    by (vm_compute; reflexivity).
  destruct (exits no 4 no_arguments _ _ _ configured) as (exited & quiet).
  split.
  - unfold run. change (["maybe"; "No"; "y"]) with (["maybe"] ++ "No" :: ["y"]).
    rewrite exited. reflexivity.
  - unfold run. change (["maybe"; "No"; "y"]) with (["maybe"] ++ "No" :: ["y"]).
    rewrite exited. exact quiet.
Defined.

(** C3, as the claim has it, fails: after as many answers that are neither a
    yes nor a no as [prompt] may nest, the prompt is not asked again and a
    "n" that follows does not exit with status 0; the run ends with
    [RecursionError], the "n" unread. *)
Lemma hesitation_exceeds_the_stack :
  (forall limit (l : lake),
     prompt limit confirmation
            {| world := l; stdin := repeat "maybe" limit ++ ["n"] |} =
       (Exc RecursionError, {| world := l; stdin := ["n"] |},
        map (asked confirmation) (repeat "maybe" limit))) /\
  let r := run 4 no_arguments acme (repeat "maybe" frames ++ ["n"]) in
  outcome_of r = Exc RecursionError /\
  outcome_of r <> Exc (SystemExit 0) /\
  stdin (state_of r) = ["n"].
Proof.
  split.
  - intros limit l. apply prompt_exhausted.
    + apply Forall_forall. intros a I. apply repeat_spec in I. subst a.
      simpl. intuition discriminate.
    + apply repeat_length.
  - assert (ended : outcome_of (run 4 no_arguments acme
                                    (repeat "maybe" frames ++ ["n"])) =
                    Exc RecursionError) by (vm_compute; reflexivity).
    cbv zeta. rewrite ended.
    split; [reflexivity |]. split; [discriminate |].
    vm_compute. reflexivity.
Qed.

Lemma unreachable_catalog_id_never_revoked_witness :
  get_catalog_id catalog_resource = Ret VNone /\
  revoke serve (VStr account) (permission alice catalog_resource)
         {| world := acme; stdin := [] |} =
    (Ret tt, {| world := acme; stdin := [] |},
     [EPrint (revoking_line (VStr "arn:aws:iam::123456789012:user/alice")
                            catalog_resource);
      EPrint (skipped_line catalog_resource (VStr account))]) /\
  exists d v, table_of account "sales" "orders" = VDict d /\ finds d v.
Proof.
  assert (unreachable : forall v, ~ finds [("Catalog", VDict [])] v).
  { intros v F. inversion F as [| ? ? ? ? F' | ? ? ? ? plain]; subst.
    - inversion F'.
    - discriminate plain. }
  destruct (unreachable_catalog_id_never_revoked serve frames) as (none & skips & needs).
  split; [exact (none _ unreachable) |].
  split.
  - apply (skips (VStr account) (permission alice catalog_resource) alice
                 (VStr "arn:aws:iam::123456789012:user/alice")
                 [("Catalog", VDict [])] {| world := acme; stdin := [] |});
      [ discriminate | reflexivity | reflexivity | discriminate | reflexivity
      | exact unreachable ].
  - apply (needs 4 no_arguments {| world := acme; stdin := ["y"] |}
                 alice (table_of account "sales" "orders")
                 (VList [VStr "SELECT"]) (VList [])).
    + vm_compute; discriminate.
    + vm_compute; tauto.
Defined.

Lemma owned_grants_are_revoked_witness :
  let r := run 4 no_arguments acme ["y"] in
  outcome_of r = Ret tt /\
  In (permission alice (table_of account "sales" "orders"))
     (listed "list_permissions" "PrincipalResourcePermissions" (trace_of r)) /\
  exists answer,
    In (ECall (RevokePermissions alice (table_of account "sales" "orders")
                 (VList [VStr "SELECT"]) (VList [])) answer) (trace_of r) /\
    forall info, answer = Err info ->
                 In (EPrint [FmtExn (RemoteError info)]) (trace_of r).
Proof.
  intros r.
  assert (ran : main serve frames 4 no_arguments {| world := acme; stdin := ["y"] |} =
                (Ret tt, state_of r, trace_of r)) by (vm_compute; reflexivity).
  assert (member : In (permission alice (table_of account "sales" "orders"))
                      (listed "list_permissions" "PrincipalResourcePermissions"
                              (trace_of r))) by (vm_compute; tauto).
  assert (account_ : outcome_of (configure serve no_arguments
                                   {| world := acme; stdin := ["y"] |}) =
                     Ret (VStr account)) by (vm_compute; reflexivity).
  assert (owned : py_eq (get_catalog_id_dict (table_of account "sales" "orders"))
                        (VStr account) = true) by (vm_compute; reflexivity).
  split; [vm_compute; reflexivity |]. split; [exact member |].
  exact (@owned_grants_are_revoked _ serve frames 4 no_arguments _ _ _ ran
           (VStr account)
           (permission alice (table_of account "sales" "orders"))
           alice
           (VStr "arn:aws:iam::123456789012:user/alice")
           _ (VList [VStr "SELECT"]) (VList [])
           account_ member eq_refl eq_refl
           ltac:(discriminate)
           eq_refl owned eq_refl eq_refl).
Defined.

(** C2, as the claim has it, fails: in the account where the service refuses
    to revoke from alice, the run completes, and alice's grant on a table of
    the account is still there. *)
Lemma grant_survives_refused_revoke :
  let r := run 4 no_arguments acme_refusing ["y"] in
  outcome_of r = Ret tt /\
  ~ sentinel_only (VStr account) (grants (world (state_of r))).
Proof.
  intros r. split; [vm_compute; reflexivity |].
  intros only_sentinel.
  specialize (only_sentinel (permission alice (table_of account "sales" "orders"))
                            (table_of account "sales" "orders")).
  assert (E : subscript (permission alice (table_of account "sales" "orders"))
                        "Principal" = Ret iam_allowed_principal).
  { apply only_sentinel.
    - vm_compute. tauto.
    - reflexivity.
    - eapply holds_inside; [now left |]. apply holds_entry. now left. }
  discriminate E.
Qed.

Lemma revoke_errors_are_skipped_witness :
  let refusing := {| world := acme_refusing; stdin := [] |} in
  let mine := permission alice (table_of account "sales" "orders") in
  let theirs := permission bob (table_of "999999999999" "theirs" "orders") in
  let stale := run 4 no_arguments acme_stale ["y"] in
  for_each [mine; theirs] (revoke serve (VStr account)) refusing =
    after [EPrint (revoking_line (VStr "arn:aws:iam::123456789012:user/alice")
                                 (table_of account "sales" "orders"));
           ECall (RevokePermissions alice (table_of account "sales" "orders")
                    (VList [VStr "SELECT"]) (VList []))
                 (Err (VStr "AccessDeniedException"));
           EPrint [FmtExn (RemoteError (VStr "AccessDeniedException"))]]
      (for_each [theirs] (revoke serve (VStr account)) refusing) /\
  trace_of stale =
    removelast (trace_of stale)
    ++ [ECall (GetTables (VStr "ghost") None) (Err (VStr "EntityNotFoundException"))] /\
  outcome_of stale = Exc (RemoteError (VStr "EntityNotFoundException")).
Proof.
  intros refusing mine theirs stale.
  destruct (revoke_errors_are_skipped serve frames) as (skipped & propagated).
  split.
  - apply (skipped (VStr account) mine [theirs] alice
                   (VStr "arn:aws:iam::123456789012:user/alice")
                   [("Table", VDict [("CatalogId", VStr account);
                                     ("DatabaseName", VStr "sales");
                                     ("Name", VStr "orders")])]
                   (VList [VStr "SELECT"]) (VList []) refusing
                   (VStr "AccessDeniedException") acme_refusing);
      [ reflexivity | reflexivity | discriminate | reflexivity
      | vm_compute; reflexivity | reflexivity | reflexivity
      | vm_compute; reflexivity ].
  - assert (shape : trace_of (main serve frames 4 no_arguments
                                {| world := acme_stale; stdin := ["y"] |}) =
                    removelast (trace_of stale)
                    ++ ECall (GetTables (VStr "ghost") None)
                             (Err (VStr "EntityNotFoundException")) :: [])
      by (vm_compute; reflexivity).
    split; [exact shape |].
    exact (proj2 (propagated 4 no_arguments _ _ _ _ _ shape eq_refl)).
Defined.

Lemma resource_links_never_granted_witness :
  let r := run 4 no_arguments acme ["y"] in
  calls (trace_of (grant_database serve 4 shared {| world := acme; stdin := [] |})) = [] /\
  calls (trace_of (grant_table serve (VStr "sales") orders_link
                     {| world := acme; stdin := [] |})) = [] /\
  In (GrantPermissions iam_allowed_principal
        (table_resource (VStr "sales") (VStr "orders"))
        (VList [VStr "ALL"]) (VList []))
     (calls (trace_of r)) /\
  (table_resource (VStr "sales") (VStr "orders") = catalog_resource \/
   exists d name,
     lists (trace_of r) GetDatabases "DatabaseList" d /\
     subscript d "Name" = Ret name /\
     py_contains "TargetDatabase" d = Ret false /\
     (table_resource (VStr "sales") (VStr "orders") = database_resource name \/
      exists t table_name,
        lists (trace_of r) (GetTables name) "TableList" t /\
        py_contains "TargetTable" t = Ret false /\
        subscript t "Name" = Ret table_name /\
        table_resource (VStr "sales") (VStr "orders") =
          table_resource name table_name)).
Proof.
  intros r.
  destruct (resource_links_never_granted serve frames) as (database & table & grants_).
  split; [apply database; reflexivity |].
  split; [apply table; reflexivity |].
  assert (made : In (GrantPermissions iam_allowed_principal
                       (table_resource (VStr "sales") (VStr "orders"))
                       (VList [VStr "ALL"]) (VList []))
                    (calls (trace_of (main serve frames 4 no_arguments
                                        {| world := acme; stdin := ["y"] |}))))
    by (vm_compute; tauto).
  split; [exact made |].
  exact (grants_ 4 no_arguments _ _ _ _ _ made).
Defined.

Lemma listings_read_all_pages_witness :
  let first := VDict [("ResourceInfoList",
                       VList [VDict [("ResourceArn", VStr "arn:aws:s3:::lake/sales")];
                              VDict [("ResourceArn", VStr "arn:aws:s3:::lake/raw")]]);
                      ("NextToken", VInt 2)] in
  let last := VDict [("ResourceInfoList",
                      VList [VDict [("ResourceArn", VStr "arn:aws:s3:::lake/tmp")]])] in
  let one := VDict [("DatabaseList", VList [sales]); ("NextToken", VInt 1)] in
  let two := VDict [("DatabaseList", VList [shared])] in
  let grant := GrantPermissions iam_allowed_principal
                 (database_resource (VStr "sales")) (VList [VStr "ALL"]) (VList []) in
  let update := UpdateDatabase (VStr "sales")
                  (VDict [("Name", VStr "sales"); ("Description", VStr "");
                          ("LocationUri", VStr "s3://lake/sales");
                          ("Parameters", VDict []);
                          ("CreateTableDefaultPermissions", all_to_iam_allowed)]) in
  let updated := snd (serve update (snd (serve grant acme_paged))) in
  let plain := VDict [("TableList", VList [orders]); ("NextToken", VInt 1)] in
  let link := VDict [("TableList", VList [orders_link])] in
  let held := VDict [("PrincipalResourcePermissions",
                      VList [permission alice (table_of account "sales" "orders");
                             permission bob (table_of "999999999999" "theirs" "orders")]);
                     ("NextToken", VInt 2)] in
  let kept := VDict [("PrincipalResourcePermissions",
                      VList [permission iam_allowed_principal
                               (table_of account "sales" "orders")])] in
  deregister_locations serve 4 {| world := acme; stdin := [] |} =
    after [EPrint [Lit "2. De-registering all the data lake locations..."];
           ECall (ListResources None) (Ok first);
           ECall (ListResources (Some (VInt 2))) (Ok last)]
      (for_each (locations acme) (deregister serve)
                {| world := acme; stdin := [] |}) /\
  grant_databases serve 4 {| world := acme_paged; stdin := [] |} =
    after [EPrint [Lit "4. Granting ALL to IAM_ALLOWED_PRINCIPALS for existing databases and tables..."];
           ECall (GetDatabases None) (Ok one);
           ECall (GetDatabases (Some (VInt 1))) (Ok two)]
      (for_each [sales; shared] (grant_database serve 4)
                {| world := acme_paged; stdin := [] |}) /\
  grant_database serve 4 sales {| world := acme_paged; stdin := [] |} =
    after [EPrint [Lit "... Granting permissions on database ";
                   Fmt (VStr "sales"); Lit " ..."];
           ECall grant (Ok (VDict []));
           ECall update (Ok (VDict []));
           ECall (GetTables (VStr "sales") None) (Ok plain);
           ECall (GetTables (VStr "sales") (Some (VInt 1))) (Ok link)]
      (for_each [orders; orders_link] (grant_table serve (VStr "sales"))
                {| world := updated; stdin := [] |}) /\
  revoke_permissions serve 4 (VStr account) {| world := acme; stdin := [] |} =
    after [EPrint [Lit "5. Revoking all the permissions except IAM_ALLOWED_PRINCIPALS..."];
           ECall (ListPermissions None) (Ok held);
           ECall (ListPermissions (Some (VInt 2))) (Ok kept)]
      (for_each (grants acme) (revoke serve (VStr account))
                {| world := acme; stdin := [] |}).
Proof.
  intros first last one two grant update updated plain link held kept.
  destruct (listings_read_all_pages serve 4 [])
    as (resources & databases_ & tables_ & permissions).
  assert (lists_ : forall key a b la lb,
            subscript a key = Ret (VList la) ->
            subscript b key = Ret (VList lb) ->
            Forall (holds_list key) [a; b]).
  { intros key a b la lb Ha Hb.
    constructor; [now exists la |]. constructor; [now exists lb | constructor]. }
  split; [| split; [| split]].
  - apply (resources [first; last] acme acme).
    + eapply serves_more; [reflexivity | reflexivity |].
      apply serves_last; reflexivity.
    + eapply lists_; reflexivity.
    + simpl. lia.
  - apply (databases_ [one; two] acme_paged acme_paged).
    + eapply serves_more; [reflexivity | reflexivity |].
      apply serves_last; reflexivity.
    + simpl. tauto.
    + eapply lists_; reflexivity.
    + simpl. lia.
  - apply (tables_ [plain; link] updated updated
                   [("Name", VStr "sales"); ("LocationUri", VStr "s3://lake/sales")]
                   (VStr "sales") acme_paged (snd (serve grant acme_paged))
                   (VDict []) (VDict [])).
    + reflexivity.
    + reflexivity.
    + reflexivity.
    + reflexivity.
    + eapply serves_more; [reflexivity | reflexivity |].
      apply serves_last; reflexivity.
    + simpl. tauto.
    + eapply lists_; reflexivity.
    + simpl. lia.
  - apply (permissions [held; kept] acme acme (VStr account)).
    + eapply serves_more; [reflexivity | reflexivity |].
      apply serves_last; reflexivity.
    + eapply lists_; reflexivity.
    + simpl. lia.
Defined.

Lemma settings_put_back_witness :
  let r := run 4 no_arguments acme ["y"] in
  outcome_of r = Ret tt /\
  exists res fetched put stored,
    answers_to "get_data_lake_settings" (trace_of r) = [res] /\
    subscript res "DataLakeSettings" = Ret (VDict fetched) /\
    requests "put_data_lake_settings" (trace_of r) = [PutDataLakeSettings (VDict put)] /\
    In (ECall (PutDataLakeSettings (VDict put)) (Ok stored)) (trace_of r) /\
    dict_get put "CreateDatabaseDefaultPermissions" = Some all_to_iam_allowed /\
    dict_get put "CreateTableDefaultPermissions" = Some all_to_iam_allowed /\
    (forall k,
       k <> "CreateDatabaseDefaultPermissions" ->
       k <> "CreateTableDefaultPermissions" ->
       dict_get put k = dict_get fetched k).
Proof.
  intros r.
  assert (ran : main serve frames 4 no_arguments {| world := acme; stdin := ["y"] |} =
                (Ret tt, state_of r, trace_of r)) by (vm_compute; reflexivity).
  split; [vm_compute; reflexivity |].
  exact (settings_put_back serve frames 4 no_arguments _ ran).
Defined.

Lemma locations_deregistered_witness :
  let r := run 4 no_arguments acme ["y"] in
  outcome_of r = Ret tt /\
  exists arns,
    Forall2 (fun r arn => subscript r "ResourceArn" = Ret arn)
            (listed "list_resources" "ResourceInfoList" (trace_of r)) arns /\
    requests "deregister_resource" (trace_of r) = map DeregisterResource arns /\
    Forall (fun c => operation c <> "deregister_resource") (failed (trace_of r)).
Proof.
  intros r.
  assert (ran : main serve frames 4 no_arguments {| world := acme; stdin := ["y"] |} =
                (Ret tt, state_of r, trace_of r)) by (vm_compute; reflexivity).
  split; [vm_compute; reflexivity |].
  exact (locations_deregistered serve frames 4 no_arguments _ ran).
Defined.

Lemma update_database_input_witness :
  let s := {| world := acme; stdin := [] |} in
  let grant := GrantPermissions iam_allowed_principal
                 (database_resource (VStr "sales")) (VList [VStr "ALL"]) (VList []) in
  exists entries rest,
    calls (trace_of (grant_database serve 4 sales s)) =
      grant :: UpdateDatabase (VStr "sales") (VDict entries) :: rest /\
    Forall (fun c => operation c <> "update_database") rest /\
    dict_get entries "Name" = Some (VStr "sales") /\
    dict_get entries "Description" = Some (VStr "") /\
    dict_get entries "Parameters" = Some (VDict []) /\
    dict_get entries "CreateTableDefaultPermissions" = Some all_to_iam_allowed /\
    dict_get entries "LocationUri" = Some (VStr "s3://lake/sales") /\
    incl (keys entries)
         ["Name"; "Description"; "LocationUri"; "Parameters";
          "CreateTableDefaultPermissions"].
Proof.
  intros s grant.
  exact (update_database_input serve 4
           [("Name", VStr "sales"); ("LocationUri", VStr "s3://lake/sales")]
           (name := VStr "sales") s (granted := VDict [])
           (w := snd (serve grant acme))
           eq_refl eq_refl eq_refl).
Defined.

(** ** The script on the sample account

    After a run on [acme] the service holds the settings that were put, no
    storage location, and neither alice's grant nor any other grant on a
    table of the account but the sentinel's; bob's grant on another
    account's table is untouched. *)
Example acme_after_run :
  let r := run 4 no_arguments acme ["y"] in
  outcome_of r = Ret tt /\
  locations (world (state_of r)) = [] /\
  subscript (settings (world (state_of r))) "CreateDatabaseDefaultPermissions" =
    Ret all_to_iam_allowed /\
  subscript (settings (world (state_of r))) "CreateTableDefaultPermissions" =
    Ret all_to_iam_allowed /\
  subscript (settings (world (state_of r))) "DataLakeAdmins" = Ret (VList [alice]) /\
  filter (fun g => negb (field_is "Principal" iam_allowed_principal g))
         (grants (world (state_of r))) =
    [permission bob (table_of "999999999999" "theirs" "orders")].
Proof. vm_compute. repeat split. Qed.

(** With no fuel for a second page the run is cut off at the first listing
    that has one. *)
Example acme_out_of_fuel :
  outcome_of (run 0 no_arguments acme ["y"]) = NoFuel.
Proof. vm_compute. reflexivity. Qed.

(** At the end of the input the prompt raises, and nothing was changed. *)
Example acme_no_answer :
  let r := run 4 no_arguments acme ["what?"] in
  outcome_of r = Exc EOFError /\ world (state_of r) = acme.
Proof. vm_compute. split; reflexivity. Qed.

(** ** The further properties on the sample accounts *)

Lemma grants_go_to_the_sentinel_witness :
  let r := run 4 no_arguments acme ["y"] in
  let resource := database_resource (VStr "sales") in
  In (GrantPermissions iam_allowed_principal resource (VList [VStr "ALL"]) (VList []))
     (calls (trace_of r)) /\
  ((resource = catalog_resource /\
    VList [VStr "ALL"] = VList [VStr "CREATE_DATABASE"]) \/
   (VList [VStr "ALL"] = VList [VStr "ALL"] /\
    ((exists name, resource = database_resource name) \/
     (exists database_name name,
        resource = table_resource database_name name)))).
Proof.
  intros r resource.
  assert (made : In (GrantPermissions iam_allowed_principal resource
                       (VList [VStr "ALL"]) (VList []))
                    (calls (trace_of (main serve frames 4 no_arguments
                                        {| world := acme; stdin := ["y"] |}))))
    by (vm_compute; tauto).
  split; [exact made |].
  exact (proj2 (proj2 (grants_go_to_the_sentinel serve frames 4 no_arguments _ _ _ _ _ made))).
Defined.

Lemma updates_keep_the_name_witness :
  let r := run 4 no_arguments acme ["y"] in
  let input := VDict [("Name", VStr "sales"); ("Description", VStr "");
                      ("LocationUri", VStr "s3://lake/sales");
                      ("Parameters", VDict []);
                      ("CreateTableDefaultPermissions", all_to_iam_allowed)] in
  In (UpdateDatabase (VStr "sales") input) (calls (trace_of r)) /\
  exists entries,
    input = VDict entries /\
    dict_get entries "Name" = Some (VStr "sales") /\
    dict_get entries "CreateTableDefaultPermissions" = Some all_to_iam_allowed /\
    incl (keys entries)
         ["Name"; "Description"; "LocationUri"; "Parameters";
          "CreateTableDefaultPermissions"].
Proof.
  intros r input.
  assert (made : In (UpdateDatabase (VStr "sales") input)
                    (calls (trace_of (main serve frames 4 no_arguments
                                        {| world := acme; stdin := ["y"] |}))))
    by (vm_compute; tauto).
  split; [exact made |].
  exact (updates_keep_the_name serve frames 4 no_arguments _ _ _ made).
Defined.

Lemma calls_follow_the_steps_witness :
  let r := run 4 no_arguments acme ["y"] in
  let grant := GrantPermissions iam_allowed_principal catalog_resource
                 (VList [VStr "CREATE_DATABASE"]) (VList []) in
  calls (trace_of r) =
    firstn 12 (calls (trace_of r)) ++ grant
      :: firstn 5 (skipn 13 (calls (trace_of r))) ++ ListPermissions None
      :: skipn 19 (calls (trace_of r)) /\
  phase_of grant <= phase_of (ListPermissions None).
Proof.
  intros r grant.
  assert (split_ :
    calls (trace_of (main serve frames 4 no_arguments {| world := acme; stdin := ["y"] |})) =
      firstn 12 (calls (trace_of r)) ++ grant
        :: firstn 5 (skipn 13 (calls (trace_of r))) ++ ListPermissions None
        :: skipn 19 (calls (trace_of r)))
    by (vm_compute; reflexivity).
  split; [exact split_ |].
  exact (proj2 (calls_follow_the_steps serve frames 4 no_arguments _) _ _ _ _ _ split_).
Defined.

Lemma prompt_ends_witness :
  outcome_of (prompt frames confirmation
                     {| world := acme; stdin := ["what?"; "ok"] |}) =
    Exc EOFError /\
  outcome_of (prompt 2 confirmation
                     {| world := acme; stdin := ["what?"; "ok"; "y"] |}) =
    Exc RecursionError.
Proof.
  split.
  - apply (prompt_ends frames confirmation
                       {| world := acme; stdin := ["what?"; "ok"] |}).
    split; [| unfold frames; simpl; lia].
    repeat constructor; simpl; intuition discriminate.
  - apply (prompt_ends 2 confirmation
                       {| world := acme; stdin := ["what?"; "ok"; "y"] |}).
    split; [| simpl; lia].
    cbn [firstn stdin]. repeat constructor; simpl; intuition discriminate.
Defined.

Lemma no_change_without_consent_witness :
  let r := run 4 no_arguments acme ["Maybe"; "Y"] in
  In (DeregisterResource (VStr "arn:aws:s3:::lake/raw")) (calls (trace_of r)) /\
  exists answer,
    In (EInput confirmation (Some answer)) (trace_of r) /\
    In (lower answer) ["y"; "yes"].
Proof.
  intros r.
  assert (made : In (DeregisterResource (VStr "arn:aws:s3:::lake/raw"))
                    (calls (trace_of (main serve frames 4 no_arguments
                                        {| world := acme; stdin := ["Maybe"; "Y"] |}))))
    by (vm_compute; tauto).
  split; [exact made |].
  exact (no_change_without_consent serve frames 4 no_arguments _ _ made eq_refl).
Defined.

Lemma get_catalog_id_of_resource_witness :
  get_catalog_id (table_of account "sales" "orders") = Ret (VStr account) /\
  get_catalog_id (database_resource (VStr "sales")) = Ret VNone /\
  is_dict (VStr account) = false.
Proof.
  destruct (get_catalog_id_of_resource "Table"
              [("CatalogId", VStr account); ("DatabaseName", VStr "sales");
               ("Name", VStr "orders")]) as (found & _ & plain).
  destruct (get_catalog_id_of_resource "Database" [("Name", VStr "sales")])
    as (_ & none & _).
  assert (here : get_catalog_id (table_of account "sales" "orders") =
                 Ret (VStr account)).
  { apply (found [] (VStr account)
                 [("DatabaseName", VStr "sales"); ("Name", VStr "orders")]);
      [reflexivity | constructor | reflexivity]. }
  split; [exact here |]. split.
  - apply none. constructor; [| constructor].
    split; [reflexivity | discriminate].
  - exact (plain _ here).
Defined.

Lemma incomplete_records_witness :
  let s := {| world := acme; stdin := [] |} in
  let resource := table_of account "sales" "orders" in
  let partial := VDict [("Principal", alice); ("Resource", resource)] in
  let whole := permission bob resource in
  for_each [partial; whole] (revoke serve (VStr account)) s =
    after [EPrint (revoking_line (VStr "arn:aws:iam::123456789012:user/alice")
                                 resource);
           EPrint [FmtExn (KeyError "Permissions")]]
          (for_each [whole] (revoke serve (VStr account)) s) /\
  for_each [VDict [("Resource", resource)]; whole] (revoke serve (VStr account)) s =
    (Exc (KeyError "Principal"), s, []).
Proof.
  intros s resource partial whole.
  split.
  - apply (proj1 (incomplete_records serve (VStr account) partial [whole] s
                    (KeyError "Permissions"))
             alice (VStr "arn:aws:iam::123456789012:user/alice")
             [("Table", VDict [("CatalogId", VStr account);
                               ("DatabaseName", VStr "sales");
                               ("Name", VStr "orders")])]);
      [ reflexivity | reflexivity | discriminate | reflexivity
      | vm_compute; reflexivity | left; reflexivity ].
  - apply (proj2 (incomplete_records serve (VStr account)
                    (VDict [("Resource", resource)]) [whole] s
                    (KeyError "Principal"))).
    reflexivity.
Defined.

Lemma revokes_come_from_the_listing_witness :
  let r := run 4 no_arguments acme ["y"] in
  let resource := table_of account "sales" "orders" in
  trace_of r =
    firstn 38 (trace_of r)
    ++ ECall (RevokePermissions alice resource (VList [VStr "SELECT"]) (VList []))
             (Ok (VDict []))
    :: skipn 39 (trace_of r) /\
  exists p identifier,
    lists (firstn 38 (trace_of r)) ListPermissions
          "PrincipalResourcePermissions" p /\
    subscript p "Principal" = Ret alice /\
    subscript alice "DataLakePrincipalIdentifier" = Ret identifier /\
    identifier <> VStr "IAM_ALLOWED_PRINCIPALS" /\
    subscript p "Resource" = Ret resource /\
    subscript p "Permissions" = Ret (VList [VStr "SELECT"]) /\
    subscript p "PermissionsWithGrantOption" = Ret (VList []).
Proof.
  intros r resource.
  assert (cut :
    trace_of (main serve frames 4 no_arguments {| world := acme; stdin := ["y"] |}) =
      firstn 38 (trace_of r)
      ++ ECall (RevokePermissions alice resource (VList [VStr "SELECT"]) (VList []))
               (Ok (VDict []))
      :: skipn 39 (trace_of r))
    by (vm_compute; reflexivity).
  split; [exact cut |].
  exact (@revokes_come_from_the_listing _ serve frames 4 no_arguments
           _ _ _ _ _ _ _ _ cut).
Defined.

